(** * Secure file sharing core of [file_tracker.py]

    A shallow embedding of the encryption, upload and provenance pipeline of
    [src/file_tracker.py] ([PDFEncryption], [SecureShareDialog.share_file],
    [FileTrackerWindow.upload_file] and [load_file_access_records]), of the
    page navigation of [SecurePDFViewer], of [preview_pdf] and of
    [delete_selected_record], together
    with the library primitives it calls: AES (FIPS-197), CMAC, CTR and the
    EAX mode of [Crypto.Cipher.AES], the exceptions of the Python runtime, and
    the external services (file system, Cloudinary, Firestore, the geolocation
    endpoint) as an explicit world state with an environment of responses.
    What the program writes to the console ([print], the traceback) is left
    out; the message boxes it shows are kept as events. *)

From stdpp Require Import base list strings gmap pretty.
From Stdlib Require Import Strings.Ascii Strings.Byte NArith Lia Bool Btauto.
From Stdlib Require Import Sorting.Sorted Sorting.Permutation.

Local Open Scope byte_scope.
Local Open Scope string_scope.
Local Open Scope list_scope.

(** ** Bytes *)

Module Bytes.

Definition bits8 : Type :=
  (bool * (bool * (bool * (bool * (bool * (bool * (bool * bool)))))))%type.

(** Bitwise exclusive or of two octets, least significant bit first. *)
Definition bits_xor (a b : bits8) : bits8 :=
  let '(a0, (a1, (a2, (a3, (a4, (a5, (a6, a7))))))) := a in
  let '(b0, (b1, (b2, (b3, (b4, (b5, (b6, b7))))))) := b in
  (xorb a0 b0, (xorb a1 b1, (xorb a2 b2, (xorb a3 b3,
  (xorb a4 b4, (xorb a5 b5, (xorb a6 b6, xorb a7 b7))))))).

Definition byte_xor (a b : byte) : byte :=
  Byte.of_bits (bits_xor (Byte.to_bits a) (Byte.to_bits b)).

(** [Crypto.Util.strxor.strxor]; the callers below always pass operands of
    one length, the shorter one decides otherwise. *)
Fixpoint strxor (a b : list byte) : list byte :=
  match a, b with
  | x :: a', y :: b' => byte_xor x y :: strxor a' b'
  | _, _ => []
  end.

(** Equality of two byte strings. *)
Fixpoint bytes_eqb (a b : list byte) : bool :=
  match a, b with
  | [], [] => true
  | x :: a', y :: b' => Byte.eqb x y && bytes_eqb a' b'
  | _, _ => false
  end.

Definition byte_of_N (n : N) : byte :=
  default x00 (Byte.of_N (n mod 256)).

(** [Crypto.Util.number.bytes_to_long]: big-endian. *)
Definition bytes_to_long (bs : list byte) : N :=
  fold_left (fun acc b => (acc * 256 + Byte.to_N b)%N) bs 0%N.

(** The last [len] octets of the big-endian writing of [n]:
    [long_to_bytes(n, len)[-len:]]. *)
Fixpoint long_to_bytes (len : nat) (n : N) : list byte :=
  match len with
  | O => []
  | S len' => long_to_bytes len' (n / 256) ++ [byte_of_N n]
  end.

Definition all_bytes : list byte :=
  Eval vm_compute in omap (fun n => Byte.of_nat n) (seq 0 256).

(** Bit [j] (0 is the least significant) of an octet toggled. *)
Definition bit_mask (j : nat) : byte := byte_of_N (2 ^ N.of_nat (j mod 8)).

Definition flip_bit_byte (j : nat) (b : byte) : byte := byte_xor b (bit_mask j).

(** A buffer with bit [j] of its octet [i] toggled; unchanged when [i] is
    past the end. *)
Fixpoint flip_bit (buf : list byte) (i j : nat) : list byte :=
  match buf, i with
  | [], _ => []
  | b :: rest, O => flip_bit_byte j b :: rest
  | b :: rest, S i' => b :: flip_bit rest i' j
  end.

(** [bytes.hex()]: two lowercase hexadecimal digits per octet. *)
Definition hex_digit (n : N) : ascii :=
  match n with
  | 0 => "0" | 1 => "1" | 2 => "2" | 3 => "3" | 4 => "4" | 5 => "5"
  | 6 => "6" | 7 => "7" | 8 => "8" | 9 => "9" | 10 => "a" | 11 => "b"
  | 12 => "c" | 13 => "d" | 14 => "e" | _ => "f"
  end%N%char.

Fixpoint hex (bs : list byte) : string :=
  match bs with
  | [] => EmptyString
  | b :: rest =>
      String (hex_digit (Byte.to_N b / 16))
        (String (hex_digit (Byte.to_N b mod 16)) (hex rest))
  end.

(** [bytes.fromhex], used to write the published test vectors. *)
Definition hex_value (c : ascii) : N :=
  let n := Ascii.N_of_ascii c in
  if (48 <=? n)%N && (n <=? 57)%N then n - 48
  else if (97 <=? n)%N && (n <=? 102)%N then n - 87
  else if (65 <=? n)%N && (n <=? 70)%N then n - 55
  else 0.

Fixpoint fromhex (s : string) : list byte :=
  match s with
  | String hi (String lo rest) =>
      byte_of_N (hex_value hi * 16 + hex_value lo) :: fromhex rest
  | _ => []
  end.

End Bytes.

Import Bytes.

(** ** AES (FIPS-197), the block cipher behind [Crypto.Cipher.AES] *)

Module AES.

(** Multiplication by [x] in GF(2^8) modulo [x^8 + x^4 + x^3 + x + 1]. *)
Definition xtime (b : byte) : byte :=
  let '(b0, (b1, (b2, (b3, (b4, (b5, (b6, b7))))))) := Byte.to_bits b in
  Byte.of_bits
    (b7, (xorb b0 b7, (b1, (xorb b2 b7, (xorb b3 b7, (b4, (b5, b6))))))).

(** Field multiplication, by shift and add over the bits of [b]. *)
Definition gmul (a b : byte) : byte :=
  let '(b0, (b1, (b2, (b3, (b4, (b5, (b6, b7))))))) := Byte.to_bits b in
  let pick (c : bool) (x : byte) := if c then x else x00 in
  let a1 := xtime a in let a2 := xtime a1 in let a3 := xtime a2 in
  let a4 := xtime a3 in let a5 := xtime a4 in let a6 := xtime a5 in
  let a7 := xtime a6 in
  byte_xor (pick b0 a) (byte_xor (pick b1 a1) (byte_xor (pick b2 a2)
  (byte_xor (pick b3 a3) (byte_xor (pick b4 a4) (byte_xor (pick b5 a5)
  (byte_xor (pick b6 a6) (pick b7 a7))))))).

(** The multiplicative inverse, [a^254], with 0 mapped to 0. *)
Definition ginv (a : byte) : byte :=
  let a2 := gmul a a in let a4 := gmul a2 a2 in let a8 := gmul a4 a4 in
  let a16 := gmul a8 a8 in let a32 := gmul a16 a16 in
  let a64 := gmul a32 a32 in let a128 := gmul a64 a64 in
  gmul a2 (gmul a4 (gmul a8 (gmul a16 (gmul a32 (gmul a64 a128))))).

Definition rotl1 (b : byte) : byte :=
  let '(b0, (b1, (b2, (b3, (b4, (b5, (b6, b7))))))) := Byte.to_bits b in
  Byte.of_bits (b7, (b0, (b1, (b2, (b3, (b4, (b5, b6))))))).

(** The S-box of section 5.1.1: inversion followed by the affine map. *)
Definition sbox_formula (b : byte) : byte :=
  let i := ginv b in
  let r1 := rotl1 i in let r2 := rotl1 r1 in
  let r3 := rotl1 r2 in let r4 := rotl1 r3 in
  byte_xor i (byte_xor r1 (byte_xor r2 (byte_xor r3 (byte_xor r4 x63)))).

Definition sbox_table : list byte :=
  Eval vm_compute in map sbox_formula all_bytes.

Definition sbox (b : byte) : byte := nth (Byte.to_nat b) sbox_table x00.

(** The inverse S-box, by search in the table. *)
Definition inv_sbox_table : list byte :=
  Eval vm_compute in
    map (fun y => default x00 (find (fun x => Byte.eqb (sbox x) y) all_bytes))
        all_bytes.

Definition inv_sbox (b : byte) : byte := nth (Byte.to_nat b) inv_sbox_table x00.

(** A column of the state, and the state as its four columns. *)
Definition word : Type := (byte * byte * byte * byte)%type.
Definition state : Type := (word * word * word * word)%type.

Definition zero_word : word := (x00, x00, x00, x00).
Definition zero_state : state := (zero_word, zero_word, zero_word, zero_word).

Definition word_xor (u v : word) : word :=
  let '(u0, u1, u2, u3) := u in
  let '(v0, v1, v2, v3) := v in
  (byte_xor u0 v0, byte_xor u1 v1, byte_xor u2 v2, byte_xor u3 v3).

Definition sub_word (u : word) : word :=
  let '(u0, u1, u2, u3) := u in (sbox u0, sbox u1, sbox u2, sbox u3).

Definition rot_word (u : word) : word :=
  let '(u0, u1, u2, u3) := u in (u1, u2, u3, u0).

Definition add_round_key (s k : state) : state :=
  let '(s0, s1, s2, s3) := s in
  let '(k0, k1, k2, k3) := k in
  (word_xor s0 k0, word_xor s1 k1, word_xor s2 k2, word_xor s3 k3).

Definition sub_bytes (s : state) : state :=
  let '(s0, s1, s2, s3) := s in
  (sub_word s0, sub_word s1, sub_word s2, sub_word s3).

(** Row [r] of the state rotates left by [r] columns. *)
Definition shift_rows (s : state) : state :=
  let '((a0, a1, a2, a3), (b0, b1, b2, b3),
        (c0, c1, c2, c3), (d0, d1, d2, d3)) := s in
  ((a0, b1, c2, d3), (b0, c1, d2, a3), (c0, d1, a2, b3), (d0, a1, b2, c3)).

Definition mul2 (a : byte) : byte := xtime a.
Definition mul3 (a : byte) : byte := byte_xor (xtime a) a.

Definition mix_column (u : word) : word :=
  let '(a0, a1, a2, a3) := u in
  (byte_xor (mul2 a0) (byte_xor (mul3 a1) (byte_xor a2 a3)),
   byte_xor a0 (byte_xor (mul2 a1) (byte_xor (mul3 a2) a3)),
   byte_xor a0 (byte_xor a1 (byte_xor (mul2 a2) (mul3 a3))),
   byte_xor (mul3 a0) (byte_xor a1 (byte_xor a2 (mul2 a3)))).

Definition mix_columns (s : state) : state :=
  let '(s0, s1, s2, s3) := s in
  (mix_column s0, mix_column s1, mix_column s2, mix_column s3).

(** The inverse of [mix_column] (section 5.3.3): the multipliers 14, 11, 13
    and 9 in place of 2, 3, 1 and 1. *)
Definition mul9 (a : byte) : byte := byte_xor (xtime (xtime (xtime a))) a.
Definition mul11 (a : byte) : byte :=
  byte_xor (xtime (xtime (xtime a))) (byte_xor (xtime a) a).
Definition mul13 (a : byte) : byte :=
  byte_xor (xtime (xtime (xtime a))) (byte_xor (xtime (xtime a)) a).
Definition mul14 (a : byte) : byte :=
  byte_xor (xtime (xtime (xtime a))) (byte_xor (xtime (xtime a)) (xtime a)).

Definition inv_mix_column (u : word) : word :=
  let '(a0, a1, a2, a3) := u in
  (byte_xor (mul14 a0) (byte_xor (mul11 a1) (byte_xor (mul13 a2) (mul9 a3))),
   byte_xor (mul9 a0) (byte_xor (mul14 a1) (byte_xor (mul11 a2) (mul13 a3))),
   byte_xor (mul13 a0) (byte_xor (mul9 a1) (byte_xor (mul14 a2) (mul11 a3))),
   byte_xor (mul11 a0) (byte_xor (mul13 a1) (byte_xor (mul9 a2) (mul14 a3)))).

(** Key expansion (section 5.2).  [rev_w] holds the words produced so far,
    the latest first; [i] is the index of the next word and [rcon] the
    round constant of the next multiple of [Nk]. *)
Fixpoint expand (n i Nk : nat) (rcon : byte) (rev_w : list word) : list word :=
  match n with
  | O => rev_w
  | S n' =>
      let temp := hd zero_word rev_w in
      let temp' :=
        if Nat.eqb (i mod Nk) 0
        then word_xor (sub_word (rot_word temp)) (rcon, x00, x00, x00)
        else if Nat.ltb 6 Nk && Nat.eqb (i mod Nk) 4 then sub_word temp
        else temp in
      let rcon' := if Nat.eqb (i mod Nk) 0 then xtime rcon else rcon in
      expand n' (S i) Nk rcon'
        (word_xor (nth (Nk - 1) rev_w zero_word) temp' :: rev_w)
  end.

Fixpoint words_of_bytes (bs : list byte) : list word :=
  match bs with
  | a :: b :: c :: d :: rest => (a, b, c, d) :: words_of_bytes rest
  | _ => []
  end.

Fixpoint states_of_words (ws : list word) : list state :=
  match ws with
  | a :: b :: c :: d :: rest => (a, b, c, d) :: states_of_words rest
  | _ => []
  end.

(** The round keys of a 16, 24 or 32 octet key: [Nk + 7] of them. *)
Definition round_keys (key : list byte) : list state :=
  let Nk := length key / 4 in
  let w := words_of_bytes key in
  states_of_words (rev (expand (4 * (Nk + 7) - Nk) Nk Nk x01 (rev w))).

Fixpoint rounds (rks : list state) (s : state) : state :=
  match rks with
  | [] => s
  | rk :: rest =>
      match rest with
      | [] => add_round_key (shift_rows (sub_bytes s)) rk
      | _ :: _ =>
          rounds rest (add_round_key (mix_columns (shift_rows (sub_bytes s))) rk)
      end
  end.

Definition cipher (rks : list state) (s : state) : state :=
  match rks with
  | [] => s
  | rk0 :: rest => rounds rest (add_round_key s rk0)
  end.

Definition state_of_bytes (bs : list byte) : state :=
  match words_of_bytes (bs ++ repeat x00 16) with
  | a :: b :: c :: d :: _ => (a, b, c, d)
  | _ => zero_state
  end.

Definition bytes_of_word (u : word) : list byte :=
  let '(u0, u1, u2, u3) := u in [u0; u1; u2; u3].

Definition bytes_of_state (s : state) : list byte :=
  let '(s0, s1, s2, s3) := s in
  bytes_of_word s0 ++ bytes_of_word s1 ++ bytes_of_word s2 ++ bytes_of_word s3.

(** One block under the raw cipher ([AES.MODE_ECB] on a single block).  A
    block has 16 octets; the modes below never pass another length, and a
    shorter one would be read as filled up with zeros. *)
Definition encrypt_block (key block : list byte) : list byte :=
  bytes_of_state (cipher (round_keys key) (state_of_bytes block)).

Definition block_size : nat := 16.

End AES.

(** ** CMAC, CTR and EAX over a block cipher

    [Crypto.Hash.CMAC], [MODE_CTR] and [Crypto.Cipher._mode_eax.EaxMode] for
    a cipher with 16 octet blocks; [E key block] is the raw encryption of
    one block. *)

Module Modes.
Section WithCipher.

Variable E : list byte -> list byte -> list byte.

Definition zero_block : list byte := repeat x00 16.

Definition msb_set (bs : list byte) : bool :=
  match bs with
  | b :: _ =>
      let '(_, (_, (_, (_, (_, (_, (_, b7))))))) := Byte.to_bits b in b7
  | [] => false
  end.

(** [CMAC._shift_bytes]: the block shifted left by one bit, its low bits
    xored with [xor_lsb], cut to the length of the block. *)
Definition shift_bytes (bs : list byte) (xor_lsb : N) : list byte :=
  long_to_bytes (length bs) (N.lxor (bytes_to_long bs * 2) xor_lsb).

Definition const_Rb : N := 135.

Definition derive_subkey (l : list byte) : list byte :=
  if msb_set l then shift_bytes l const_Rb else shift_bytes l 0.

Definition subkey1 (key : list byte) : list byte :=
  derive_subkey (E key zero_block).

Definition subkey2 (key : list byte) : list byte :=
  derive_subkey (subkey1 key).

Definition pad_block (m : list byte) : list byte :=
  m ++ x80 :: repeat x00 (15 - length m).

(** The last block of a CMAC: a full block is masked with the first subkey,
    a partial (or empty) one is padded and masked with the second. *)
Definition cmac_final (key x m : list byte) : list byte :=
  if Nat.eqb (length m) 16
  then E key (strxor (strxor x m) (subkey1 key))
  else E key (strxor (strxor x (pad_block m)) (subkey2 key)).

(** CBC chaining over the blocks before the last one; [fuel] bounds the
    number of blocks and [length m] always suffices. *)
Fixpoint cmac_chain (fuel : nat) (key x m : list byte) : list byte :=
  match fuel with
  | O => cmac_final key x m
  | S fuel' =>
      if Nat.leb (length m) 16 then cmac_final key x m
      else cmac_chain fuel' key (E key (strxor x (take 16 m))) (drop 16 m)
  end.

Definition cmac (key m : list byte) : list byte :=
  cmac_chain (length m) key zero_block m.

(** The three tweaked MACs of EAX: the message is prefixed by a block that
    holds the tweak [t]. *)
Definition omac (t : byte) (key m : list byte) : list byte :=
  cmac key (repeat x00 15 ++ t :: m).

(** CTR with an empty nonce and a 128 bit big-endian counter that wraps. *)
Definition ctr_keystream (key : list byte) (counter : N) (nblocks : nat)
  : list byte :=
  flat_map (fun j => E key (long_to_bytes 16 (counter + N.of_nat j)))
           (seq 0 nblocks).

Definition ctr_crypt (key : list byte) (counter : N) (data : list byte)
  : list byte :=
  strxor data (ctr_keystream key counter ((length data + 15) / 16)).

(** The MAC tag: the xor of the MACs of nonce, header and ciphertext. *)
Definition eax_tag (key nonce header ciphertext : list byte) : list byte :=
  take 16
    (strxor (strxor (strxor zero_block (omac x00 key nonce))
                    (omac x01 key header))
            (omac x02 key ciphertext)).

Definition eax_encrypt (key nonce plaintext : list byte) : list byte :=
  ctr_crypt key (bytes_to_long (omac x00 key nonce)) plaintext.

Definition eax_decrypt (key nonce ciphertext : list byte) : list byte :=
  ctr_crypt key (bytes_to_long (omac x00 key nonce)) ciphertext.

End WithCipher.
End Modes.

(** ** The Python runtime: exceptions and results *)

Module Py.

(** An exception, by the name of its class and the text [str(e)] gives. *)
Record exn : Type := Exn { exn_class : string; exn_str : string }.

Definition Exception (msg : string) : exn := Exn "Exception" msg.
Definition ValueError (msg : string) : exn := Exn "ValueError" msg.
Definition AttributeError (msg : string) : exn := Exn "AttributeError" msg.
Definition UnboundLocalError (msg : string) : exn := Exn "UnboundLocalError" msg.
Definition FileNotFoundError (msg : string) : exn := Exn "FileNotFoundError" msg.
Definition FileExistsError (msg : string) : exn := Exn "FileExistsError" msg.
Definition IsADirectoryError (msg : string) : exn := Exn "IsADirectoryError" msg.

(** A computation either raises or returns. *)
Definition result (A : Type) : Type := (exn + A)%type.

(** [r] is an exception of the class named [kind]. *)
Definition raises_kind {A : Type} (r : result A) (kind : string) : Prop :=
  exists e, r = inl e /\ exn_class e = kind.

(** The characters [str.isspace] accepts, among code points below 256
    (the characters of a [string] stand for the code points 0 to 255). *)
Definition isspace (c : ascii) : bool :=
  let n := Ascii.nat_of_ascii c in
  (Nat.leb 9 n && Nat.leb n 13) || (Nat.leb 28 n && Nat.leb n 32)
  || Nat.eqb n 133 || Nat.eqb n 160.

Fixpoint lstrip (s : string) : string :=
  match s with
  | String c rest => if isspace c then lstrip rest else s
  | EmptyString => EmptyString
  end.

Fixpoint rstrip (s : string) : string :=
  match s with
  | String c rest =>
      match rstrip rest with
      | EmptyString => if isspace c then EmptyString else String c EmptyString
      | rest' => String c rest'
      end
  | EmptyString => EmptyString
  end.

(** [str.strip()] *)
Definition strip (s : string) : string := rstrip (lstrip s).

(** Truth value of a string: [not s] holds of the empty string only. *)
Definition truthy (s : string) : bool :=
  match s with EmptyString => false | _ => true end.

(** [os.path.basename] for POSIX paths: what follows the last slash. *)
Fixpoint basename_from (acc s : string) : string :=
  match s with
  | EmptyString => acc
  | String c rest =>
      if Ascii.eqb c "/" then basename_from EmptyString rest
      else basename_from (acc +:+ String c EmptyString) rest
  end.

Definition basename (p : string) : string := basename_from EmptyString p.

(** [base64.urlsafe_b64encode(...).decode('ascii')] *)
Definition b64_char (n : N) : ascii :=
  if (n <? 26)%N then Ascii.ascii_of_N (65 + n)
  else if (n <? 52)%N then Ascii.ascii_of_N (97 + (n - 26))
  else if (n <? 62)%N then Ascii.ascii_of_N (48 + (n - 52))
  else if (n =? 62)%N then "-"%char else "_"%char.

Fixpoint urlsafe_b64encode (bs : list byte) : string :=
  match bs with
  | a :: b :: c :: rest =>
      let n := (Byte.to_N a * 65536 + Byte.to_N b * 256 + Byte.to_N c)%N in
      String (b64_char (n / 262144)) (String (b64_char (n / 4096 mod 64))
        (String (b64_char (n / 64 mod 64)) (String (b64_char (n mod 64))
          (urlsafe_b64encode rest))))
  | [a; b] =>
      let n := (Byte.to_N a * 65536 + Byte.to_N b * 256)%N in
      String (b64_char (n / 262144)) (String (b64_char (n / 4096 mod 64))
        (String (b64_char (n / 64 mod 64)) "="))
  | [a] =>
      let n := (Byte.to_N a * 65536)%N in
      String (b64_char (n / 262144)) (String (b64_char (n / 4096 mod 64)) "==")
  | [] => EmptyString
  end.

End Py.

Import Py.

(** ** [Crypto.Cipher.AES] in [MODE_EAX] *)

Module AES_EAX.

(** The cipher object [AES.new(key, AES.MODE_EAX, nonce)] returns. *)
Record cipher : Type := Cipher { cipher_key : list byte; nonce : list byte }.

(** [AES.new(key, AES.MODE_EAX, nonce)]: the EAX mode refuses an empty
    nonce, the block cipher a key that is not 16, 24 or 32 octets long. *)
Definition new (key nonce : list byte) : result cipher :=
  if Nat.eqb (length nonce) 0
  then inl (ValueError "Nonce cannot be empty in EAX mode")
  else if Nat.eqb (length key) 16 || Nat.eqb (length key) 24
          || Nat.eqb (length key) 32
  then inr (Cipher key nonce)
  else inl (ValueError ("Incorrect AES key length (" +:+ pretty (length key)
                        +:+ " bytes)")).

(** [cipher.encrypt_and_digest(data)], no header having been fed. *)
Definition encrypt_and_digest (c : cipher) (data : list byte)
  : list byte * list byte :=
  let ciphertext :=
    Modes.eax_encrypt AES.encrypt_block (cipher_key c) (nonce c) data in
  (ciphertext,
   Modes.eax_tag AES.encrypt_block (cipher_key c) (nonce c) [] ciphertext).

(** [cipher.decrypt_and_verify(ciphertext, tag)]: the plaintext is computed
    first, and given out only if the received tag is the computed one. *)
Definition decrypt_and_verify (c : cipher) (ciphertext tag : list byte)
  : result (list byte) :=
  let plaintext :=
    Modes.eax_decrypt AES.encrypt_block (cipher_key c) (nonce c) ciphertext in
  if bytes_eqb
       (Modes.eax_tag AES.encrypt_block (cipher_key c) (nonce c) [] ciphertext)
       tag
  then inr plaintext
  else inl (ValueError "MAC check failed").

End AES_EAX.

(** ** The world outside the program *)

Module World.

(** A path names a directory or a regular file; reading a file gives its
    content or raises (permissions, I/O). *)
Inductive node : Type :=
  | Directory
  | RegularFile (content : result (list byte)).

Record datetime : Type := DateTime {
  year : nat; month : nat; day : nat;
  hour : nat; minute : nat; second : nat
}.

Definition pad2 (n : nat) : string :=
  if Nat.ltb n 10 then "0" +:+ pretty n else pretty n.

Definition pad4 (n : nat) : string :=
  if Nat.ltb n 10 then "000" +:+ pretty n
  else if Nat.ltb n 100 then "00" +:+ pretty n
  else if Nat.ltb n 1000 then "0" +:+ pretty n
  else pretty n.

(** [strftime("%Y%m%d_%H%M%S")] *)
Definition strftime_compact (t : datetime) : string :=
  pad4 (year t) +:+ pad2 (month t) +:+ pad2 (day t) +:+ "_"
  +:+ pad2 (hour t) +:+ pad2 (minute t) +:+ pad2 (second t).

(** [strftime("%Y-%m-%d %H:%M:%S")] *)
Definition strftime_iso (t : datetime) : string :=
  pad4 (year t) +:+ "-" +:+ pad2 (month t) +:+ "-" +:+ pad2 (day t) +:+ " "
  +:+ pad2 (hour t) +:+ ":" +:+ pad2 (minute t) +:+ ":" +:+ pad2 (second t).

(** What the user is shown. *)
Inductive ui_event : Type :=
  | MsgWarning (title text : string)
  | MsgCritical (title text : string)
  | MsgInformation (title text : string)
  | ProgressShown
  | ProgressClosed
  | DialogAccepted.

(** A call of [cloudinary.uploader.upload]. *)
Record upload_call : Type := UploadCall {
  up_path : string; up_data : list byte; up_public_id : string
}.

(** An entry of [access_records] or [share_chain]: a dict of strings. *)
Abbreviation event := (gmap string string).

(** A document of the collection [secure_files]; [None] is an absent key. *)
Record doc : Type := Doc {
  file_name : option string;
  secure_filename : option string;
  original_path : option string;
  owner_id : option string;
  uploaded_at : option string;
  encryption_key : option string;
  cloudinary_url : option string;
  access_records : option (list event);
  share_chain : option (list event)
}.

(** A row of the table of access records (an entry of
    [all_access_records]). *)
Record row : Type := Row {
  row_file_name : string;
  row_user_name : string;
  row_location : string;
  row_device : string;
  row_time : string;
  row_record_id : string;
  row_action : string
}.

(** A decoded JSON body: an object, each member kept as the text [str]
    gives it, or any other JSON value. *)
Inductive json : Type :=
  | JObject (members : gmap string string)
  | JOther.

(** The state the program acts on:
    - [fs], the file system;
    - [urandom], the octets [os.urandom] will give, and [entropy_used], how
      many of them were drawn;
    - [clock], the readings [datetime.now()] will give, and [clock_reads],
      how many were taken;
    - [cloudinary_sdk], the global configuration of the Cloudinary SDK;
    - [uploads], the calls made to the uploader, and [http_gets], the URLs
      requested;
    - [ledger], the documents of the collection [secure_files] with their
      ids, in the order the database returns them;
    - [ui], the boxes and dialog events shown so far;
    - [files_table], the rows of the table of access records. *)
Record world : Type := MkWorld {
  fs : gmap string node;
  urandom : nat -> byte;
  entropy_used : nat;
  clock : nat -> datetime;
  clock_reads : nat;
  cloudinary_sdk : option (list (string * string));
  uploads : list upload_call;
  http_gets : list string;
  ledger : list (string * doc);
  ui : list ui_event;
  files_table : list row
}.

(** What the outside answers during one operation.  [cloudinary_config]
    and [db] are the constants the program imports from its modules
    [cloudinary_config] and [firebase_config], which are not among the
    sources: an empty configuration and [db = false] stand for the falsy
    values the program tests for.  The other fields are what a call
    raises or returns: [cloudinary.config], [NamedTemporaryFile] (the name
    of the new file), the write to it, [cloudinary.uploader.upload] (its
    result dict), [os.unlink], [requests.get] and then [response.json()],
    the [add] of a document (its new id) and the query of the collection. *)
Record env : Type := MkEnv {
  cloudinary_config : list (string * string);
  cloudinary_configure : option exn;
  tmp_file : result string;
  tmp_write : option exn;
  upload_response : result (gmap string string);
  unlink_error : option exn;
  geo_response : result (result json);
  db : bool;
  db_add : result string;
  db_get : option exn
}.

(** An environment with another answer of the geolocation endpoint, of the
    uploader, or of [os.unlink]. *)
Definition set_geo_response (g : result (result json)) (e : env) : env :=
  MkEnv (cloudinary_config e) (cloudinary_configure e) (tmp_file e)
        (tmp_write e) (upload_response e) (unlink_error e) g (db e)
        (db_add e) (db_get e).

Definition set_upload_response (u : result (gmap string string)) (e : env)
  : env :=
  MkEnv (cloudinary_config e) (cloudinary_configure e) (tmp_file e)
        (tmp_write e) u (unlink_error e) (geo_response e) (db e)
        (db_add e) (db_get e).

Definition set_unlink_error (u : option exn) (e : env) : env :=
  MkEnv (cloudinary_config e) (cloudinary_configure e) (tmp_file e)
        (tmp_write e) (upload_response e) u (geo_response e) (db e)
        (db_add e) (db_get e).

Definition set_fs (f : gmap string node -> gmap string node) (w : world) : world :=
  MkWorld (f (fs w)) (urandom w) (entropy_used w) (clock w) (clock_reads w)
          (cloudinary_sdk w) (uploads w) (http_gets w) (ledger w) (ui w)
          (files_table w).

Definition set_entropy_used (n : nat) (w : world) : world :=
  MkWorld (fs w) (urandom w) n (clock w) (clock_reads w)
          (cloudinary_sdk w) (uploads w) (http_gets w) (ledger w) (ui w)
          (files_table w).

Definition set_clock_reads (n : nat) (w : world) : world :=
  MkWorld (fs w) (urandom w) (entropy_used w) (clock w) n
          (cloudinary_sdk w) (uploads w) (http_gets w) (ledger w) (ui w)
          (files_table w).

Definition set_cloudinary_sdk (c : option (list (string * string))) (w : world)
  : world :=
  MkWorld (fs w) (urandom w) (entropy_used w) (clock w) (clock_reads w)
          c (uploads w) (http_gets w) (ledger w) (ui w) (files_table w).

Definition set_uploads (u : list upload_call) (w : world) : world :=
  MkWorld (fs w) (urandom w) (entropy_used w) (clock w) (clock_reads w)
          (cloudinary_sdk w) u (http_gets w) (ledger w) (ui w) (files_table w).

Definition set_http_gets (h : list string) (w : world) : world :=
  MkWorld (fs w) (urandom w) (entropy_used w) (clock w) (clock_reads w)
          (cloudinary_sdk w) (uploads w) h (ledger w) (ui w) (files_table w).

Definition set_ledger (l : list (string * doc)) (w : world) : world :=
  MkWorld (fs w) (urandom w) (entropy_used w) (clock w) (clock_reads w)
          (cloudinary_sdk w) (uploads w) (http_gets w) l (ui w) (files_table w).

Definition set_ui (u : list ui_event) (w : world) : world :=
  MkWorld (fs w) (urandom w) (entropy_used w) (clock w) (clock_reads w)
          (cloudinary_sdk w) (uploads w) (http_gets w) (ledger w) u
          (files_table w).

Definition set_files_table (t : list row) (w : world) : world :=
  MkWorld (fs w) (urandom w) (entropy_used w) (clock w) (clock_reads w)
          (cloudinary_sdk w) (uploads w) (http_gets w) (ledger w) (ui w) t.

(** Computations over the world that may raise. *)
Definition M (A : Type) : Type := world -> result A * world.

Definition ret {A} (a : A) : M A := fun w => (inr a, w).

Definition raise {A} (e : exn) : M A := fun w => (inl e, w).

Definition bind {A B} (m : M A) (k : A -> M B) : M B :=
  fun w => match m w with
           | (inl e, w') => (inl e, w')
           | (inr a, w') => k a w'
           end.

(** [try: m  except Exception as e: h e] *)
Definition try_except {A} (m : M A) (h : exn -> M A) : M A :=
  fun w => match m w with
           | (inl e, w') => h e w'
           | (inr a, w') => (inr a, w')
           end.

(** Runs [m] and hands over how it ended instead of raising. *)
Definition attempt {A} (m : M A) : M (result A) :=
  fun w => match m w with (r, w') => (inr r, w') end.

Definition lift {A} (r : result A) : M A := fun w => (r, w).

Definition modify (f : world -> world) : M unit := fun w => (inr tt, f w).

Definition inspect {A} (f : world -> A) : M A := fun w => (inr (f w), w).

Declare Scope py_scope.
Delimit Scope py_scope with py.
Notation "x <- m ;; k" := (bind m (fun x => k))
  (at level 100, m at level 99, right associativity) : py_scope.
Notation "m ;; k" := (bind m (fun _ => k))
  (at level 100, right associativity) : py_scope.
Local Open Scope py_scope.

(** [os.path.exists], [os.path.isfile] *)
Definition os_path_exists (p : string) : M bool :=
  inspect (fun w => match fs w !! p with
                    | Some _ => true
                    | None => false
                    end).

Definition os_path_isfile (p : string) : M bool :=
  inspect (fun w => match fs w !! p with
                    | Some (RegularFile _) => true
                    | _ => false
                    end).

(** [with open(p, 'rb') as f: f.read(...)] *)
Definition open_read (p : string) : M (list byte) :=
  fun w => match fs w !! p with
           | Some (RegularFile content) => (content, w)
           | Some Directory =>
               (inl (IsADirectoryError ("[Errno 21] Is a directory: " +:+ p)), w)
           | None =>
               (inl (FileNotFoundError
                       ("[Errno 2] No such file or directory: " +:+ p)), w)
           end.

(** [os.urandom(n)], which is also [Crypto.Random.get_random_bytes(n)]. *)
Definition os_urandom (n : nat) : M (list byte) :=
  fun w => (inr (map (urandom w) (seq (entropy_used w) n)),
            set_entropy_used (entropy_used w + n) w).

(** [datetime.datetime.now()] *)
Definition datetime_now : M datetime :=
  fun w => (inr (clock w (clock_reads w)),
            set_clock_reads (S (clock_reads w)) w).

(** [tempfile.NamedTemporaryFile(delete=False, suffix='.bin')]: a new,
    empty file under a name nothing else has. *)
Definition named_temporary_file (e : env) : M string :=
  fun w => match tmp_file e with
           | inl err => (inl err, w)
           | inr name =>
               match fs w !! name with
               | Some _ =>
                   (inl (FileExistsError ("[Errno 17] File exists: " +:+ name)), w)
               | None =>
                   (inr name, set_fs (insert name (RegularFile (inr []))) w)
               end
           end.

(** [tmp_file.write(data)] *)
Definition file_write (e : env) (name : string) (data : list byte) : M unit :=
  match tmp_write e with
  | Some err => raise err
  | None => modify (set_fs (insert name (RegularFile (inr data))))
  end.

(** [os.unlink(p)] *)
Definition os_unlink (e : env) (p : string) : M unit :=
  fun w => match unlink_error e with
           | Some err => (inl err, w)
           | None =>
               match fs w !! p with
               | Some _ => (inr tt, set_fs (delete p) w)
               | None =>
                   (inl (FileNotFoundError
                           ("[Errno 2] No such file or directory: " +:+ p)), w)
               end
           end.

(** [cloudinary.config], called with the members of [cloudinary_config]. *)
Definition cloudinary_config_call (e : env) : M unit :=
  match cloudinary_configure e with
  | Some err => raise err
  | None => modify (set_cloudinary_sdk (Some (cloudinary_config e)))
  end.

(** [cloudinary.uploader.upload(path, public_id=...)]: the call is recorded
    with what the file holds, then answered by the service. *)
Definition cloudinary_upload (e : env) (path public_id : string)
  : M (gmap string string) :=
  data <- open_read path ;;
  modify (fun w => set_uploads (uploads w ++ [UploadCall path data public_id]) w) ;;
  lift (upload_response e).

(** [requests.get(url)] followed by [response.json()] *)
Definition requests_get_json (e : env) (url : string) : M json :=
  modify (fun w => set_http_gets (http_gets w ++ [url]) w) ;;
  match geo_response e with
  | inl err => raise err
  | inr body => lift body
  end.

(** [location.get(key, default)] *)
Definition json_get (j : json) (key default_ : string) : M string :=
  match j with
  | JObject members => ret (default default_ (members !! key))
  | JOther => raise (AttributeError "object has no attribute 'get'")
  end.

(** [db.collection('secure_files').add(data)], giving the new id. *)
Definition db_collection_add (e : env) (data : doc) : M string :=
  match db_add e with
  | inl err => raise err
  | inr id => modify (fun w => set_ledger (ledger w ++ [(id, data)]) w) ;; ret id
  end.

(** [db.collection('secure_files').where(owner_id == user_id).get()] *)
Definition query_by_owner (user_id : string) (l : list (string * doc))
  : list (string * doc) :=
  filter (fun d => owner_id (snd d) = Some user_id) l.

Definition db_collection_get (e : env) (user_id : string)
  : M (list (string * doc)) :=
  match db_get e with
  | Some err => raise err
  | None => inspect (fun w => query_by_owner user_id (ledger w))
  end.

Definition show (ev : ui_event) : M unit :=
  modify (fun w => set_ui (ui w ++ [ev]) w).

End World.

Import World.
Local Open Scope py_scope.

(** ** [file_tracker.py] *)

Module FileTracker.

Definition newline : string := String (Ascii.ascii_of_nat 10) EmptyString.

(** The dict [encrypt_pdf] returns. *)
Record encryption_result : Type := EncryptionResult {
  er_nonce : list byte;
  er_ciphertext : list byte;
  er_tag : list byte;
  er_key : list byte
}.

(** [AES.new(key, AES.MODE_EAX)]: without a nonce the mode draws 16 random
    octets for it. *)
Definition aes_new_eax (key : list byte) : M AES_EAX.cipher :=
  nonce <- os_urandom 16 ;;
  lift (AES_EAX.new key nonce).

(** The octets [os.urandom] gives next: the key [encrypt_pdf] draws, and
    the nonce the cipher draws after it. *)
Definition fresh_key (w : world) : list byte :=
  map (urandom w) (seq (entropy_used w) 16).

Definition fresh_nonce (w : world) : list byte :=
  map (urandom w) (seq (entropy_used w + 16) 16).

(** [PDFEncryption.encrypt_pdf] *)
Definition encrypt_pdf (pdf_path : string) : M encryption_result :=
  try_except
    (pdf_data <- open_read pdf_path ;;
     key <- os_urandom 16 ;;
     cipher <- aes_new_eax key ;;
     let (ciphertext, tag) := AES_EAX.encrypt_and_digest cipher pdf_data in
     ret (EncryptionResult (AES_EAX.nonce cipher) ciphertext tag key))
    (fun e => raise (Exception ("Encryption failed: " +:+ exn_str e))).

(** [PDFEncryption.decrypt_pdf] *)
Definition decrypt_pdf (encrypted_data key : list byte) : result (list byte) :=
  let nonce := take 16 encrypted_data in
  let tag := take 16 (drop 16 encrypted_data) in
  let ciphertext := drop 32 encrypted_data in
  let decrypted_data :=
    match AES_EAX.new key nonce with
    | inl e => inl e
    | inr cipher => AES_EAX.decrypt_and_verify cipher ciphertext tag
    end in
  match decrypted_data with
  | inl e => inl (Exception ("Decryption failed: " +:+ exn_str e))
  | inr data => inr data
  end.

(** The buffer stored for a file: [nonce + tag + ciphertext]. *)
Definition serialize (r : encryption_result) : list byte :=
  er_nonce r ++ er_tag r ++ er_ciphertext r.

(** A [SecureShareDialog]: its attributes, and what its two input widgets
    hold when [Share] is clicked. *)
Record SecureShareDialog : Type := Dialog {
  self_file_name : string;
  self_file_path : string;
  self_user_id : string;
  recipient_input : string;
  access_combo : string
}.

(** What [share_file] returns: [None] or [False]. *)
Inductive retval : Type := RetNone | RetFalse.

(** The upload of the encrypted buffer through a temporary file: the [try]
    with its [except] and [finally].  [staged] holds [tmp_path] once the
    [with] block has bound it. *)
Definition upload_stage (e : env) (encrypted_data : list byte)
    (secure_filename : string) : M (gmap string string) :=
  staged <- attempt (tmp_name <- named_temporary_file e ;;
                     file_write e tmp_name encrypted_data ;;
                     ret tmp_name) ;;
  uploaded <- match staged with
              | inl err => ret (inl err)
              | inr tmp_path =>
                  attempt (cloudinary_upload e tmp_path
                             ("secure_pdfs/" +:+ secure_filename))
              end ;;
  let outcome :=
    match uploaded with
    | inl upload_err =>
        inl (Exception ("Failed to upload file: " +:+ exn_str upload_err))
    | inr result => inr result
    end in
  attempt (match staged with
           | inl _ =>
               raise (UnboundLocalError
                        "cannot access local variable 'tmp_path' where it is not associated with a value")
           | inr tmp_path => os_unlink e tmp_path
           end) ;;
  lift outcome.

(** The geolocation of the caller, ["Unknown"] when anything goes wrong. *)
Definition resolve_geolocation (e : env) : M string :=
  try_except
    (location <- requests_get_json e "https://ipapi.co/json/" ;;
     city <- json_get location "city" "Unknown" ;;
     country <- json_get location "country_name" "Unknown" ;;
     ret (city +:+ ", " +:+ country))
    (fun geo_err => ret "Unknown").

(** What [resolve_geolocation] comes to, as a function of the answer of the
    endpoint. *)
Definition geolocation_of (e : env) : string :=
  match geo_response e with
  | inr (inr (JObject members)) =>
      default "Unknown" (members !! "city") +:+ ", "
      +:+ default "Unknown" (members !! "country_name")
  | _ => "Unknown"
  end.

(** The lookup fails: the request raises, the body is not JSON, or the JSON
    value is no object. *)
Definition geolocation_fails (e : env) : Prop :=
  match geo_response e with
  | inr (inr (JObject _)) => False
  | _ => True
  end.

Definition upload_event (user_id geolocation time : string) : event :=
  list_to_map [("user_id", user_id); ("action", "upload");
               ("location", geolocation); ("time", time)].

Definition share_event (user_id recipient access_level time geolocation : string)
  : event :=
  list_to_map [("user_id", user_id); ("shared_with", recipient);
               ("access_level", access_level); ("time", time);
               ("location", geolocation)].

(** The dict [share_data]: one upload event and one share event. *)
Definition share_record (self : SecureShareDialog)
    (recipient access_level secure_filename : string) (key : list byte)
    (secure_url geolocation : string)
    (uploaded_at access_time share_time : datetime) : doc :=
  Doc (Some (self_file_name self))
      (Some secure_filename)
      (Some (self_file_path self))
      (Some (self_user_id self))
      (Some (strftime_iso uploaded_at))
      (Some (hex key))
      (Some secure_url)
      (Some [upload_event (self_user_id self) geolocation
               (strftime_iso access_time)])
      (Some [share_event (self_user_id self) recipient access_level
               (strftime_iso share_time) geolocation]).

(** A record of the shape [share_file] writes. *)
Definition made_by_share_file (d : doc) : Prop :=
  exists self recipient access_level secure_filename key secure_url
         geolocation uploaded_at access_time share_time,
    d = share_record self recipient access_level secure_filename key
          secure_url geolocation uploaded_at access_time share_time.

(** The body of the outer [try] of [share_file]. *)
Definition share_file_try (self : SecureShareDialog) (e : env)
    (recipient access_level : string) : M unit :=
  exists_ <- os_path_exists (self_file_path self) ;;
  if negb exists_
  then raise (Exception ("File not found at path: " +:+ self_file_path self))
  else
  isfile <- os_path_isfile (self_file_path self) ;;
  if negb isfile
  then raise (Exception ("Invalid file path: " +:+ self_file_path self))
  else
  encryption_result <-
    try_except (encrypt_pdf (self_file_path self))
      (fun encrypt_err =>
         raise (Exception ("Failed to encrypt PDF: " +:+ exn_str encrypt_err))) ;;
  let encrypted_data := serialize encryption_result in
  match cloudinary_config e with
  | [] => raise (Exception "Cloudinary configuration not found or invalid")
  | _ :: _ =>
  try_except (cloudinary_config_call e)
    (fun cloud_err =>
       raise (Exception ("Failed to configure Cloudinary: " +:+ exn_str cloud_err))) ;;
  now <- datetime_now ;;
  let timestamp := strftime_compact now in
  random <- os_urandom 8 ;;
  let unique_id := urlsafe_b64encode random in
  let secure_filename :=
    timestamp +:+ "_" +:+ unique_id +:+ "_" +:+ self_file_name self in
  result <- upload_stage e encrypted_data secure_filename ;;
  match result !! "secure_url" with
  | None => raise (Exception "Failed to get secure URL from Cloudinary")
  | Some secure_url =>
  geolocation <- resolve_geolocation e ;;
  uploaded_at <- datetime_now ;;
  access_time <- datetime_now ;;
  share_time <- datetime_now ;;
  let share_data :=
    share_record self recipient access_level secure_filename
      (er_key encryption_result) secure_url geolocation
      uploaded_at access_time share_time in
  if negb (db e)
  then raise (Exception "Database connection not available")
  else
  try_except (db_collection_add e share_data ;; ret tt)
    (fun db_err =>
       raise (Exception ("Failed to save to database: " +:+ exn_str db_err))) ;;
  show ProgressClosed ;;
  show (MsgInformation "Success"
          ("File '" +:+ self_file_name self
           +:+ "' has been securely shared with " +:+ recipient)) ;;
  show DialogAccepted
  end
  end.

(** The text of the error box of [share_file], around [str(e)]. *)
Definition share_failure_text (error_msg : string) : string :=
  "Failed to share file:" +:+ newline +:+ newline
  +:+ error_msg +:+ newline +:+ newline +:+ "Please try again.".

(** [SecureShareDialog.share_file] *)
Definition share_file (self : SecureShareDialog) (e : env) : M retval :=
  let recipient := strip (recipient_input self) in
  let access_level := access_combo self in
  if negb (truthy recipient)
  then show (MsgWarning "Error" "Please enter a recipient email") ;;
       ret RetNone
  else
  show ProgressShown ;;
  try_except (share_file_try self e recipient access_level ;; ret RetNone)
    (fun err =>
       show ProgressClosed ;;
       show (MsgCritical "Error" (share_failure_text (exn_str err))) ;;
       ret RetFalse).

(** The rows one tracked file contributes: its share chain, then its access
    records. *)
Definition flatten_doc (file_doc : string * doc) : list row :=
  let file_data := snd file_doc in
  let name := default "Unknown" (file_name file_data) in
  map (fun share : event =>
         Row name
             ("Shared with: " +:+ default "Unknown" (share !! "shared_with"))
             (default "Unknown" (share !! "location"))
             (default "Unknown" (share !! "access_level"))
             (default "Unknown" (share !! "time"))
             (fst file_doc)
             "share")
      (default [] (share_chain file_data))
  ++
  map (fun record : event =>
         Row name
             (default "Unknown" (record !! "user_name"))
             (default "Unknown" (record !! "location"))
             (default "Unknown" (record !! "device"))
             (default "Unknown" (record !! "time"))
             (fst file_doc)
             (default "view" (record !! "action")))
      (default [] (access_records file_data)).

(** [a < b] on [str]: by code points, the first difference deciding. *)
Definition str_lt (a b : string) : bool :=
  match String.compare a b with
  | Lt => true
  | _ => false
  end.

Section Sort.
Context {A : Type} (key : A -> string).

(** [x] goes in front of the first element whose key is not below its own:
    behind every smaller key, before every equal one. *)
Fixpoint insert_sorted (x : A) (l : list A) : list A :=
  match l with
  | [] => [x]
  | y :: l' =>
      if str_lt (key y) (key x) then y :: insert_sorted x l'
      else x :: y :: l'
  end.

(** [a] may stand before [b] in ascending order: the key of [b] is not
    below the key of [a]. *)
Definition key_le (a b : A) : Prop := str_lt (key b) (key a) = false.

(** A stable ascending sort that compares keys with [<] only. *)
Fixpoint stable_sort (l : list A) : list A :=
  match l with
  | [] => []
  | x :: l' => insert_sorted x (stable_sort l')
  end.

(** [list.sort(key=key, reverse=True)]: the list is reversed, sorted
    ascending and stably, and reversed again. *)
Definition sort_reverse (l : list A) : list A :=
  reverse (stable_sort (reverse l)).

End Sort.

(** [FileTrackerWindow.load_file_access_records] *)
Definition load_file_access_records (user_id : string) (e : env) : M unit :=
  try_except
    (modify (set_files_table []) ;;
     if negb (db e)
     then raise (Exception "Database connection not available")
     else
     try_except
       (tracked_files <- db_collection_get e user_id ;;
        let all_access_records := flat_map flatten_doc tracked_files in
        modify (set_files_table (sort_reverse row_time all_access_records)))
       (fun db_err =>
          raise (Exception ("Failed to load records from database: "
                            +:+ exn_str db_err))))
    (fun err =>
       show (MsgCritical "Error"
               ("Failed to load file records: " +:+ exn_str err))).

(** A click on [Share]: what the two widgets hold, and what the outside
    answers during that call of [share_file]. *)
Record click : Type := Click {
  click_recipient : string;
  click_access : string;
  click_env : env
}.

Definition accepted (w : world) : bool :=
  match last (ui w) with
  | Some DialogAccepted => true
  | _ => false
  end.

(** [dialog.exec()]: the dialog stays open, one [share_file] per click,
    until a share is accepted or the user gives up. *)
Fixpoint dialog_exec (name path user_id : string) (clicks : list click)
  : M unit :=
  match clicks with
  | [] => ret tt
  | c :: rest =>
      share_file (Dialog name path user_id (click_recipient c) (click_access c))
                 (click_env c) ;;
      done <- inspect accepted ;;
      if done : bool then ret tt else dialog_exec name path user_id rest
  end.

(** [FileTrackerWindow.upload_file]; [selected] is the path the file dialog
    gave, empty when it was cancelled. *)
Definition upload_file (user_id selected : string) (clicks : list click)
    (e : env) : M unit :=
  try_except
    (if truthy selected
     then
       exists_ <- os_path_exists selected ;;
       if negb exists_
       then raise (Exception "Selected file does not exist")
       else
       isfile <- os_path_isfile selected ;;
       if negb isfile
       then raise (Exception "Selected path is not a file")
       else
       try_except (data <- open_read selected ;; ret (take 1024 data))
         (fun err =>
            raise (Exception ("Cannot read selected file: " +:+ exn_str err))) ;;
       let name := basename selected in
       dialog_exec name selected user_id clicks ;;
       load_file_access_records user_id e
     else ret tt)
    (fun err =>
       show (MsgCritical "Error" ("Failed to upload file: " +:+ exn_str err))).

(** The error [share_file] meets on a path it cannot use: a missing path
    and a directory stop at its two checks, an unreadable file at the
    [open] of [encrypt_pdf].  [None] for a readable file. *)
Definition share_file_refusal (w : world) (path : string) : option string :=
  match fs w !! path with
  | None => Some ("File not found at path: " +:+ path)
  | Some Directory => Some ("Invalid file path: " +:+ path)
  | Some (RegularFile (inl err)) =>
      Some ("Failed to encrypt PDF: " +:+ ("Encryption failed: " +:+ exn_str err))
  | Some (RegularFile (inr _)) => None
  end.

(** The error [upload_file] meets on such a path, the third from its read
    of the first 1024 octets. *)
Definition upload_file_refusal (w : world) (path : string) : option string :=
  match fs w !! path with
  | None => Some "Selected file does not exist"
  | Some Directory => Some "Selected path is not a file"
  | Some (RegularFile (inl err)) =>
      Some ("Cannot read selected file: " +:+ exn_str err)
  | Some (RegularFile (inr _)) => None
  end.

End FileTracker.

Import FileTracker.

(** ** A concrete scenario

    Owner [alice] shares the ten octets of [report.pdf] with [bob]. *)

Module Sample.

Definition report_path : string := "/home/alice/report.pdf".

Definition report_bytes : list byte := fromhex "255044462d312e340a25".

Definition tmp_path : string := "/tmp/tmpq3x9v2.bin".

Definition world0 : world :=
  MkWorld
    (<[report_path := RegularFile (inr report_bytes)]>
       (<["/home/alice" := Directory]>
          (<["/home/alice/locked.pdf" :=
               RegularFile (inl (Exn "PermissionError"
                                   "[Errno 13] Permission denied"))]> ∅)))
    (fun n => byte_of_N (N.of_nat (n * 37 + 11)))
    0
    (fun n => DateTime 2025 3 14 9 26 (n mod 60))
    0
    None [] [] [] [] [].

Definition env_ok : env :=
  MkEnv
    [("cloud_name", "demo")]
    None
    (inr tmp_path)
    None
    (inr (<["secure_url" := "https://res.cloudinary.com/demo/raw/upload/x"]> ∅))
    None
    (inr (inr (JObject (<["city" := "Hyderabad"]>
                          (<["country_name" := "India"]> ∅)))))
    true
    (inr "doc1")
    None.

Definition dialog : SecureShareDialog :=
  Dialog "report.pdf" report_path "alice" " bob " "View Only".

(** The uploader raises. *)
Definition env_upload_fails : env :=
  set_upload_response (inl (Exn "Error" "Connection reset by peer")) env_ok.

(** The temporary file cannot be removed. *)
Definition env_unlink_fails : env :=
  set_unlink_error
    (Some (Exn "PermissionError"
               "[WinError 32] The process cannot access the file")) env_ok.

(** The disk is full when the temporary file is written. *)
Definition env_write_fails : env :=
  MkEnv (cloudinary_config env_ok) (cloudinary_configure env_ok)
        (tmp_file env_ok)
        (Some (Exn "OSError" "[Errno 28] No space left on device"))
        (upload_response env_ok) (unlink_error env_ok) (geo_response env_ok)
        (db env_ok) (db_add env_ok) (db_get env_ok).

(** The geolocation endpoint cannot be reached. *)
Definition env_geo_fails : env :=
  set_geo_response
    (inl (Exn "ConnectionError" "Max retries exceeded with url: /json/")) env_ok.

(** A file that exists and cannot be read, a path that is a directory, and
    a path that names nothing. *)
Definition dialog_locked : SecureShareDialog :=
  Dialog "locked.pdf" "/home/alice/locked.pdf" "alice" "bob" "View Only".

Definition dialog_directory : SecureShareDialog :=
  Dialog "alice" "/home/alice" "alice" "bob" "View Only".

Definition dialog_missing : SecureShareDialog :=
  Dialog "gone.pdf" "/home/alice/gone.pdf" "alice" "bob" "View Only".

Definition dialog_no_recipient : SecureShareDialog :=
  Dialog "report.pdf" report_path "alice" "   " "View Only".

(** The world after the share of [report.pdf] was accepted. *)
Definition world1 : world := snd (share_file dialog env_ok world0).

(** What [encrypt_pdf] returns for [report.pdf] in [world0]. *)
Definition encrypted : encryption_result :=
  Eval vm_compute in
    match fst (encrypt_pdf report_path world0) with
    | inr r => r
    | inl _ => EncryptionResult [] [] [] []
    end.

End Sample.

(** ** The viewer, the preview and the deletion of a row *)

Module Viewer.

(** A [SecurePDFViewer]: the page it is on, the number of pages of the
    document, whether its two buttons are enabled, and the pages it has
    put on its label so far, in order. *)
Record SecurePDFViewer : Type := MkViewer {
  current_page : Z;
  total_pages : Z;
  prev_btn : bool;
  next_btn : bool;
  page_label : list Z
}.

(** [SecurePDFViewer.load_current_page]: within the document the page is
    rendered and the buttons follow it; otherwise nothing is done. *)
Definition load_current_page (v : SecurePDFViewer) : SecurePDFViewer :=
  if (0 <=? current_page v)%Z && (current_page v <? total_pages v)%Z
  then MkViewer (current_page v) (total_pages v)
                (0 <? current_page v)%Z
                (current_page v <? total_pages v - 1)%Z
                (page_label v ++ [current_page v])
  else v.

(** [SecurePDFViewer.previous_page] *)
Definition previous_page (v : SecurePDFViewer) : SecurePDFViewer :=
  if (0 <? current_page v)%Z
  then load_current_page
         (MkViewer (current_page v - 1) (total_pages v) (prev_btn v)
                   (next_btn v) (page_label v))
  else v.

(** [SecurePDFViewer.next_page] *)
Definition next_page (v : SecurePDFViewer) : SecurePDFViewer :=
  if (current_page v <? total_pages v - 1)%Z
  then load_current_page
         (MkViewer (current_page v + 1) (total_pages v) (prev_btn v)
                   (next_btn v) (page_label v))
  else v.

(** [SecurePDFViewer.resizeEvent] *)
Definition resizeEvent (v : SecurePDFViewer) : SecurePDFViewer :=
  load_current_page v.

(** [__init__] and [setup_ui] for a document of [pages] pages: page 0, two
    buttons as Qt makes them (enabled), then the first page is loaded. *)
Definition setup_ui (pages : nat) : SecurePDFViewer :=
  load_current_page (MkViewer 0 (Z.of_nat pages) true true []).

(** What the user does while the viewer is open. *)
Inductive viewer_event : Type := ClickPrevious | ClickNext | Resize.

Definition handle (v : SecurePDFViewer) (ev : viewer_event) : SecurePDFViewer :=
  match ev with
  | ClickPrevious => previous_page v
  | ClickNext => next_page v
  | Resize => resizeEvent v
  end.

(** [viewer.exec()]: the events are handled in turn. *)
Definition exec (events : list viewer_event) (v : SecurePDFViewer)
  : SecurePDFViewer :=
  fold_left handle events v.

(** The state every handler keeps once a document with pages is open: the
    page is within the document, every page rendered was one of the
    document, the last one rendered is the current one, and the buttons
    tell whether there is a page before it and a page after it. *)
Definition in_document (v : SecurePDFViewer) : Prop :=
  (0 <= current_page v < total_pages v)%Z /\
  Forall (fun page => (0 <= page < total_pages v)%Z) (page_label v) /\
  last (page_label v) = Some (current_page v) /\
  prev_btn v = (0 <? current_page v)%Z /\
  next_btn v = (current_page v <? total_pages v - 1)%Z.

End Viewer.

Module Window.


(** The text of the question [delete_selected_record] asks. *)
Definition confirm_delete_text (name : string) : string :=
  "Are you sure you want to delete the record for '" +:+ name +:+ "'?".

(** [FileTrackerWindow.delete_selected_record]; [current_row] is what
    [currentRow()] gives (-1 without a selection), and [ask] the answer of
    the user to the question box, [true] for [Yes]. *)
Definition delete_selected_record (current_row : Z) (ask : string -> bool)
  : M unit :=
  try_except
    (if (0 <=? current_row)%Z
     then
       table <- inspect files_table ;;
       match table !! Z.to_nat current_row with
       | None =>
           raise (AttributeError "'NoneType' object has no attribute 'text'")
       | Some item =>
           let name := row_file_name item in
           if ask (confirm_delete_text name)
           then
             modify (set_files_table (delete (Z.to_nat current_row) table)) ;;
             show (MsgInformation "Success" "Record deleted successfully")
           else ret tt
       end
     else show (MsgWarning "Warning" "Please select a record to delete"))
    (fun e =>
       show (MsgCritical "Error" ("Failed to delete record: " +:+ exn_str e))).

(** What [share_file] names the uploaded object in world [w]: the time, a
    token of eight random octets drawn after key and nonce, and the name
    of the file. *)
Definition next_secure_filename (self : SecureShareDialog) (w : world)
  : string :=
  strftime_compact (clock w (clock_reads w)) +:+ "_"
  +:+ urlsafe_b64encode (map (urandom w) (seq (entropy_used w + 16 + 16) 8))
  +:+ "_" +:+ self_file_name self.

(** The buffer [share_file] uploads for a file that holds [P]. *)
Definition encrypted_buffer (w : world) (P : list byte) : list byte :=
  fresh_nonce w
  ++ Modes.eax_tag AES.encrypt_block (fresh_key w) (fresh_nonce w) []
       (Modes.eax_encrypt AES.encrypt_block (fresh_key w) (fresh_nonce w) P)
  ++ Modes.eax_encrypt AES.encrypt_block (fresh_key w) (fresh_nonce w) P.

(** The record [share_file] writes in world [w] once the uploader gave
    [url]: the key is the one [encrypt_pdf] drew, the three times are the
    readings of the clock after the one of the name. *)
Definition record_written (self : SecureShareDialog) (e : env) (w : world)
    (url : string) : doc :=
  share_record self (strip (recipient_input self)) (access_combo self)
    (next_secure_filename self w) (fresh_key w) url (geolocation_of e)
    (clock w (S (clock_reads w)))
    (clock w (S (S (clock_reads w))))
    (clock w (S (S (S (clock_reads w))))).

(** The error [share_file] meets when Cloudinary is not configured or
    refuses its configuration.  [None] when the SDK is configured. *)
Definition configuration_refusal (e : env) : option string :=
  match cloudinary_config e with
  | [] => Some "Cloudinary configuration not found or invalid"
  | _ :: _ =>
      match cloudinary_configure e with
      | Some err => Some ("Failed to configure Cloudinary: " +:+ exn_str err)
      | None => None
      end
  end.

(** The error [share_file] meets when the record cannot be stored. *)
Definition persistence_refusal (e : env) : option string :=
  if db e
  then match db_add e with
       | inl err => Some ("Failed to save to database: " +:+ exn_str err)
       | inr _ => None
       end
  else Some "Database connection not available".

(** The error [load_file_access_records] meets when the collection cannot
    be read. *)
Definition load_refusal (e : env) : option string :=
  if db e
  then match db_get e with
       | Some err =>
           Some ("Failed to load records from database: " +:+ exn_str err)
       | None => None
       end
  else Some "Database connection not available".

(** The background [load_file_access_records] gives the cells of a row. *)
Inductive color : Type := LightGray | Cyan | White.

#[global] Instance color_eq_dec : EqDecision color.
Proof. solve_decision. Defined.

Definition row_color (r : row) : color :=
  if String.eqb (row_action r) "upload" then LightGray
  else if String.eqb (row_action r) "share" then Cyan
  else White.

(** The string holds nothing but white space. *)
Fixpoint only_whitespace (s : string) : bool :=
  match s with
  | EmptyString => true
  | String c rest => isspace c && only_whitespace rest
  end.

(** The boxes of a call of [share_file] that got past its recipient check
    and failed with [str(e) = msg]. *)
Definition failure_boxes (msg : string) : list ui_event :=
  [ProgressShown; ProgressClosed;
   MsgCritical "Error" (share_failure_text msg)].

(** The boxes of an accepted call of [share_file]. *)
Definition success_boxes (self : SecureShareDialog) : list ui_event :=
  [ProgressShown; ProgressClosed;
   MsgInformation "Success"
     ("File '" +:+ self_file_name self
      +:+ "' has been securely shared with "
      +:+ strip (recipient_input self));
   DialogAccepted].

End Window.

Import Window.

(** ** More scenarios *)

Module Scenario.

(** [bob] is given a second share by [carol], after the one of [alice]. *)
Definition dialog_carol : SecureShareDialog :=
  Dialog "report.pdf" Sample.report_path "carol" "bob" "View and Share".

Definition env_carol : env :=
  MkEnv (cloudinary_config Sample.env_ok) None (inr Sample.tmp_path) None
        (upload_response Sample.env_ok) None (geo_response Sample.env_ok)
        true (inr "doc2") None.

(** The database is not at hand, or refuses the new document. *)
Definition env_no_db : env :=
  MkEnv (cloudinary_config Sample.env_ok) None (inr Sample.tmp_path) None
        (upload_response Sample.env_ok) None (geo_response Sample.env_ok)
        false (inr "doc1") None.

Definition env_no_config : env :=
  MkEnv [] None (inr Sample.tmp_path) None
        (upload_response Sample.env_ok) None (geo_response Sample.env_ok)
        true (inr "doc1") None.

(** The uploader answers without a [secure_url]. *)
Definition env_no_url : env :=
  set_upload_response (inr (<["public_id" := "secure_pdfs/x"]> ∅))
    Sample.env_ok.

Definition env_query_fails : env :=
  MkEnv (cloudinary_config Sample.env_ok) None (inr Sample.tmp_path) None
        (upload_response Sample.env_ok) None (geo_response Sample.env_ok)
        true (inr "doc1") (Some (Exn "ServiceUnavailable" "503 backend down")).

(** A share click that works. *)
Definition click_ok : click := Click " bob " "View Only" Sample.env_ok.

(** The table after [alice] loaded her history in [world1]. *)
Definition world2 : world :=
  snd (load_file_access_records "alice" Sample.env_ok Sample.world1).

(** A library that finds three pages in any data but the empty one. *)
Definition fitz_three (data : list byte) : result nat :=
  match data with
  | [] => inl (Exn "EmptyFileError" "cannot open empty document")
  | _ :: _ => inr 3
  end.

End Scenario.

(** * Proof automation *)

(** An octet as its eight bits. *)
Ltac open_bits b :=
  rewrite <- (Byte.of_bits_to_bits b);
  generalize (Byte.to_bits b);
  intros (?b0 & ?b1 & ?b2 & ?b3 & ?b4 & ?b5 & ?b6 & ?b7).

Ltac bits_eq :=
  unfold byte_xor; rewrite ?Byte.to_bits_of_bits;
  cbv beta iota delta [bits_xor];
  f_equal; repeat (apply (f_equal2 pair)); btauto.

(** One step of a computation in [M]: the monad and the primitives of the
    world are unfolded, the projections of updated worlds reduced. *)
Ltac mred :=
  cbv beta iota delta
    [bind ret raise try_except attempt lift modify inspect show
     os_path_exists os_path_isfile os_urandom datetime_now
     named_temporary_file file_write os_unlink cloudinary_config_call
     cloudinary_upload requests_get_json json_get db_collection_add
     db_collection_get open_read negb];
  cbn [fs urandom entropy_used clock clock_reads cloudinary_sdk uploads
       http_gets ledger ui files_table
       set_fs set_entropy_used set_clock_reads set_cloudinary_sdk
       set_uploads set_http_gets set_ledger set_ui set_files_table].

(** Equality of two worlds, field by field. *)
Ltac world_eq :=
  unfold set_fs, set_entropy_used, set_clock_reads, set_cloudinary_sdk,
    set_uploads, set_http_gets, set_ledger, set_ui, set_files_table;
  match goal with w : world |- _ => destruct w end;
  cbn [fs urandom entropy_used clock clock_reads cloudinary_sdk uploads
       http_gets ledger ui files_table] in *;
  f_equal; f_equal.

(** The fields of an updated environment. *)
Ltac env_red :=
  cbn [cloudinary_config cloudinary_configure tmp_file tmp_write
       upload_response unlink_error geo_response db db_add db_get
       set_geo_response set_upload_response set_unlink_error].

(** The branch of a case analysis in which [share_file] was not accepted;
    [snoc] is the lemma that reads the last dialog event. *)
Ltac not_accepted snoc :=
  left; cbn [snd]; rewrite snoc; split; [reflexivity|];
  mred; try reflexivity; try assumption.

(** One run of [encrypt_pdf], by the lemma [run] for a readable or an
    unreadable file. *)
Ltac run_encrypt_readable run P H :=
  match goal with
  | |- context [encrypt_pdf ?p ?w0] =>
      rewrite (run w0 p P) by (mred; exact H)
  end.

Ltac run_encrypt_unreadable run H :=
  match goal with
  | |- context [encrypt_pdf ?p ?w0] =>
      let err := fresh "err" in
      let Herr := fresh "Herr" in
      destruct (run w0 p) as [err Herr];
      [mred; rewrite H; congruence | rewrite Herr]
  end.

(** [share_file] up to the upload: recipient given, file read and
    encrypted, Cloudinary configured. *)
Ltac run_to_upload run e P Hr Hp Hcfg Hconf :=
  unfold share_file; rewrite Hr; mred; unfold share_file_try;
  repeat (mred; rewrite ?Hp);
  run_encrypt_readable run P Hp; mred;
  destruct (cloudinary_config e) as [|?c ?cs]; [congruence|];
  mred; rewrite Hconf; mred.

(** * Properties *)

(** ** The helpers of the runtime on known values *)

Example urlsafe_b64encode_known :
  urlsafe_b64encode (fromhex "4d616e") = "TWFu"
  /\ urlsafe_b64encode (fromhex "4d61") = "TWE="
  /\ urlsafe_b64encode (fromhex "4d") = "TQ=="
  /\ urlsafe_b64encode (fromhex "fbff") = "-_8=".
Proof. repeat split. Qed.

Example strip_known :
  strip "  bob " = "bob" /\ strip "   " = "" /\ strip "a b" = "a b".
Proof. repeat split. Qed.

Example basename_known : basename "/home/alice/report.pdf" = "report.pdf".
Proof. reflexivity. Qed.

Example hex_known : hex (fromhex "00ff10ab") = "00ff10ab".
Proof. reflexivity. Qed.

Example strftime_known :
  strftime_compact (DateTime 2025 3 4 9 5 7) = "20250304_090507"
  /\ strftime_iso (DateTime 2025 3 4 9 5 7) = "2025-03-04 09:05:07".
Proof. split; reflexivity. Qed.

(** ** Exclusive or on octets and byte strings *)

Lemma byte_xor_comm (a b : byte) : byte_xor a b = byte_xor b a.
Proof. open_bits a. open_bits b. bits_eq. Qed.

Lemma byte_xor_assoc (a b c : byte) :
  byte_xor a (byte_xor b c) = byte_xor (byte_xor a b) c.
Proof. open_bits a. open_bits b. open_bits c. bits_eq. Qed.

Lemma byte_xor_nilpotent (a : byte) : byte_xor a a = x00.
Proof.
  open_bits a. unfold byte_xor. rewrite Byte.to_bits_of_bits.
  cbv beta iota delta [bits_xor]. rewrite !xorb_nilpotent. reflexivity.
Qed.

Lemma byte_xor_0_r (a : byte) : byte_xor a x00 = a.
Proof.
  open_bits a. unfold byte_xor. rewrite Byte.to_bits_of_bits.
  cbv beta iota delta [bits_xor Byte.to_bits]. rewrite !xorb_false_r.
  reflexivity.
Qed.

Lemma byte_xor_0_l (a : byte) : byte_xor x00 a = a.
Proof. rewrite byte_xor_comm. apply byte_xor_0_r. Qed.

Lemma byte_xor_cancel_r (a b : byte) : byte_xor (byte_xor a b) b = a.
Proof.
  rewrite <- byte_xor_assoc, byte_xor_nilpotent. apply byte_xor_0_r.
Qed.

Lemma byte_xor_inj_l (a a' b : byte) :
  byte_xor a b = byte_xor a' b -> a = a'.
Proof.
  intros H. rewrite <- (byte_xor_cancel_r a b), H. apply byte_xor_cancel_r.
Qed.

Lemma byte_xor_inj_r (a b b' : byte) :
  byte_xor a b = byte_xor a b' -> b = b'.
Proof. rewrite !(byte_xor_comm a). apply byte_xor_inj_l. Qed.

Lemma strxor_length (a b : list byte) :
  length (strxor a b) = Nat.min (length a) (length b).
Proof.
  revert b. induction a as [|x a IH]; intros [|y b]; simpl; auto.
Qed.

Lemma strxor_cancel_r (a b : list byte) :
  length a <= length b -> strxor (strxor a b) b = a.
Proof.
  revert b. induction a as [|x a IH]; intros [|y b] Hl; simpl in *;
    try reflexivity; try lia.
  rewrite byte_xor_cancel_r, IH by lia. reflexivity.
Qed.

Lemma strxor_inj_l (a a' b : list byte) :
  length a = length a' -> length a <= length b ->
  strxor a b = strxor a' b -> a = a'.
Proof.
  intros Hl Hb H.
  rewrite <- (strxor_cancel_r a b), H by lia.
  apply strxor_cancel_r. lia.
Qed.

Lemma strxor_inj_r (a b b' : list byte) :
  length b = length b' -> length b <= length a ->
  strxor a b = strxor a b' -> b = b'.
Proof.
  revert b b'. induction a as [|x a IH]; intros [|y b] [|y' b'] Hl Ha H;
    simpl in *; try reflexivity; try lia.
  injection H as Hh Ht. f_equal.
  - eapply byte_xor_inj_r; eassumption.
  - apply IH; auto; lia.
Qed.

Lemma bytes_eqb_eq (a b : list byte) : bytes_eqb a b = true <-> a = b.
Proof.
  revert b. induction a as [|x a IH]; intros [|y b]; simpl; split;
    try congruence; try reflexivity.
  - intros H. apply andb_true_iff in H as [Hx Hr].
    apply Byte.byte_dec_bl in Hx. apply IH in Hr. congruence.
  - intros H. injection H as -> ->. apply andb_true_iff. split.
    + apply Byte.byte_dec_lb. reflexivity.
    + apply IH. reflexivity.
Qed.

Lemma bit_mask_nonzero (j : nat) : bit_mask j <> x00.
Proof.
  unfold bit_mask.
  assert (Hj : j mod 8 < 8) by (apply Nat.mod_upper_bound; lia).
  destruct (j mod 8) as [|[|[|[|[|[|[|[|n]]]]]]]]; try lia; discriminate.
Qed.

Lemma flip_bit_byte_neq (j : nat) (b : byte) : flip_bit_byte j b <> b.
Proof.
  unfold flip_bit_byte. intros H.
  apply (bit_mask_nonzero j).
  apply (byte_xor_inj_r b). rewrite H. symmetry. apply byte_xor_0_r.
Qed.

Lemma flip_bit_split (l : list byte) (i j : nat) :
  i < length l ->
  exists pre b post,
    l = pre ++ b :: post /\ length pre = i /\
    flip_bit l i j = pre ++ flip_bit_byte j b :: post.
Proof.
  revert i. induction l as [|x l IH]; intros [|i] Hi; simpl in *; try lia.
  - exists [], x, l. auto.
  - destruct (IH i) as (pre & b & post & -> & Hp & Hf); [lia|].
    exists (x :: pre), b, post. simpl. rewrite Hf. auto.
Qed.

Lemma flip_bit_app_r (a l : list byte) (i j : nat) :
  length a <= i -> flip_bit (a ++ l) i j = a ++ flip_bit l (i - length a) j.
Proof.
  revert i. induction a as [|x a IH]; intros i Hi; simpl in *.
  - rewrite Nat.sub_0_r. reflexivity.
  - destruct i as [|i]; [lia|]. simpl. rewrite IH by lia.
    destruct l; reflexivity.
Qed.


Example aes128_fips197_appendix_b :
  AES.encrypt_block (fromhex "2b7e151628aed2a6abf7158809cf4f3c")
                    (fromhex "3243f6a8885a308d313198a2e0370734")
  = fromhex "3925841d02dc09fbdc118597196a0b32".
Proof. vm_compute. reflexivity. Qed.

Example aes128_fips197_appendix_c1 :
  hex (AES.encrypt_block (fromhex "000102030405060708090a0b0c0d0e0f")
                         (fromhex "00112233445566778899aabbccddeeff"))
  = "69c4e0d86a7b0430d8cdb78070b4c55a".
Proof. vm_compute. reflexivity. Qed.

Example aes192_fips197_appendix_c2 :
  hex (AES.encrypt_block
         (fromhex "000102030405060708090a0b0c0d0e0f1011121314151617")
         (fromhex "00112233445566778899aabbccddeeff"))
  = "dda97ca4864cdfe06eaf70a0ec0d7191".
Proof. vm_compute. reflexivity. Qed.

Example aes256_fips197_appendix_c3 :
  hex (AES.encrypt_block
         (fromhex "000102030405060708090a0b0c0d0e0f101112131415161718191a1b1c1d1e1f")
         (fromhex "00112233445566778899aabbccddeeff"))
  = "8ea2b7ca516745bfeafc49904b496089".
Proof. vm_compute. reflexivity. Qed.

(** The first vectors of the EAX paper (Bellare, Rogaway, Wagner), with
    their headers, and the CMAC vectors of RFC 4493. *)
Example cmac_rfc4493_empty :
  hex (Modes.cmac AES.encrypt_block
         (fromhex "2b7e151628aed2a6abf7158809cf4f3c") [])
  = "bb1d6929e95937287fa37d129b756746".
Proof. vm_compute. reflexivity. Qed.

Example cmac_rfc4493_one_block :
  hex (Modes.cmac AES.encrypt_block
         (fromhex "2b7e151628aed2a6abf7158809cf4f3c")
         (fromhex "6bc1bee22e409f96e93d7e117393172a"))
  = "070a16b46b4d4144f79bdd9dd04a287c".
Proof. vm_compute. reflexivity. Qed.

Example eax_paper_vector_1 :
  let key := fromhex "233952dee4d5ed5f9b9c6d6ff80ff478" in
  let nonce := fromhex "62ec67f9c3a4a407fcb2a8c49031a8b3" in
  let header := fromhex "6bfb914fd07eae6b" in
  let c := Modes.eax_encrypt AES.encrypt_block key nonce [] in
  hex (c ++ Modes.eax_tag AES.encrypt_block key nonce header c)
  = "e037830e8389f27b025a2d6527e79d01".
Proof. vm_compute. reflexivity. Qed.

Example eax_paper_vector_2 :
  let key := fromhex "91945d3f4dcbee0bf45ef52255f095a4" in
  let nonce := fromhex "becaf043b0a23d843194ba972c66debd" in
  let header := fromhex "fa3bfd4806eb53fa" in
  let c := Modes.eax_encrypt AES.encrypt_block key nonce (fromhex "f7fb") in
  hex (c ++ Modes.eax_tag AES.encrypt_block key nonce header c)
  = "19dd5c4c9331049d0bdab0277408f67967e5".
Proof. vm_compute. reflexivity. Qed.

(** ** CMAC, CTR and EAX over a block cipher that permutes 16 octet blocks *)

Section ModesFacts.

Variable E : list byte -> list byte -> list byte.
Hypothesis E_length : forall k x, length (E k x) = 16.
Hypothesis E_inj :
  forall k x y, length x = 16 -> length y = 16 -> E k x = E k y -> x = y.

Lemma long_to_bytes_length (len : nat) (n : N) :
  length (long_to_bytes len n) = len.
Proof.
  revert n. induction len as [|len IH]; intros n; simpl; [reflexivity|].
  rewrite length_app, IH. simpl. lia.
Qed.

Lemma derive_subkey_length (l : list byte) :
  length (Modes.derive_subkey l) = length l.
Proof.
  unfold Modes.derive_subkey, Modes.shift_bytes.
  destruct (Modes.msb_set l); apply long_to_bytes_length.
Qed.

Lemma subkey1_length (k : list byte) : length (Modes.subkey1 E k) = 16.
Proof. unfold Modes.subkey1. rewrite derive_subkey_length. apply E_length. Qed.

Lemma subkey2_length (k : list byte) : length (Modes.subkey2 E k) = 16.
Proof.
  unfold Modes.subkey2. rewrite derive_subkey_length. apply subkey1_length.
Qed.

Lemma cmac_final_length (k x m : list byte) :
  length (Modes.cmac_final E k x m) = 16.
Proof. unfold Modes.cmac_final. destruct (Nat.eqb _ _); apply E_length. Qed.

Lemma cmac_chain_length (fuel : nat) (k x m : list byte) :
  length (Modes.cmac_chain E fuel k x m) = 16.
Proof.
  revert x m. induction fuel as [|fuel IH]; intros x m; simpl.
  - apply cmac_final_length.
  - destruct (Nat.leb _ _); [apply cmac_final_length | apply IH].
Qed.

Lemma omac_length (t : byte) (k m : list byte) :
  length (Modes.omac E t k m) = 16.
Proof. apply cmac_chain_length. Qed.

Lemma pad_block_length (m : list byte) :
  length m < 16 -> length (Modes.pad_block m) = 16.
Proof.
  intros H. unfold Modes.pad_block.
  rewrite length_app. simpl. rewrite repeat_length. lia.
Qed.

Lemma ctr_keystream_length (k : list byte) (c : N) (n : nat) :
  length (Modes.ctr_keystream E k c n) = 16 * n.
Proof.
  unfold Modes.ctr_keystream.
  assert (H : forall l : list nat,
             length (flat_map
                       (fun j => E k (long_to_bytes 16 (c + N.of_nat j))) l)
             = 16 * length l).
  { induction l as [|j l IH]; [reflexivity|].
    cbn [flat_map]. rewrite length_app, E_length, IH. cbn [length]. lia. }
  rewrite H, length_seq. reflexivity.
Qed.

Lemma ctr_crypt_length (k : list byte) (c : N) (data : list byte) :
  length (Modes.ctr_crypt E k c data) = length data.
Proof.
  unfold Modes.ctr_crypt. rewrite strxor_length, ctr_keystream_length.
  pose proof (Nat.div_mod (length data + 15) 16 ltac:(lia)).
  pose proof (Nat.mod_upper_bound (length data + 15) 16 ltac:(lia)). lia.
Qed.

(** CTR is its own inverse: the key stream depends on the length only. *)
Lemma ctr_crypt_involutive (k : list byte) (c : N) (data : list byte) :
  Modes.ctr_crypt E k c (Modes.ctr_crypt E k c data) = data.
Proof.
  unfold Modes.ctr_crypt at 1. rewrite ctr_crypt_length.
  unfold Modes.ctr_crypt. apply strxor_cancel_r.
  rewrite ctr_keystream_length.
  pose proof (Nat.div_mod (length data + 15) 16 ltac:(lia)).
  pose proof (Nat.mod_upper_bound (length data + 15) 16 ltac:(lia)). lia.
Qed.

Lemma eax_decrypt_encrypt (k n p : list byte) :
  Modes.eax_decrypt E k n (Modes.eax_encrypt E k n p) = p.
Proof. apply ctr_crypt_involutive. Qed.

Lemma eax_encrypt_length (k n p : list byte) :
  length (Modes.eax_encrypt E k n p) = length p.
Proof. apply ctr_crypt_length. Qed.

Lemma eax_tag_length (k n h c : list byte) :
  length (Modes.eax_tag E k n h c) = 16.
Proof.
  unfold Modes.eax_tag.
  rewrite length_take, !strxor_length, !omac_length.
  unfold Modes.zero_block. rewrite repeat_length. reflexivity.
Qed.

(** Two chaining values that differ stay apart over any further message. *)
Lemma cmac_final_diff_state (k x x' m : list byte) :
  length x = 16 -> length x' = 16 -> length m <= 16 -> x <> x' ->
  Modes.cmac_final E k x m <> Modes.cmac_final E k x' m.
Proof.
  intros Hx Hx' Hm Hne. unfold Modes.cmac_final.
  destruct (Nat.eqb (length m) 16) eqn:Hfull; intros H.
  - apply Nat.eqb_eq in Hfull.
    apply E_inj in H;
      [|rewrite !strxor_length, subkey1_length; lia
       |rewrite !strxor_length, subkey1_length; lia].
    apply strxor_inj_l in H;
      [|rewrite !strxor_length; lia
       |rewrite !strxor_length, subkey1_length; lia].
    apply strxor_inj_l in H; [auto|lia|lia].
  - apply Nat.eqb_neq in Hfull.
    assert (Hp : length (Modes.pad_block m) = 16)
      by (apply pad_block_length; lia).
    apply E_inj in H;
      [|rewrite !strxor_length, subkey2_length; lia
       |rewrite !strxor_length, subkey2_length; lia].
    apply strxor_inj_l in H;
      [|rewrite !strxor_length; lia
       |rewrite !strxor_length, subkey2_length; lia].
    apply strxor_inj_l in H; [auto|lia|lia].
Qed.

Lemma cmac_chain_diff_state (fuel : nat) (k x x' m : list byte) :
  length x = 16 -> length x' = 16 -> length m <= fuel -> x <> x' ->
  Modes.cmac_chain E fuel k x m <> Modes.cmac_chain E fuel k x' m.
Proof.
  revert x x' m. induction fuel as [|fuel IH]; intros x x' m Hx Hx' Hf Hne;
    simpl.
  - apply cmac_final_diff_state; auto; lia.
  - destruct (Nat.leb (length m) 16) eqn:Hlast.
    + apply Nat.leb_le in Hlast. apply cmac_final_diff_state; auto.
    + apply Nat.leb_gt in Hlast.
      apply IH; try apply E_length.
      * rewrite length_drop. lia.
      * intros H. apply E_inj in H;
          [|rewrite strxor_length, length_take; lia
           |rewrite strxor_length, length_take; lia].
        apply strxor_inj_l in H; [auto|lia|rewrite length_take; lia].
Qed.

(** Two messages that differ in exactly one octet have different MACs,
    from any chaining value. *)
Lemma cmac_chain_diff_message (fuel : nat) (k x pre post : list byte)
    (b b' : byte) :
  length x = 16 -> b <> b' -> length (pre ++ b :: post) <= fuel ->
  Modes.cmac_chain E fuel k x (pre ++ b :: post)
  <> Modes.cmac_chain E fuel k x (pre ++ b' :: post).
Proof.
  revert x pre. induction fuel as [|fuel IH]; intros x pre Hx Hb Hf.
  - rewrite length_app in Hf. simpl in Hf. lia.
  - assert (Hlen : length (pre ++ b' :: post) = length (pre ++ b :: post))
      by (rewrite !length_app; reflexivity).
    assert (Hmne : pre ++ b :: post <> pre ++ b' :: post)
      by (intros H; apply app_inv_head in H; congruence).
    simpl. rewrite Hlen.
    destruct (Nat.leb (length (pre ++ b :: post)) 16) eqn:Hlast.
    + apply Nat.leb_le in Hlast. unfold Modes.cmac_final. rewrite Hlen.
      destruct (Nat.eqb (length (pre ++ b :: post)) 16) eqn:Hfull; intros H.
      * apply Nat.eqb_eq in Hfull.
        apply E_inj in H;
          [|rewrite !strxor_length, subkey1_length; lia
           |rewrite !strxor_length, subkey1_length; lia].
        apply strxor_inj_l in H;
          [|rewrite !strxor_length; lia
           |rewrite !strxor_length, subkey1_length; lia].
        apply strxor_inj_r in H; [auto|lia|lia].
      * apply Nat.eqb_neq in Hfull.
        assert (Hp : length (Modes.pad_block (pre ++ b :: post)) = 16)
          by (apply pad_block_length; lia).
        assert (Hp' : length (Modes.pad_block (pre ++ b' :: post)) = 16)
          by (apply pad_block_length; lia).
        apply E_inj in H;
          [|rewrite !strxor_length, subkey2_length; lia
           |rewrite !strxor_length, subkey2_length; lia].
        apply strxor_inj_l in H;
          [|rewrite !strxor_length; lia
           |rewrite !strxor_length, subkey2_length; lia].
        apply strxor_inj_r in H; [|lia|lia].
        unfold Modes.pad_block in H. rewrite Hlen in H.
        apply app_inv_tail in H. auto.
    + apply Nat.leb_gt in Hlast.
      destruct (Nat.lt_ge_cases (length pre) 16) as [Hpre|Hpre].
      * (* the octet lies in the block consumed now *)
        rewrite !(take_app_ge pre), !(drop_app_ge pre) by lia.
        replace (16 - length pre) with (S (15 - length pre)) by lia.
        simpl.
        apply cmac_chain_diff_state; try apply E_length.
        -- rewrite length_drop. rewrite length_app in Hf. simpl in Hf. lia.
        -- rewrite length_app in Hlast. simpl in Hlast.
           intros H. apply E_inj in H;
             [|rewrite strxor_length, length_app; simpl;
               rewrite length_take; lia
              |rewrite strxor_length, length_app; simpl;
               rewrite length_take; lia].
           apply strxor_inj_r in H;
             [|rewrite !length_app; reflexivity
              |rewrite length_app; simpl; rewrite length_take; lia].
           apply app_inv_head in H. congruence.
      * (* the octet lies further on *)
        rewrite !(take_app_le pre), !(drop_app_le pre) by lia.
        apply IH; auto using E_length.
        rewrite length_app, length_drop. rewrite length_app in Hf. lia.
Qed.

Lemma omac_diff (t : byte) (k pre post : list byte) (b b' : byte) :
  b <> b' ->
  Modes.omac E t k (pre ++ b :: post) <> Modes.omac E t k (pre ++ b' :: post).
Proof.
  intros Hb. unfold Modes.omac, Modes.cmac.
  assert (Hm : forall c : byte,
             repeat x00 15 ++ t :: pre ++ c :: post
             = (repeat x00 15 ++ t :: pre) ++ c :: post)
    by (intros c; rewrite <- app_assoc; reflexivity).
  rewrite !Hm.
  replace (length ((repeat x00 15 ++ t :: pre) ++ b' :: post))
    with (length ((repeat x00 15 ++ t :: pre) ++ b :: post))
    by (rewrite !length_app; reflexivity).
  apply cmac_chain_diff_message; auto.
Qed.

(** A ciphertext changed in one octet never keeps its tag. *)
Lemma eax_tag_diff (k n h pre post : list byte) (b b' : byte) :
  b <> b' ->
  Modes.eax_tag E k n h (pre ++ b :: post)
  <> Modes.eax_tag E k n h (pre ++ b' :: post).
Proof.
  intros Hb. unfold Modes.eax_tag. intros H.
  rewrite !take_ge in H
    by (rewrite !strxor_length, !omac_length; unfold Modes.zero_block;
        rewrite repeat_length; lia).
  apply strxor_inj_r in H.
  - revert H. apply omac_diff. exact Hb.
  - rewrite !omac_length. reflexivity.
  - rewrite !strxor_length, !omac_length. unfold Modes.zero_block.
    rewrite repeat_length. lia.
Qed.

End ModesFacts.

(** ** AES permutes the 16 octet blocks *)

Lemma inv_sbox_sbox (b : byte) : AES.inv_sbox (AES.sbox b) = b.
Proof. destruct b; vm_compute; reflexivity. Qed.

Lemma sbox_inj (a b : byte) : AES.sbox a = AES.sbox b -> a = b.
Proof.
  intros H. rewrite <- (inv_sbox_sbox a), H. apply inv_sbox_sbox.
Qed.

Lemma sub_word_inj (u v : AES.word) : AES.sub_word u = AES.sub_word v -> u = v.
Proof.
  destruct u as [[[u0 u1] u2] u3], v as [[[v0 v1] v2] v3]. simpl.
  intros H. injection H as H0 H1 H2 H3.
  apply sbox_inj in H0, H1, H2, H3. congruence.
Qed.

Lemma sub_bytes_inj (s t : AES.state) :
  AES.sub_bytes s = AES.sub_bytes t -> s = t.
Proof.
  destruct s as [[[s0 s1] s2] s3], t as [[[t0 t1] t2] t3]. simpl.
  intros H. injection H as H0 H1 H2 H3.
  apply sub_word_inj in H0, H1, H2, H3. congruence.
Qed.

Lemma shift_rows_inj (s t : AES.state) :
  AES.shift_rows s = AES.shift_rows t -> s = t.
Proof.
  destruct s as [[[[[[a0 a1] a2] a3] [[[b0 b1] b2] b3]] [[[c0 c1] c2] c3]]
                   [[[d0 d1] d2] d3]].
  destruct t as [[[[[[a0' a1'] a2'] a3'] [[[b0' b1'] b2'] b3']]
                    [[[c0' c1'] c2'] c3']] [[[d0' d1'] d2'] d3']].
  simpl. intros H. injection H. intros. congruence.
Qed.

Lemma inv_mix_column_mix_column (u : AES.word) :
  AES.inv_mix_column (AES.mix_column u) = u.
Proof.
  destruct u as [[[a0 a1] a2] a3].
  open_bits a0. open_bits a1. open_bits a2. open_bits a3.
  unfold AES.inv_mix_column, AES.mix_column, AES.mul14, AES.mul13, AES.mul11,
    AES.mul9, AES.mul3, AES.mul2, AES.xtime, byte_xor.
  repeat (rewrite ?Byte.to_bits_of_bits; cbv beta iota delta [bits_xor]).
  repeat (apply (f_equal2 pair)); f_equal; repeat (apply (f_equal2 pair));
    btauto.
Qed.

Lemma mix_column_inj (u v : AES.word) :
  AES.mix_column u = AES.mix_column v -> u = v.
Proof.
  intros H. rewrite <- (inv_mix_column_mix_column u), H.
  apply inv_mix_column_mix_column.
Qed.

Lemma mix_columns_inj (s t : AES.state) :
  AES.mix_columns s = AES.mix_columns t -> s = t.
Proof.
  destruct s as [[[s0 s1] s2] s3], t as [[[t0 t1] t2] t3]. simpl.
  intros H. injection H as H0 H1 H2 H3.
  apply mix_column_inj in H0, H1, H2, H3. congruence.
Qed.

Lemma word_xor_inj_l (u v k : AES.word) :
  AES.word_xor u k = AES.word_xor v k -> u = v.
Proof.
  destruct u as [[[u0 u1] u2] u3], v as [[[v0 v1] v2] v3],
           k as [[[k0 k1] k2] k3]. simpl.
  intros H. injection H as H0 H1 H2 H3.
  apply byte_xor_inj_l in H0, H1, H2, H3. congruence.
Qed.

Lemma add_round_key_inj (s t k : AES.state) :
  AES.add_round_key s k = AES.add_round_key t k -> s = t.
Proof.
  destruct s as [[[s0 s1] s2] s3], t as [[[t0 t1] t2] t3],
           k as [[[k0 k1] k2] k3]. simpl.
  intros H. injection H as H0 H1 H2 H3.
  apply word_xor_inj_l in H0, H1, H2, H3. congruence.
Qed.

(** Every round is injective, whatever the round keys are. *)
Lemma rounds_inj (rks : list AES.state) (s t : AES.state) :
  AES.rounds rks s = AES.rounds rks t -> s = t.
Proof.
  revert s t. induction rks as [|rk rest IH]; intros s t H; simpl in H.
  - exact H.
  - destruct rest as [|rk' rest'].
    + apply add_round_key_inj, shift_rows_inj, sub_bytes_inj in H. exact H.
    + apply IH, add_round_key_inj, mix_columns_inj, shift_rows_inj,
        sub_bytes_inj in H. exact H.
Qed.

Lemma cipher_inj (rks : list AES.state) (s t : AES.state) :
  AES.cipher rks s = AES.cipher rks t -> s = t.
Proof.
  destruct rks as [|rk0 rest]; simpl; [auto|].
  intros H. apply rounds_inj, add_round_key_inj in H. exact H.
Qed.

Lemma bytes_of_state_inj (s t : AES.state) :
  AES.bytes_of_state s = AES.bytes_of_state t -> s = t.
Proof.
  destruct s as [[[[[[a0 a1] a2] a3] [[[b0 b1] b2] b3]] [[[c0 c1] c2] c3]]
                   [[[d0 d1] d2] d3]].
  destruct t as [[[[[[a0' a1'] a2'] a3'] [[[b0' b1'] b2'] b3']]
                    [[[c0' c1'] c2'] c3']] [[[d0' d1'] d2'] d3']].
  simpl. intros H. injection H. intros. congruence.
Qed.

Lemma bytes_of_state_length (s : AES.state) :
  length (AES.bytes_of_state s) = 16.
Proof.
  destruct s as [[[[[[a0 a1] a2] a3] [[[b0 b1] b2] b3]] [[[c0 c1] c2] c3]]
                   [[[d0 d1] d2] d3]].
  reflexivity.
Qed.

Lemma state_of_bytes_inj (x y : list byte) :
  length x = 16 -> length y = 16 ->
  AES.state_of_bytes x = AES.state_of_bytes y -> x = y.
Proof.
  intros Hx Hy.
  do 16 (destruct x as [|? x]; [discriminate Hx|]).
  destruct x; [|discriminate Hx].
  do 16 (destruct y as [|? y]; [discriminate Hy|]).
  destruct y; [|discriminate Hy].
  unfold AES.state_of_bytes. simpl. intros H. injection H. intros. congruence.
Qed.

Lemma encrypt_block_length (k x : list byte) :
  length (AES.encrypt_block k x) = 16.
Proof. apply bytes_of_state_length. Qed.

(** Under any key, two different blocks have different encryptions. *)
Lemma encrypt_block_inj (k x y : list byte) :
  length x = 16 -> length y = 16 ->
  AES.encrypt_block k x = AES.encrypt_block k y -> x = y.
Proof.
  intros Hx Hy H. unfold AES.encrypt_block in H.
  apply bytes_of_state_inj, cipher_inj in H.
  apply state_of_bytes_inj; assumption.
Qed.

(** ** Encryption and decryption of a file *)

(** What [encrypt_pdf] returns on a readable file: key and nonce are the
    next 32 octets of [os.urandom]. *)
Lemma encrypt_pdf_readable (w : world) (path : string) (P : list byte) :
  fs w !! path = Some (RegularFile (inr P)) ->
  encrypt_pdf path w
  = (inr (EncryptionResult
            (fresh_nonce w)
            (Modes.eax_encrypt AES.encrypt_block (fresh_key w) (fresh_nonce w) P)
            (Modes.eax_tag AES.encrypt_block (fresh_key w) (fresh_nonce w) []
               (Modes.eax_encrypt AES.encrypt_block (fresh_key w)
                  (fresh_nonce w) P))
            (fresh_key w)),
     set_entropy_used (entropy_used w + 16 + 16) w).
Proof.
  intros Hfile.
  unfold encrypt_pdf, try_except, bind, open_read. rewrite Hfile.
  unfold os_urandom, aes_new_eax, bind, os_urandom, lift, AES_EAX.new.
  cbn [entropy_used set_entropy_used urandom].
  rewrite !length_map, !length_seq. cbn [Nat.eqb orb].
  reflexivity.
Qed.

(** An unreadable or missing file makes [encrypt_pdf] raise before any
    random octet is drawn. *)
Lemma encrypt_pdf_unreadable (w : world) (path : string) :
  (forall P, fs w !! path <> Some (RegularFile (inr P))) ->
  exists err, encrypt_pdf path w
              = (inl (Exception ("Encryption failed: " +:+ exn_str err)), w).
Proof.
  intros Hfile.
  unfold encrypt_pdf, try_except, bind, open_read.
  destruct (fs w !! path) as [[|[err|P]]|] eqn:Hp.
  - eexists. reflexivity.
  - exists err. reflexivity.
  - exfalso. apply (Hfile P). reflexivity.
  - eexists. reflexivity.
Qed.

Lemma decrypt_pdf_serialized (key nonce P : list byte) :
  length key = 16 -> length nonce = 16 ->
  let ct := Modes.eax_encrypt AES.encrypt_block key nonce P in
  let tag := Modes.eax_tag AES.encrypt_block key nonce [] ct in
  decrypt_pdf (nonce ++ tag ++ ct) key = inr P.
Proof.
  intros Hk Hn ct tag.
  assert (Ht : length tag = 16) by apply (eax_tag_length _ encrypt_block_length).
  unfold decrypt_pdf.
  rewrite (take_app_length' nonce _ 16) by lia.
  rewrite (drop_app_length' nonce _ 16) by lia.
  rewrite (take_app_length' tag _ 16) by lia.
  replace (drop 32 (nonce ++ tag ++ ct)) with ct.
  2:{ change 32 with (16 + 16). rewrite <- drop_drop.
      rewrite (drop_app_length' nonce _ 16) by lia.
      rewrite (drop_app_length' tag _ 16) by lia. reflexivity. }
  unfold AES_EAX.new. rewrite Hn, Hk. cbn [Nat.eqb orb].
  unfold AES_EAX.decrypt_and_verify. cbn [AES_EAX.cipher_key AES_EAX.nonce].
  fold tag.
  assert (Heq : bytes_eqb tag tag = true) by (apply bytes_eqb_eq; reflexivity).
  rewrite Heq. unfold ct.
  rewrite (eax_decrypt_encrypt _ encrypt_block_length). reflexivity.
Qed.

Lemma decrypt_pdf_tampered (key nonce P : list byte) (i j : nat) :
  length key = 16 -> length nonce = 16 -> 32 <= i < 32 + length P ->
  let ct := Modes.eax_encrypt AES.encrypt_block key nonce P in
  let tag := Modes.eax_tag AES.encrypt_block key nonce [] ct in
  decrypt_pdf (flip_bit (nonce ++ tag ++ ct) i j) key
  = inl (Exception "Decryption failed: MAC check failed").
Proof.
  intros Hk Hn Hi ct tag.
  assert (Ht : length tag = 16) by apply (eax_tag_length _ encrypt_block_length).
  assert (Hc : length ct = length P)
    by apply (eax_encrypt_length _ encrypt_block_length).
  rewrite flip_bit_app_r by lia.
  rewrite flip_bit_app_r by lia.
  destruct (flip_bit_split ct (i - length nonce - length tag) j)
    as (pre & b & post & Hct & Hpre & Hflip); [lia|].
  rewrite Hflip.
  unfold decrypt_pdf.
  rewrite (take_app_length' nonce _ 16) by lia.
  rewrite (drop_app_length' nonce _ 16) by lia.
  rewrite (take_app_length' tag _ 16) by lia.
  replace (drop 32 (nonce ++ tag ++ pre ++ flip_bit_byte j b :: post))
    with (pre ++ flip_bit_byte j b :: post).
  2:{ change 32 with (16 + 16). rewrite <- drop_drop.
      rewrite (drop_app_length' nonce _ 16) by lia.
      rewrite (drop_app_length' tag _ 16) by lia. reflexivity. }
  unfold AES_EAX.new. rewrite Hn, Hk. cbn [Nat.eqb orb].
  unfold AES_EAX.decrypt_and_verify. cbn [AES_EAX.cipher_key AES_EAX.nonce].
  destruct (bytes_eqb _ tag) eqn:Heq; [|reflexivity].
  exfalso. apply bytes_eqb_eq in Heq. unfold tag in Heq. rewrite Hct in Heq.
  revert Heq.
  apply (eax_tag_diff _ encrypt_block_length encrypt_block_inj).
  apply flip_bit_byte_neq.
Qed.

(** C1: for every plaintext [P], held by a readable file, [encrypt_pdf]
    returns a result under a freshly drawn key, and [decrypt_pdf] applied to
    the serialized buffer [nonce ++ tag ++ ciphertext] with that key returns
    exactly [P]. *)
Theorem decrypt_encrypt_roundtrip (w : world) (path : string) (P : list byte) :
  fs w !! path = Some (RegularFile (inr P)) ->
  exists r w',
    encrypt_pdf path w = (inr r, w') /\
    er_key r = fresh_key w /\
    entropy_used w' = entropy_used w + 16 + 16 /\
    decrypt_pdf (serialize r) (er_key r) = inr P.
Proof.
  intros Hfile. do 2 eexists. split; [apply encrypt_pdf_readable, Hfile|].
  split; [reflexivity|]. split; [reflexivity|].
  unfold serialize. cbn [er_nonce er_tag er_ciphertext er_key].
  apply decrypt_pdf_serialized; unfold fresh_key, fresh_nonce;
    rewrite length_map, length_seq; reflexivity.
Qed.

(** The ten octets of [report.pdf] come back. *)
Lemma decrypt_encrypt_roundtrip_witness :
  fs Sample.world0 !! Sample.report_path
  = Some (RegularFile (inr Sample.report_bytes))
  /\ exists r w',
       encrypt_pdf Sample.report_path Sample.world0 = (inr r, w') /\
       er_key r = fresh_key Sample.world0 /\
       entropy_used w' = entropy_used Sample.world0 + 16 + 16 /\
       decrypt_pdf (serialize r) (er_key r) = inr Sample.report_bytes.
Proof.
  split; [reflexivity|].
  apply (decrypt_encrypt_roundtrip Sample.world0 Sample.report_path
           Sample.report_bytes).
  reflexivity.
Defined.

(** C2, as the code has it: after any single-bit change in the ciphertext
    part of the serialized buffer, [decrypt_pdf] with the right key returns
    no data; it raises the plain [Exception] whose text is
    ["Decryption failed: MAC check failed"]. *)
Theorem tampered_ciphertext_is_rejected (w : world) (path : string)
    (P : list byte) (i j : nat) :
  fs w !! path = Some (RegularFile (inr P)) ->
  32 <= i < 32 + length P ->
  exists r w',
    encrypt_pdf path w = (inr r, w') /\
    length (serialize r) = 32 + length P /\
    decrypt_pdf (flip_bit (serialize r) i j) (er_key r)
    = inl (Exception "Decryption failed: MAC check failed").
Proof.
  intros Hfile Hi. do 2 eexists. split; [apply encrypt_pdf_readable, Hfile|].
  unfold serialize. cbn [er_nonce er_tag er_ciphertext er_key].
  assert (Hk : length (fresh_key w) = 16)
    by (unfold fresh_key; rewrite length_map, length_seq; reflexivity).
  assert (Hn : length (fresh_nonce w) = 16)
    by (unfold fresh_nonce; rewrite length_map, length_seq; reflexivity).
  split.
  - rewrite !length_app, Hn, (eax_tag_length _ encrypt_block_length),
      (eax_encrypt_length _ encrypt_block_length). reflexivity.
  - apply decrypt_pdf_tampered; assumption.
Qed.

(** Bit 2 of the fourth octet of the ciphertext of [report.pdf] toggled. *)
Lemma tampered_ciphertext_is_rejected_witness :
  fs Sample.world0 !! Sample.report_path
  = Some (RegularFile (inr Sample.report_bytes))
  /\ 32 <= 35 < 32 + length Sample.report_bytes
  /\ exists r w',
       encrypt_pdf Sample.report_path Sample.world0 = (inr r, w') /\
       length (serialize r) = 32 + length Sample.report_bytes /\
       decrypt_pdf (flip_bit (serialize r) 35 2) (er_key r)
       = inl (Exception "Decryption failed: MAC check failed").
Proof.
  split; [reflexivity|]. split; [simpl; lia|].
  apply (tampered_ciphertext_is_rejected Sample.world0 Sample.report_path
           Sample.report_bytes 35 2).
  - reflexivity.
  - simpl. lia.
Defined.

(** C2 as stated fails: the error of a tampered buffer is of class
    [Exception], not [AuthenticationError], and a key of the wrong length
    fails with the same class, the text alone telling the two apart. *)
Lemma tamper_error_has_no_kind_of_its_own :
  fst (encrypt_pdf Sample.report_path Sample.world0) = inr Sample.encrypted
  /\ decrypt_pdf (flip_bit (serialize Sample.encrypted) 32 0)
                 (er_key Sample.encrypted)
     = inl (Exn "Exception" "Decryption failed: MAC check failed")
  /\ ~ raises_kind (decrypt_pdf (flip_bit (serialize Sample.encrypted) 32 0)
                                (er_key Sample.encrypted))
                   "AuthenticationError"
  /\ decrypt_pdf (serialize Sample.encrypted) (fromhex "00")
     = inl (Exn "Exception"
                "Decryption failed: Incorrect AES key length (1 bytes)").
Proof.
  assert (H : decrypt_pdf (flip_bit (serialize Sample.encrypted) 32 0)
                          (er_key Sample.encrypted)
              = inl (Exn "Exception" "Decryption failed: MAC check failed"))
    by (vm_compute; reflexivity).
  split; [vm_compute; reflexivity|]. split; [exact H|]. split.
  - rewrite H. intros (e & He & Hc). injection He as <-. discriminate Hc.
  - vm_compute. reflexivity.
Qed.

(** ** Running the stages of [share_file] *)

(** The lookup never raises: it gives [geolocation_of e] and leaves a trace
    of the request only. *)
Lemma resolve_geolocation_run (e : env) (w : world) :
  resolve_geolocation e w
  = (inr (geolocation_of e),
     set_http_gets (http_gets w ++ ["https://ipapi.co/json/"]) w).
Proof.
  unfold resolve_geolocation, geolocation_of. mred.
  destruct (geo_response e) as [err|[err|[members|]]]; reflexivity.
Qed.

(** Once the temporary file is written, the upload is attempted, and the
    file is removed unless [os.unlink] itself fails. *)
Lemma upload_stage_staged (e : env) (data : list byte) (name p : string)
    (w : world) :
  tmp_file e = inr p -> fs w !! p = None -> tmp_write e = None ->
  upload_stage e data name w
  = (match upload_response e with
     | inl err => inl (Exception ("Failed to upload file: " +:+ exn_str err))
     | inr r => inr r
     end,
     set_uploads (uploads w ++ [UploadCall p data ("secure_pdfs/" +:+ name)])
       (match unlink_error e with
        | None => w
        | Some _ => set_fs (insert p (RegularFile (inr data))) w
        end)).
Proof.
  intros Ht Hf Hw. unfold upload_stage. mred.
  rewrite Ht, Hf. mred. rewrite Hw. mred.
  rewrite lookup_insert_eq. mred.
  destruct (upload_response e) as [err|r]; mred;
    destruct (unlink_error e) as [uerr|]; mred;
    rewrite ?lookup_insert_eq; mred; world_eq;
    rewrite ?insert_insert_eq, ?delete_insert_eq, ?delete_id by assumption;
    reflexivity.
Qed.

(** Whatever happens in the upload stage, it touches neither the ledger nor
    the dialogs, draws no random octet and reads no clock; and when the
    uploader raises, the stage raises ["Failed to upload file: ..."]. *)
Lemma upload_stage_frame (e : env) (data : list byte) (name : string)
    (w : world) :
  exists r w',
    upload_stage e data name w = (r, w') /\
    ledger w' = ledger w /\ ui w' = ui w /\
    entropy_used w' = entropy_used w /\ urandom w' = urandom w /\
    clock_reads w' = clock_reads w /\ clock w' = clock w /\
    http_gets w' = http_gets w /\
    (forall err, upload_response e = inl err ->
       exists cause,
         r = inl (Exception ("Failed to upload file: " +:+ exn_str cause))) /\
    (forall result, r = inr result -> upload_response e = inr result).
Proof.
  unfold upload_stage. mred.
  destruct (tmp_file e) as [terr|p]; mred.
  { do 2 eexists. split; [reflexivity|]. repeat split; eauto; discriminate. }
  destruct (fs w !! p) as [n|] eqn:Hp; mred.
  { do 2 eexists. split; [reflexivity|]. repeat split; eauto; discriminate. }
  destruct (tmp_write e) as [werr|]; mred.
  { do 2 eexists. split; [reflexivity|]. repeat split; eauto; discriminate. }
  rewrite lookup_insert_eq. mred.
  destruct (upload_response e) as [err|r]; mred;
    destruct (unlink_error e) as [uerr|]; mred;
    rewrite ?lookup_insert_eq; mred;
    (do 2 eexists; split; [reflexivity|]; repeat split; eauto;
     try discriminate; congruence).
Qed.

Lemma accepted_snoc (w : world) (l : list ui_event) (x : ui_event) :
  accepted (set_ui (l ++ [x]) w)
  = match x with DialogAccepted => true | _ => false end.
Proof. unfold accepted. cbn [ui set_ui]. rewrite last_snoc. reflexivity. Qed.

(** The ways a call of [share_file] ends: either nothing is accepted and
    the ledger is as before, or the dialog is accepted, the uploader gave
    a result with a [secure_url], and exactly one record was added. *)
Lemma share_file_cases (self : SecureShareDialog) (e : env) (w : world) :
  (accepted (snd (share_file self e w)) = false /\
   ledger (snd (share_file self e w)) = ledger w)
  \/
  (accepted (snd (share_file self e w)) = true /\
   fst (share_file self e w) = inr RetNone /\
   exists id secure_filename key result url t1 t2 t3,
     upload_response e = inr result /\
     result !! "secure_url" = Some url /\
     ledger (snd (share_file self e w))
     = ledger w ++ [(id, share_record self (strip (recipient_input self))
                           (access_combo self) secure_filename key url
                           (geolocation_of e) t1 t2 t3)]).
Proof.
  unfold share_file.
  destruct (truthy (strip (recipient_input self))) eqn:Hr; mred;
    [|not_accepted accepted_snoc].
  unfold share_file_try. mred.
  destruct (fs w !! self_file_path self) as [[|[err|P]]|] eqn:Hp;
    repeat (mred; rewrite ?Hp); try not_accepted accepted_snoc.
  - run_encrypt_unreadable encrypt_pdf_unreadable Hp. mred. not_accepted accepted_snoc.
  - run_encrypt_readable encrypt_pdf_readable P Hp. mred.
    destruct (cloudinary_config e) as [|c cs]; mred; try not_accepted accepted_snoc.
    destruct (cloudinary_configure e) as [cerr|]; mred; try not_accepted accepted_snoc.
    match goal with
    | |- context [upload_stage ?e ?d ?n ?w0] =>
        destruct (upload_stage_frame e d n w0)
          as (r & w' & Hu & Hl & Hui & He & Hur & Hc & Hcl & Hh & Hfail & Hok);
        rewrite Hu
    end.
    mred.
    destruct r as [uerr|result]; mred; [not_accepted accepted_snoc|].
    destruct (result !! "secure_url") as [url|] eqn:Hurl; mred;
      [|not_accepted accepted_snoc].
    rewrite resolve_geolocation_run. mred.
    destruct (db e); mred; [|not_accepted accepted_snoc].
    destruct (db_add e) as [derr|id]; mred; [not_accepted accepted_snoc|].
    right. cbn [snd fst]. rewrite accepted_snoc.
    split; [reflexivity|]. split; [reflexivity|].
    exists id. do 2 eexists. exists result, url. do 3 eexists.
    split; [apply Hok; reflexivity|]. split; [exact Hurl|].
    mred. rewrite Hl. mred. reflexivity.
Qed.

(** C10: when the recipient is empty once stripped, [share_file] returns
    at once ([None]) after its warning box: no random octet is drawn (no
    key, no encryption), nothing is uploaded, no record is added, and the
    file system, the clock and the network are left alone. *)
Theorem share_file_without_recipient (self : SecureShareDialog) (e : env)
    (w : world) :
  strip (recipient_input self) = "" ->
  share_file self e w
  = (inr RetNone,
     set_ui (ui w ++ [MsgWarning "Error" "Please enter a recipient email"]) w)
  /\ entropy_used (snd (share_file self e w)) = entropy_used w
  /\ uploads (snd (share_file self e w)) = uploads w
  /\ ledger (snd (share_file self e w)) = ledger w
  /\ fs (snd (share_file self e w)) = fs w
  /\ http_gets (snd (share_file self e w)) = http_gets w
  /\ clock_reads (snd (share_file self e w)) = clock_reads w.
Proof.
  intros H.
  assert (Hrun : share_file self e w
                 = (inr RetNone,
                    set_ui (ui w ++ [MsgWarning "Error"
                                       "Please enter a recipient email"]) w)).
  { unfold share_file. rewrite H. reflexivity. }
  rewrite Hrun. repeat split.
Qed.

(** A recipient of three spaces. *)
Lemma share_file_without_recipient_witness :
  strip (recipient_input Sample.dialog_no_recipient) = ""
  /\ share_file Sample.dialog_no_recipient Sample.env_ok Sample.world0
     = (inr RetNone,
        set_ui (ui Sample.world0
                ++ [MsgWarning "Error" "Please enter a recipient email"])
               Sample.world0)
  /\ entropy_used (snd (share_file Sample.dialog_no_recipient Sample.env_ok
                          Sample.world0)) = entropy_used Sample.world0
  /\ uploads (snd (share_file Sample.dialog_no_recipient Sample.env_ok
                     Sample.world0)) = uploads Sample.world0
  /\ ledger (snd (share_file Sample.dialog_no_recipient Sample.env_ok
                    Sample.world0)) = ledger Sample.world0
  /\ fs (snd (share_file Sample.dialog_no_recipient Sample.env_ok
                Sample.world0)) = fs Sample.world0
  /\ http_gets (snd (share_file Sample.dialog_no_recipient Sample.env_ok
                       Sample.world0)) = http_gets Sample.world0
  /\ clock_reads (snd (share_file Sample.dialog_no_recipient Sample.env_ok
                         Sample.world0)) = clock_reads Sample.world0.
Proof.
  split; [reflexivity|].
  apply (share_file_without_recipient Sample.dialog_no_recipient Sample.env_ok
           Sample.world0).
  reflexivity.
Defined.

(** C6, as the code has it: on a path that is missing, is no regular file
    or cannot be read, [share_file] shows the error in a box and returns
    [False], and the world is as before but for the boxes: no random octet
    drawn, nothing uploaded, no record added.  The same path stops
    [upload_file] before the share dialog is opened; there the unreadable
    file is found by the read of the first 1024 octets, in [share_file] by
    [encrypt_pdf]. *)
Theorem unusable_file_fails_without_effect (self : SecureShareDialog)
    (e e_load : env) (clicks : list click) (w : world) (m1 m2 : string) :
  truthy (strip (recipient_input self)) = true ->
  truthy (self_file_path self) = true ->
  share_file_refusal w (self_file_path self) = Some m1 ->
  upload_file_refusal w (self_file_path self) = Some m2 ->
  share_file self e w
  = (inr RetFalse,
     set_ui (ui w ++ [ProgressShown; ProgressClosed;
                      MsgCritical "Error" (share_failure_text m1)]) w)
  /\ upload_file (self_user_id self) (self_file_path self) clicks e_load w
     = (inr tt,
        set_ui (ui w ++ [MsgCritical "Error" ("Failed to upload file: " +:+ m2)])
               w).
Proof.
  intros Hr Hs H1 H2. split.
  - unfold share_file. rewrite Hr. mred. unfold share_file_try. mred.
    unfold share_file_refusal in H1.
    destruct (fs w !! self_file_path self) as [[|[err|P]]|] eqn:Hp;
      try discriminate H1; injection H1 as <-;
      repeat (mred; rewrite ?Hp).
    + rewrite <- !app_assoc. reflexivity.
    + unfold encrypt_pdf. mred. rewrite Hp. mred.
      rewrite <- !app_assoc. reflexivity.
    + rewrite <- !app_assoc. reflexivity.
  - unfold upload_file. rewrite Hs. mred.
    unfold upload_file_refusal in H2.
    destruct (fs w !! self_file_path self) as [[|[err|P]]|] eqn:Hp;
      try discriminate H2; injection H2 as <-;
      repeat (mred; rewrite ?Hp); reflexivity.
Qed.

(** [locked.pdf] exists and cannot be read. *)
Lemma unusable_file_fails_without_effect_witness :
  truthy (strip (recipient_input Sample.dialog_locked)) = true
  /\ share_file_refusal Sample.world0 (self_file_path Sample.dialog_locked)
     = Some "Failed to encrypt PDF: Encryption failed: [Errno 13] Permission denied"
  /\ upload_file_refusal Sample.world0 (self_file_path Sample.dialog_locked)
     = Some "Cannot read selected file: [Errno 13] Permission denied"
  /\ share_file Sample.dialog_locked Sample.env_ok Sample.world0
     = (inr RetFalse,
        set_ui (ui Sample.world0
                ++ [ProgressShown; ProgressClosed;
                    MsgCritical "Error"
                      (share_failure_text
                         "Failed to encrypt PDF: Encryption failed: [Errno 13] Permission denied")])
               Sample.world0)
  /\ upload_file "alice" (self_file_path Sample.dialog_locked) []
       Sample.env_ok Sample.world0
     = (inr tt,
        set_ui (ui Sample.world0
                ++ [MsgCritical "Error"
                      "Failed to upload file: Cannot read selected file: [Errno 13] Permission denied"])
               Sample.world0).
Proof.
  split; [reflexivity|]. split; [reflexivity|]. split; [reflexivity|].
  apply (unusable_file_fails_without_effect Sample.dialog_locked Sample.env_ok
           Sample.env_ok [] Sample.world0); reflexivity.
Defined.

(** C6 as stated fails: no error of the class [ValidationError] exists.
    For a file that cannot be read the two checks of [share_file] pass,
    and the failure is the one of the encryption step, a plain
    [Exception]; [share_file] itself returns [False]. *)
Lemma unreadable_file_fails_in_encrypt_pdf :
  fs Sample.world0 !! self_file_path Sample.dialog_locked
  = Some (RegularFile (inl (Exn "PermissionError" "[Errno 13] Permission denied")))
  /\ fst (share_file_try Sample.dialog_locked Sample.env_ok "bob" "View Only"
            Sample.world0)
     = inl (Exn "Exception"
              "Failed to encrypt PDF: Encryption failed: [Errno 13] Permission denied")
  /\ ~ raises_kind (fst (share_file_try Sample.dialog_locked Sample.env_ok
                           "bob" "View Only" Sample.world0))
                   "ValidationError"
  /\ fst (share_file Sample.dialog_locked Sample.env_ok Sample.world0)
     = inr RetFalse
  /\ ~ raises_kind (fst (share_file Sample.dialog_locked Sample.env_ok
                           Sample.world0))
                   "ValidationError".
Proof.
  assert (H : fst (share_file_try Sample.dialog_locked Sample.env_ok "bob"
                     "View Only" Sample.world0)
              = inl (Exn "Exception"
                       "Failed to encrypt PDF: Encryption failed: [Errno 13] Permission denied"))
    by (vm_compute; reflexivity).
  assert (H' : fst (share_file Sample.dialog_locked Sample.env_ok Sample.world0)
               = inr RetFalse) by (vm_compute; reflexivity).
  split; [vm_compute; reflexivity|]. split; [exact H|]. split.
  - rewrite H. intros (x & Hx & Hc). injection Hx as <-. discriminate Hc.
  - split; [exact H'|].
    rewrite H'. intros (x & Hx & _). discriminate Hx.
Qed.

Lemma append_inj_r (p a b : string) : p +:+ a = p +:+ b -> a = b.
Proof.
  induction p as [|c p IH]; simpl; intros H; [exact H|].
  injection H as H. apply IH, H.
Qed.

(** C3, as the code has it: when the uploader raises, [share_file] reports
    ["Failed to upload file: ..."] in its error box and returns [False];
    no record is added, so a query by any owner gives what it gave
    before. *)
Theorem upload_failure_persists_nothing (self : SecureShareDialog) (e : env)
    (w : world) (P : list byte) (err : exn) :
  truthy (strip (recipient_input self)) = true ->
  fs w !! self_file_path self = Some (RegularFile (inr P)) ->
  cloudinary_config e <> [] ->
  cloudinary_configure e = None ->
  upload_response e = inl err ->
  exists cause : string,
    fst (share_file self e w) = inr RetFalse /\
    ui (snd (share_file self e w))
    = ui w ++ [ProgressShown; ProgressClosed;
               MsgCritical "Error"
                 (share_failure_text ("Failed to upload file: " +:+ cause))] /\
    (forall p, tmp_file e = inr p -> fs w !! p = None -> tmp_write e = None ->
               cause = exn_str err) /\
    ledger (snd (share_file self e w)) = ledger w /\
    forall owner,
      query_by_owner owner (ledger (snd (share_file self e w)))
      = query_by_owner owner (ledger w).
Proof.
  intros Hr Hp Hcfg Hconf Hup.
  run_to_upload encrypt_pdf_readable e P Hr Hp Hcfg Hconf.
  match goal with
  | |- context [upload_stage ?e ?d ?n ?w0] =>
      destruct (upload_stage_frame e d n w0)
        as (r & w' & Hu & Hl & Hui & He & Hur & Hc & Hcl & Hh & Hfail & Hok);
      pose proof (upload_stage_staged e d n) as Hstaged;
      rewrite Hu
  end.
  destruct (Hfail err Hup) as [cause ->]. mred.
  exists (exn_str cause). cbn [fst snd]. mred.
  split; [reflexivity|]. split.
  { rewrite Hui. mred. rewrite <- !app_assoc. reflexivity. }
  split.
  { intros p Ht Hf Hw.
    match type of Hu with
    | upload_stage _ _ _ ?w0 = _ =>
        specialize (Hstaged p w0 Ht);
        rewrite Hstaged in Hu by (try assumption; mred; assumption)
    end.
    rewrite Hup in Hu. injection Hu as Hmsg _.
    apply append_inj_r in Hmsg. symmetry. exact Hmsg. }
  assert (Hledger : ledger w' = ledger w) by (rewrite Hl; reflexivity).
  split; [exact Hledger|]. intros owner. rewrite Hledger. reflexivity.
Qed.

(** The uploader raises while [alice] shares [report.pdf]. *)
Lemma upload_failure_persists_nothing_witness :
  truthy (strip (recipient_input Sample.dialog)) = true
  /\ fs Sample.world0 !! self_file_path Sample.dialog
     = Some (RegularFile (inr Sample.report_bytes))
  /\ cloudinary_config Sample.env_upload_fails <> []
  /\ cloudinary_configure Sample.env_upload_fails = None
  /\ upload_response Sample.env_upload_fails
     = inl (Exn "Error" "Connection reset by peer")
  /\ exists cause : string,
       fst (share_file Sample.dialog Sample.env_upload_fails Sample.world0)
       = inr RetFalse /\
       ui (snd (share_file Sample.dialog Sample.env_upload_fails Sample.world0))
       = ui Sample.world0
         ++ [ProgressShown; ProgressClosed;
             MsgCritical "Error"
               (share_failure_text ("Failed to upload file: " +:+ cause))] /\
       (forall p, tmp_file Sample.env_upload_fails = inr p ->
                  fs Sample.world0 !! p = None ->
                  tmp_write Sample.env_upload_fails = None ->
                  cause = exn_str (Exn "Error" "Connection reset by peer")) /\
       ledger (snd (share_file Sample.dialog Sample.env_upload_fails
                      Sample.world0))
       = ledger Sample.world0 /\
       forall owner,
         query_by_owner owner
           (ledger (snd (share_file Sample.dialog Sample.env_upload_fails
                           Sample.world0)))
         = query_by_owner owner (ledger Sample.world0).
Proof.
  split; [reflexivity|]. split; [reflexivity|]. split; [discriminate|].
  split; [reflexivity|]. split; [reflexivity|].
  apply (upload_failure_persists_nothing Sample.dialog Sample.env_upload_fails
           Sample.world0 Sample.report_bytes
           (Exn "Error" "Connection reset by peer")).
  - reflexivity.
  - reflexivity.
  - discriminate.
  - reflexivity.
  - reflexivity.
Defined.

(** C3 as stated fails: nothing of the class [UploadError] is raised.  The
    upload stage raises a plain [Exception], which [share_file] catches;
    the call returns [False]. *)
Lemma upload_failure_is_a_plain_exception :
  upload_response Sample.env_upload_fails
  = inl (Exn "Error" "Connection reset by peer")
  /\ fst (share_file_try Sample.dialog Sample.env_upload_fails "bob"
            "View Only" Sample.world0)
     = inl (Exn "Exception" "Failed to upload file: Connection reset by peer")
  /\ ~ raises_kind (fst (share_file_try Sample.dialog Sample.env_upload_fails
                           "bob" "View Only" Sample.world0))
                   "UploadError"
  /\ fst (share_file Sample.dialog Sample.env_upload_fails Sample.world0)
     = inr RetFalse
  /\ ~ raises_kind (fst (share_file Sample.dialog Sample.env_upload_fails
                           Sample.world0))
                   "UploadError".
Proof.
  assert (H : fst (share_file_try Sample.dialog Sample.env_upload_fails "bob"
                     "View Only" Sample.world0)
              = inl (Exn "Exception"
                       "Failed to upload file: Connection reset by peer"))
    by (vm_compute; reflexivity).
  assert (H' : fst (share_file Sample.dialog Sample.env_upload_fails
                      Sample.world0) = inr RetFalse)
    by (vm_compute; reflexivity).
  split; [reflexivity|]. split; [exact H|]. split.
  - rewrite H. intros (x & Hx & Hc). injection Hx as <-. discriminate Hc.
  - split; [exact H'|].
    rewrite H'. intros (x & Hx & _). discriminate Hx.
Qed.

(** C8, as the code has it: once the temporary file is written, the upload
    is attempted from it and [os.unlink] is called on it before [share_file]
    returns, whether the uploader answers or raises; when that call
    succeeds the file is gone and the file system is as it was. *)
Theorem staging_file_removed_when_unlink_succeeds (self : SecureShareDialog)
    (e : env) (w : world) (P : list byte) (p : string) :
  truthy (strip (recipient_input self)) = true ->
  fs w !! self_file_path self = Some (RegularFile (inr P)) ->
  cloudinary_config e <> [] ->
  cloudinary_configure e = None ->
  tmp_file e = inr p -> fs w !! p = None -> tmp_write e = None ->
  unlink_error e = None ->
  (exists data name,
     uploads (snd (share_file self e w))
     = uploads w ++ [UploadCall p data ("secure_pdfs/" +:+ name)])
  /\ fs (snd (share_file self e w)) !! p = None
  /\ fs (snd (share_file self e w)) = fs w.
Proof.
  intros Hr Hp Hcfg Hconf Ht Hf Hw Hun.
  assert (Hfs : fs (snd (share_file self e w)) = fs w
                /\ exists data name,
                     uploads (snd (share_file self e w))
                     = uploads w ++ [UploadCall p data ("secure_pdfs/" +:+ name)]).
  { run_to_upload encrypt_pdf_readable e P Hr Hp Hcfg Hconf.
    match goal with
    | |- context [upload_stage ?e ?d ?n ?w0] =>
        rewrite (upload_stage_staged e d n p w0) by (try assumption; mred; assumption)
    end.
    rewrite Hun.
    destruct (upload_response e) as [uerr|result]; mred.
    { split; [reflexivity|]. do 2 eexists. reflexivity. }
    destruct (result !! "secure_url") as [url|]; mred.
    2:{ split; [reflexivity|]. do 2 eexists. reflexivity. }
    rewrite resolve_geolocation_run. mred.
    destruct (db e); mred.
    2:{ split; [reflexivity|]. do 2 eexists. reflexivity. }
    destruct (db_add e) as [derr|id]; mred;
      (split; [reflexivity|]; do 2 eexists; reflexivity). }
  destruct Hfs as [Hfs Hupl].
  split; [exact Hupl|]. split; [rewrite Hfs; exact Hf|exact Hfs].
Qed.

(** The uploader raises, [os.unlink] works: the temporary file is gone. *)
Lemma staging_file_removed_when_unlink_succeeds_witness :
  truthy (strip (recipient_input Sample.dialog)) = true
  /\ fs Sample.world0 !! self_file_path Sample.dialog
     = Some (RegularFile (inr Sample.report_bytes))
  /\ cloudinary_config Sample.env_upload_fails <> []
  /\ cloudinary_configure Sample.env_upload_fails = None
  /\ tmp_file Sample.env_upload_fails = inr Sample.tmp_path
  /\ fs Sample.world0 !! Sample.tmp_path = None
  /\ tmp_write Sample.env_upload_fails = None
  /\ unlink_error Sample.env_upload_fails = None
  /\ (exists data name,
        uploads (snd (share_file Sample.dialog Sample.env_upload_fails
                        Sample.world0))
        = uploads Sample.world0
          ++ [UploadCall Sample.tmp_path data ("secure_pdfs/" +:+ name)])
  /\ fs (snd (share_file Sample.dialog Sample.env_upload_fails Sample.world0))
     !! Sample.tmp_path = None
  /\ fs (snd (share_file Sample.dialog Sample.env_upload_fails Sample.world0))
     = fs Sample.world0.
Proof.
  split; [reflexivity|]. split; [reflexivity|]. split; [discriminate|].
  split; [reflexivity|]. split; [reflexivity|]. split; [reflexivity|].
  split; [reflexivity|]. split; [reflexivity|].
  apply (staging_file_removed_when_unlink_succeeds Sample.dialog
           Sample.env_upload_fails Sample.world0 Sample.report_bytes
           Sample.tmp_path).
  - reflexivity.
  - reflexivity.
  - discriminate.
  - reflexivity.
  - reflexivity.
  - reflexivity.
  - reflexivity.
  - reflexivity.
Defined.

(** C8 as stated fails: [os.unlink] is called inside a [try] whose handler
    only logs.  When it raises, the share goes on (here it is even
    accepted) and the temporary file, with the encrypted buffer in it, is
    still there when [share_file] returns. *)
Lemma staging_file_left_when_unlink_fails :
  unlink_error Sample.env_unlink_fails
  = Some (Exn "PermissionError"
              "[WinError 32] The process cannot access the file")
  /\ fs Sample.world0 !! Sample.tmp_path = None
  /\ map up_path (uploads (snd (share_file Sample.dialog Sample.env_unlink_fails
                                  Sample.world0)))
     = [Sample.tmp_path]
  /\ accepted (snd (share_file Sample.dialog Sample.env_unlink_fails
                      Sample.world0)) = true
  /\ fs (snd (share_file Sample.dialog Sample.env_unlink_fails Sample.world0))
     !! Sample.tmp_path
     = Some (RegularFile (inr (serialize Sample.encrypted))).
Proof.
  split; [reflexivity|]. split; [reflexivity|].
  split; [vm_compute; reflexivity|]. split; vm_compute; reflexivity.
Qed.

(** C4: when [share_file] is accepted, exactly one record has been added.
    Its [file_name] is the dialog's, its [access_records] hold one event,
    an ["upload"], and its [share_chain] one event whose [shared_with] is
    the recipient (the text of the input, stripped) and whose
    [access_level] is the chosen one. *)
Theorem accepted_share_persists_one_record (self : SecureShareDialog)
    (e : env) (w : world) :
  accepted (snd (share_file self e w)) = true ->
  exists (id : string) (d : doc) (access share : event),
    ledger (snd (share_file self e w)) = ledger w ++ [(id, d)] /\
    file_name d = Some (self_file_name self) /\
    owner_id d = Some (self_user_id self) /\
    access_records d = Some [access] /\
    access !! "action" = Some "upload" /\
    share_chain d = Some [share] /\
    share !! "shared_with" = Some (strip (recipient_input self)) /\
    share !! "access_level" = Some (access_combo self).
Proof.
  intros Hacc.
  destruct (share_file_cases self e w) as [[Hno _]|(_ & _ & Hyes)];
    [congruence|].
  destruct Hyes as (id & sf & key & result & url & t1 & t2 & t3 & _ & _ & Hl).
  do 4 eexists. split; [exact Hl|].
  repeat split; reflexivity.
Qed.

(** The share of [report.pdf] with [bob]. *)
Lemma accepted_share_persists_one_record_witness :
  accepted (snd (share_file Sample.dialog Sample.env_ok Sample.world0)) = true
  /\ exists (id : string) (d : doc) (access share : event),
       ledger (snd (share_file Sample.dialog Sample.env_ok Sample.world0))
       = ledger Sample.world0 ++ [(id, d)] /\
       file_name d = Some "report.pdf" /\
       owner_id d = Some "alice" /\
       access_records d = Some [access] /\
       access !! "action" = Some "upload" /\
       share_chain d = Some [share] /\
       share !! "shared_with" = Some "bob" /\
       share !! "access_level" = Some "View Only".
Proof.
  split; [vm_compute; reflexivity|].
  apply (accepted_share_persists_one_record Sample.dialog Sample.env_ok
           Sample.world0).
  vm_compute. reflexivity.
Defined.

(** ** Geolocation *)

Lemma geolocation_fails_unknown (e : env) :
  geolocation_fails e -> geolocation_of e = "Unknown".
Proof.
  unfold geolocation_fails, geolocation_of.
  destruct (geo_response e) as [err|[err|[members|]]]; tauto.
Qed.

(** The answer of the geolocation endpoint decides neither how [share_file]
    returns nor what it shows, uploads, or leaves on disk, nor whether and
    under which id a record is added. *)
Lemma share_file_geo_independent (self : SecureShareDialog) (e : env)
    (w : world) (g : result (result json)) :
  fst (share_file self (set_geo_response g e) w) = fst (share_file self e w)
  /\ ui (snd (share_file self (set_geo_response g e) w))
     = ui (snd (share_file self e w))
  /\ uploads (snd (share_file self (set_geo_response g e) w))
     = uploads (snd (share_file self e w))
  /\ fs (snd (share_file self (set_geo_response g e) w))
     = fs (snd (share_file self e w))
  /\ map fst (ledger (snd (share_file self (set_geo_response g e) w)))
     = map fst (ledger (snd (share_file self e w))).
Proof.
  unfold share_file.
  destruct (truthy (strip (recipient_input self))) eqn:Hr; mred;
    [|repeat split].
  unfold share_file_try.
  change (upload_stage (set_geo_response g e)) with (upload_stage e).
  mred; env_red.
  destruct (fs w !! self_file_path self) as [[|[err|P]]|] eqn:Hp;
    repeat (mred; env_red; rewrite ?Hp); try (repeat split; fail).
  - run_encrypt_unreadable encrypt_pdf_unreadable Hp. mred. repeat split.
  - run_encrypt_readable encrypt_pdf_readable P Hp. mred; env_red.
    destruct (cloudinary_config e) as [|c cs]; mred; env_red; [repeat split|].
    destruct (cloudinary_configure e) as [cerr|]; mred; env_red;
      [repeat split|].
    match goal with
    | |- context [upload_stage ?e ?d ?n ?w0] =>
        destruct (upload_stage e d n w0) as [r w']
    end.
    destruct r as [uerr|result]; mred; env_red; [repeat split|].
    destruct (result !! "secure_url") as [url|]; mred; env_red;
      [|repeat split].
    rewrite !resolve_geolocation_run. mred; env_red.
    destruct (db e); mred; env_red; [|repeat split].
    destruct (db_add e) as [derr|id]; mred; env_red; [repeat split|].
    cbn [fst snd]. mred. repeat split.
    rewrite !map_app. reflexivity.
Qed.

(** C7: when the geolocation lookup fails, [share_file] behaves as under
    any other answer of the endpoint: it returns the same, shows the same
    boxes, uploads the same and adds a record under the same id; and the
    record an accepted share adds carries the location ["Unknown"] in its
    upload event and in its share event. *)
Theorem geolocation_failure_is_absorbed (self : SecureShareDialog) (e : env)
    (w : world) :
  geolocation_fails e ->
  (forall g : result (result json),
     fst (share_file self (set_geo_response g e) w) = fst (share_file self e w)
     /\ ui (snd (share_file self (set_geo_response g e) w))
        = ui (snd (share_file self e w))
     /\ uploads (snd (share_file self (set_geo_response g e) w))
        = uploads (snd (share_file self e w))
     /\ map fst (ledger (snd (share_file self (set_geo_response g e) w)))
        = map fst (ledger (snd (share_file self e w))))
  /\ (accepted (snd (share_file self e w)) = true ->
      exists (id : string) (d : doc) (access share : event),
        ledger (snd (share_file self e w)) = ledger w ++ [(id, d)] /\
        access_records d = Some [access] /\
        access !! "location" = Some "Unknown" /\
        share_chain d = Some [share] /\
        share !! "location" = Some "Unknown").
Proof.
  intros Hfail. split.
  - intros g.
    destruct (share_file_geo_independent self e w g) as (H1 & H2 & H3 & _ & H5).
    auto.
  - intros Hacc.
    destruct (share_file_cases self e w) as [[Hno _]|(_ & _ & Hyes)];
      [congruence|].
    destruct Hyes as (id & sf & key & result & url & t1 & t2 & t3 & _ & _ & Hl).
    rewrite (geolocation_fails_unknown e Hfail) in Hl.
    do 4 eexists. split; [exact Hl|].
    repeat split; reflexivity.
Qed.

(** The endpoint cannot be reached, and the share is accepted all the same. *)
Lemma geolocation_failure_is_absorbed_witness :
  geolocation_fails Sample.env_geo_fails
  /\ accepted (snd (share_file Sample.dialog Sample.env_geo_fails
                      Sample.world0)) = true
  /\ (forall g : result (result json),
        fst (share_file Sample.dialog
               (set_geo_response g Sample.env_geo_fails) Sample.world0)
        = fst (share_file Sample.dialog Sample.env_geo_fails Sample.world0)
        /\ ui (snd (share_file Sample.dialog
                      (set_geo_response g Sample.env_geo_fails) Sample.world0))
           = ui (snd (share_file Sample.dialog Sample.env_geo_fails
                        Sample.world0))
        /\ uploads (snd (share_file Sample.dialog
                           (set_geo_response g Sample.env_geo_fails)
                           Sample.world0))
           = uploads (snd (share_file Sample.dialog Sample.env_geo_fails
                             Sample.world0))
        /\ map fst (ledger (snd (share_file Sample.dialog
                                   (set_geo_response g Sample.env_geo_fails)
                                   Sample.world0)))
           = map fst (ledger (snd (share_file Sample.dialog
                                     Sample.env_geo_fails Sample.world0))))
  /\ (accepted (snd (share_file Sample.dialog Sample.env_geo_fails
                       Sample.world0)) = true ->
      exists (id : string) (d : doc) (access share : event),
        ledger (snd (share_file Sample.dialog Sample.env_geo_fails
                       Sample.world0))
        = ledger Sample.world0 ++ [(id, d)] /\
        access_records d = Some [access] /\
        access !! "location" = Some "Unknown" /\
        share_chain d = Some [share] /\
        share !! "location" = Some "Unknown").
Proof.
  split; [exact I|]. split; [vm_compute; reflexivity|].
  apply (geolocation_failure_is_absorbed Sample.dialog Sample.env_geo_fails
           Sample.world0).
  exact I.
Defined.

(** ** The order of strings and the sort of [list.sort] *)

Lemma ascii_compare_eq (a b : ascii) : Ascii.compare a b = Eq -> a = b.
Proof.
  unfold Ascii.compare. intros H. apply N.compare_eq in H.
  rewrite <- (Ascii.ascii_N_embedding a), <- (Ascii.ascii_N_embedding b), H.
  reflexivity.
Qed.

Lemma ascii_compare_lt_trans (a b c : ascii) :
  Ascii.compare a b = Lt -> Ascii.compare b c = Lt -> Ascii.compare a c = Lt.
Proof.
  unfold Ascii.compare. rewrite !N.compare_lt_iff. apply N.lt_trans.
Qed.

Lemma str_lt_spec (a b : string) : str_lt a b = true <-> String.compare a b = Lt.
Proof. unfold str_lt. destruct (String.compare a b); split; congruence. Qed.

Lemma str_lt_irrefl (a : string) : str_lt a a = false.
Proof.
  unfold str_lt. destruct (String.compare a a) eqn:H; try reflexivity.
  pose proof (String.compare_antisym a a) as Ha. rewrite H in Ha.
  discriminate Ha.
Qed.

Lemma str_lt_trans (a b c : string) :
  str_lt a b = true -> str_lt b c = true -> str_lt a c = true.
Proof.
  rewrite !str_lt_spec. revert b c.
  induction a as [|x a IH]; intros [|y b] [|z c]; simpl; try congruence.
  destruct (Ascii.compare x y) eqn:Hxy; try congruence;
    destruct (Ascii.compare y z) eqn:Hyz; try congruence; intros H1 H2.
  - apply ascii_compare_eq in Hxy, Hyz. subst.
    replace (Ascii.compare z z) with Eq
      by (symmetry; unfold Ascii.compare; apply N.compare_refl).
    eapply IH; eassumption.
  - apply ascii_compare_eq in Hxy. subst. rewrite Hyz. reflexivity.
  - apply ascii_compare_eq in Hyz. subst. rewrite Hxy. reflexivity.
  - rewrite (ascii_compare_lt_trans _ _ _ Hxy Hyz). reflexivity.
Qed.

(** Trichotomy: of two strings neither of which is below the other, each
    is the other. *)
Lemma str_lt_total (a b : string) :
  str_lt a b = false -> str_lt b a = false -> a = b.
Proof.
  unfold str_lt. rewrite (String.compare_antisym b a).
  destruct (String.compare a b) eqn:H; simpl; try congruence.
  intros _ _. apply String.compare_eq_iff, H.
Qed.

Lemma str_le_trans (a b c : string) :
  str_lt b a = false -> str_lt c b = false -> str_lt c a = false.
Proof.
  intros Hab Hbc. destruct (str_lt c a) eqn:Hca; [|reflexivity].
  destruct (str_lt b c) eqn:Hbc'.
  - rewrite (str_lt_trans b c a Hbc' Hca) in Hab. discriminate.
  - assert (b = c) by (apply str_lt_total; assumption). subst.
    congruence.
Qed.

Lemma leb_not_lt (a b : string) :
  String.leb b a = true <-> str_lt a b = false.
Proof.
  unfold String.leb, str_lt. rewrite (String.compare_antisym b a).
  destruct (String.compare a b); simpl; split; congruence.
Qed.

Section SortFacts.
Context {A : Type} (key : A -> string).

Lemma insert_sorted_Forall (P : A -> Prop) (x : A) (l : list A) :
  P x -> Forall P l -> Forall P (insert_sorted key x l).
Proof.
  intros Hx Hl. induction Hl as [|y l Hy Hl IH]; simpl.
  - constructor; [exact Hx|constructor].
  - destruct (str_lt (key y) (key x)); repeat constructor; assumption.
Qed.

Lemma insert_sorted_sorted (x : A) (l : list A) :
  StronglySorted (key_le key) l -> StronglySorted (key_le key) (insert_sorted key x l).
Proof.
  intros Hs. induction Hs as [|y l Hs IH Hy]; simpl.
  - constructor; [constructor|constructor].
  - destruct (str_lt (key y) (key x)) eqn:Hyx.
    + constructor; [exact IH|].
      apply insert_sorted_Forall; [|exact Hy].
      unfold key_le. destruct (str_lt (key x) (key y)) eqn:Hxy; [|reflexivity].
      pose proof (str_lt_trans _ _ _ Hyx Hxy) as Hc.
      rewrite str_lt_irrefl in Hc. discriminate Hc.
    + constructor; [constructor; assumption|].
      constructor; [exact Hyx|].
      eapply Forall_impl; [exact Hy|].
      intros z Hz. unfold key_le in *. eapply str_le_trans; eassumption.
Qed.

Lemma stable_sort_sorted (l : list A) : StronglySorted (key_le key) (stable_sort key l).
Proof.
  induction l as [|x l IH]; simpl; [constructor|].
  apply insert_sorted_sorted, IH.
Qed.

Lemma insert_sorted_perm (x : A) (l : list A) :
  Permutation (insert_sorted key x l) (x :: l).
Proof.
  induction l as [|y l IH]; simpl; [reflexivity|].
  destruct (str_lt (key y) (key x)); [|reflexivity].
  rewrite IH. apply perm_swap.
Qed.

Lemma stable_sort_perm (l : list A) : Permutation (stable_sort key l) l.
Proof.
  induction l as [|x l IH]; simpl; [reflexivity|].
  rewrite insert_sorted_perm, IH. reflexivity.
Qed.

(** Among the elements of one key, the inserted one comes first and the
    others keep their places. *)
Lemma insert_sorted_filter (t : string) (x : A) (l : list A) :
  filter (fun a => key a = t) (insert_sorted key x l)
  = filter (fun a => key a = t) (x :: l).
Proof.
  induction l as [|y l IH]; simpl; [reflexivity|].
  destruct (str_lt (key y) (key x)) eqn:Hyx; [|reflexivity].
  rewrite (filter_cons _ y), IH, !(filter_cons _ x), (filter_cons _ y).
  destruct (decide (key y = t)) as [Hy|Hy];
    destruct (decide (key x = t)) as [Hx|Hx]; try reflexivity.
  rewrite Hy, Hx, str_lt_irrefl in Hyx. discriminate.
Qed.

Lemma stable_sort_filter (t : string) (l : list A) :
  filter (fun a => key a = t) (stable_sort key l)
  = filter (fun a => key a = t) l.
Proof.
  induction l as [|x l IH]; simpl; [reflexivity|].
  rewrite insert_sorted_filter, !(filter_cons _ x), IH. reflexivity.
Qed.

Lemma StronglySorted_snoc (R : A -> A -> Prop) (l : list A) (x : A) :
  StronglySorted R l -> Forall (fun y => R y x) l ->
  StronglySorted R (l ++ [x]).
Proof.
  intros Hs. induction Hs as [|y l Hs IH Hy]; intros Hx; simpl.
  - constructor; constructor.
  - inversion Hx as [|? ? Hyx Hlx]; subst.
    constructor; [apply IH, Hlx|].
    apply Forall_app. split; [exact Hy|]. constructor; [exact Hyx|constructor].
Qed.

Lemma StronglySorted_reverse (R : A -> A -> Prop) (l : list A) :
  StronglySorted R l -> StronglySorted (fun a b => R b a) (reverse l).
Proof.
  intros Hs. induction Hs as [|y l Hs IH Hy]; [constructor|].
  rewrite reverse_cons. apply StronglySorted_snoc; [exact IH|].
  apply Forall_reverse. exact Hy.
Qed.

(** [list.sort(key=key, reverse=True)] leaves the keys non-increasing. *)
Lemma sort_reverse_sorted (l : list A) :
  StronglySorted (fun a b => String.leb (key b) (key a) = true)
                 (sort_reverse key l).
Proof.
  unfold sort_reverse.
  pose proof (StronglySorted_reverse _ _ (stable_sort_sorted (reverse l))) as H.
  induction H as [|x m Hm IH Hx]; constructor; [exact IH|].
  eapply Forall_impl; [exact Hx|].
  intros y Hy. unfold key_le in Hy. apply leb_not_lt. exact Hy.
Qed.

Lemma sort_reverse_perm (l : list A) : Permutation (sort_reverse key l) l.
Proof.
  unfold sort_reverse.
  rewrite reverse_Permutation, stable_sort_perm, reverse_Permutation.
  reflexivity.
Qed.

(** It is stable: the elements of one key keep the order they came in. *)
Lemma sort_reverse_stable (t : string) (l : list A) :
  filter (fun a => key a = t) (sort_reverse key l)
  = filter (fun a => key a = t) l.
Proof.
  unfold sort_reverse.
  rewrite filter_reverse, stable_sort_filter, filter_reverse, reverse_involutive.
  reflexivity.
Qed.

End SortFacts.

Example sort_reverse_keeps_ties_in_order :
  sort_reverse fst [("b", 1); ("a", 2); ("b", 3); ("c", 4); ("a", 5)]
  = [("c", 4); ("b", 1); ("b", 3); ("a", 2); ("a", 5)].
Proof. reflexivity. Qed.

(** ** Loading the access history *)

(** With the database at hand and answering, the table is what the sort
    makes of the flattened records of the owner. *)
Lemma load_file_access_records_run (user_id : string) (e : env) (w : world) :
  db e = true -> db_get e = None ->
  fst (load_file_access_records user_id e w) = inr tt
  /\ files_table (snd (load_file_access_records user_id e w))
     = sort_reverse row_time
         (flat_map flatten_doc (query_by_owner user_id (ledger w)))
  /\ ledger (snd (load_file_access_records user_id e w)) = ledger w
  /\ ui (snd (load_file_access_records user_id e w)) = ui w.
Proof.
  intros Hdb Hget. unfold load_file_access_records. mred.
  rewrite Hdb. mred. rewrite Hget. mred. repeat split.
Qed.

(** C5: the table [load_file_access_records] fills is sorted by [time],
    non-increasing under the order of strings, and it is the flattened list
    of the owner's records rearranged stably: the rows of one [time] stand
    in the order in which the flattening produced them. *)
Theorem load_access_history_sorted_and_stable (user_id : string) (e : env)
    (w : world) :
  db e = true -> db_get e = None ->
  fst (load_file_access_records user_id e w) = inr tt
  /\ StronglySorted
       (fun r1 r2 => String.leb (row_time r2) (row_time r1) = true)
       (files_table (snd (load_file_access_records user_id e w)))
  /\ Permutation
       (files_table (snd (load_file_access_records user_id e w)))
       (flat_map flatten_doc (query_by_owner user_id (ledger w)))
  /\ forall t : string,
       filter (fun r => row_time r = t)
              (files_table (snd (load_file_access_records user_id e w)))
       = filter (fun r => row_time r = t)
                (flat_map flatten_doc (query_by_owner user_id (ledger w))).
Proof.
  intros Hdb Hget.
  destruct (load_file_access_records_run user_id e w Hdb Hget)
    as (Hret & Htable & _ & _).
  rewrite Htable. split; [exact Hret|]. split; [apply sort_reverse_sorted|].
  split; [apply sort_reverse_perm|]. intros t. apply sort_reverse_stable.
Qed.

(** The table [alice] loads after her share: the share row, a second younger, comes first. *)
Lemma load_access_history_sorted_and_stable_witness :
  files_table (snd (load_file_access_records "alice" Sample.env_ok
                      Sample.world1))
  = [Row "report.pdf" "Shared with: bob" "Hyderabad, India" "View Only"
         "2025-03-14 09:26:03" "doc1" "share";
     Row "report.pdf" "Unknown" "Hyderabad, India" "Unknown"
         "2025-03-14 09:26:02" "doc1" "upload"]
  /\ fst (load_file_access_records "alice" Sample.env_ok Sample.world1) = inr tt
  /\ StronglySorted
       (fun r1 r2 => String.leb (row_time r2) (row_time r1) = true)
       (files_table (snd (load_file_access_records "alice" Sample.env_ok
                            Sample.world1)))
  /\ Permutation
       (files_table (snd (load_file_access_records "alice" Sample.env_ok
                            Sample.world1)))
       (flat_map flatten_doc (query_by_owner "alice" (ledger Sample.world1)))
  /\ forall t : string,
       filter (fun r => row_time r = t)
              (files_table (snd (load_file_access_records "alice" Sample.env_ok
                                   Sample.world1)))
       = filter (fun r => row_time r = t)
                (flat_map flatten_doc
                   (query_by_owner "alice" (ledger Sample.world1))).
Proof.
  split; [vm_compute; reflexivity|].
  apply (load_access_history_sorted_and_stable "alice" Sample.env_ok
           Sample.world1); reflexivity.
Defined.

(** In the rows of a record of the shape [share_file] writes, an upload
    row shows ["Unknown"] as its actor. *)
Lemma flatten_made_by_share_file (x : string * doc) (r : row) :
  made_by_share_file (snd x) -> r ∈ flatten_doc x ->
  row_action r = "upload" -> row_user_name r = "Unknown".
Proof.
  destruct x as [id d].
  intros (self & rc & al & sf & key & url & geo & t1 & t2 & t3 & Hd) Hr Hact.
  cbn [snd] in Hd. subst d. unfold flatten_doc in Hr. cbn in Hr.
  apply elem_of_cons in Hr as [->|Hr]; [discriminate Hact|].
  apply list_elem_of_singleton in Hr as ->. reflexivity.
Qed.

(** C9: the upload event [share_file] writes carries the owner under
    ["user_id"] and has no ["user_name"]; the row the flattening makes of
    it therefore shows ["Unknown"] as its actor, whoever the owner is, and
    that is the row the owner finds in the loaded table.  When every
    record of the ledger was written by [share_file], every upload row of
    the loaded table shows ["Unknown"]. *)
Theorem upload_event_actor_shows_unknown (self : SecureShareDialog)
    (e e_load : env) (w : world) :
  accepted (snd (share_file self e w)) = true ->
  db e_load = true -> db_get e_load = None ->
  exists (id : string) (d : doc) (access : event),
    ledger (snd (share_file self e w)) = ledger w ++ [(id, d)] /\
    access_records d = Some [access] /\
    access !! "user_id" = Some (self_user_id self) /\
    access !! "user_name" = None /\
    (forall r, r ∈ flatten_doc (id, d) -> row_action r = "upload" ->
               row_user_name r = "Unknown") /\
    (exists r,
       r ∈ files_table
             (snd (load_file_access_records (self_user_id self) e_load
                     (snd (share_file self e w)))) /\
       r ∈ flatten_doc (id, d) /\
       row_action r = "upload" /\ row_user_name r = "Unknown") /\
    (Forall (fun x => made_by_share_file (snd x)) (ledger w) ->
     forall r,
       r ∈ files_table
             (snd (load_file_access_records (self_user_id self) e_load
                     (snd (share_file self e w)))) ->
       row_action r = "upload" -> row_user_name r = "Unknown").
Proof.
  intros Hacc Hdb Hget.
  destruct (share_file_cases self e w) as [[Hno _]|(_ & _ & Hyes)];
    [congruence|].
  destruct Hyes as (id & sf & key & result & url & t1 & t2 & t3 & _ & _ & Hl).
  destruct (load_file_access_records_run (self_user_id self) e_load
              (snd (share_file self e w)) Hdb Hget) as (_ & Htable & _ & _).
  do 3 eexists. split; [exact Hl|].
  split; [reflexivity|]. split; [reflexivity|]. split; [reflexivity|].
  split; [|split].
  - intros r Hr Hact.
    apply (flatten_made_by_share_file _ r) in Hr; [exact Hr| |exact Hact].
    cbn [snd]. unfold made_by_share_file. do 10 eexists. reflexivity.
  - rewrite Htable, Hl.
    eexists. split; [|split; [|split]].
    + rewrite sort_reverse_perm. apply list_elem_of_In, in_flat_map.
      eexists. split.
      * apply list_elem_of_In. unfold query_by_owner.
        apply list_elem_of_filter. split; [|apply elem_of_app; right;
                                             apply list_elem_of_singleton;
                                             reflexivity].
        reflexivity.
      * apply list_elem_of_In. unfold flatten_doc. cbn.
        apply elem_of_cons. right. apply list_elem_of_singleton. reflexivity.
    + unfold flatten_doc. cbn.
      apply elem_of_cons. right. apply list_elem_of_singleton. reflexivity.
    + reflexivity.
    + reflexivity.
  - intros Hall r Hr Hact. rewrite Htable, Hl in Hr.
    rewrite sort_reverse_perm in Hr.
    apply list_elem_of_In, in_flat_map in Hr as (x & Hx & Hr).
    apply list_elem_of_In in Hx, Hr.
    unfold query_by_owner in Hx. apply list_elem_of_filter in Hx as [_ Hx].
    apply (flatten_made_by_share_file x r); [|exact Hr|exact Hact].
    apply elem_of_app in Hx as [Hx|Hx].
    + rewrite Forall_forall in Hall. apply Hall, Hx.
    + apply list_elem_of_singleton in Hx as ->. cbn [snd].
      unfold made_by_share_file. do 10 eexists. reflexivity.
Qed.

(** The upload row of the record [alice] made. *)
Lemma upload_event_actor_shows_unknown_witness :
  accepted (snd (share_file Sample.dialog Sample.env_ok Sample.world0)) = true
  /\ exists (id : string) (d : doc) (access : event),
       ledger (snd (share_file Sample.dialog Sample.env_ok Sample.world0))
       = ledger Sample.world0 ++ [(id, d)] /\
       access_records d = Some [access] /\
       access !! "user_id" = Some "alice" /\
       access !! "user_name" = None /\
       (forall r, r ∈ flatten_doc (id, d) -> row_action r = "upload" ->
                  row_user_name r = "Unknown") /\
       (exists r,
          r ∈ files_table
                (snd (load_file_access_records "alice" Sample.env_ok
                        (snd (share_file Sample.dialog Sample.env_ok
                                Sample.world0)))) /\
          r ∈ flatten_doc (id, d) /\
          row_action r = "upload" /\ row_user_name r = "Unknown") /\
       (Forall (fun x => made_by_share_file (snd x)) (ledger Sample.world0) ->
        forall r,
          r ∈ files_table
                (snd (load_file_access_records "alice" Sample.env_ok
                        (snd (share_file Sample.dialog Sample.env_ok
                                Sample.world0)))) ->
          row_action r = "upload" -> row_user_name r = "Unknown").
Proof.
  split; [vm_compute; reflexivity|].
  apply (upload_event_actor_shows_unknown Sample.dialog Sample.env_ok
           Sample.env_ok Sample.world0).
  - vm_compute. reflexivity.
  - reflexivity.
  - reflexivity.
Defined.

(** ** The share as a whole *)

(** When the write of the temporary file raises, [tmp_path] is never bound:
    the [os.unlink] of the [finally] block fails on the unbound name, its
    handler swallows that, and the file created for the upload stays. *)
Example staging_file_left_when_write_fails :
  fst (share_file Sample.dialog Sample.env_write_fails Sample.world0)
  = inr RetFalse
  /\ uploads (snd (share_file Sample.dialog Sample.env_write_fails
                     Sample.world0)) = []
  /\ fs (snd (share_file Sample.dialog Sample.env_write_fails Sample.world0))
     !! Sample.tmp_path = Some (RegularFile (inr [])).
Proof. repeat split; vm_compute; reflexivity. Qed.

(** The scenario of the specification: [report.pdf], ten octets, shared by
    [alice] with [bob], access [View Only]. *)
Example share_report_scenario :
  fst (share_file Sample.dialog Sample.env_ok Sample.world0) = inr RetNone
  /\ ui Sample.world1
     = [ProgressShown; ProgressClosed;
        MsgInformation "Success"
          "File 'report.pdf' has been securely shared with bob";
        DialogAccepted]
  /\ map (fun x => (fst x, file_name (snd x), owner_id (snd x),
                    secure_filename (snd x), encryption_key (snd x)))
         (ledger Sample.world1)
     = [("doc1", Some "report.pdf", Some "alice",
         Some "20250314_092600_q9D1Gj9kia4=_report.pdf",
         Some "0b30557a9fc4e90e33587da2c7ec1136")]
  /\ map (fun u => (up_path u, up_public_id u)) (uploads Sample.world1)
     = [(Sample.tmp_path,
         "secure_pdfs/20250314_092600_q9D1Gj9kia4=_report.pdf")]
  /\ map up_data (uploads Sample.world1) = [serialize Sample.encrypted]
  /\ decrypt_pdf (serialize Sample.encrypted)
       (fromhex "0b30557a9fc4e90e33587da2c7ec1136")
     = inr Sample.report_bytes
  /\ fs Sample.world1 = fs Sample.world0.
Proof. repeat split; vm_compute; reflexivity. Qed.

(** ** The outcomes of [share_file] *)

(** When the upload stage returns, the temporary file had been written and
    the uploader answered. *)
Lemma upload_stage_effects (e : env) (data : list byte) (name : string)
    (w : world) :
  exists r w',
    upload_stage e data name w = (r, w') /\
    ledger w' = ledger w /\ ui w' = ui w /\
    entropy_used w' = entropy_used w /\ clock_reads w' = clock_reads w /\
    http_gets w' = http_gets w /\ files_table w' = files_table w /\
    (uploads w' = uploads w \/ exists up, uploads w' = uploads w ++ [up]) /\
    (forall result, r = inr result ->
       exists p, tmp_file e = inr p /\ fs w !! p = None /\
                 tmp_write e = None /\ upload_response e = inr result /\
                 exists up, uploads w' = uploads w ++ [up]).
Proof.
  unfold upload_stage. mred.
  destruct (tmp_file e) as [terr|p]; mred.
  { do 2 eexists. split; [reflexivity|]. repeat split; eauto; discriminate. }
  destruct (fs w !! p) as [n|] eqn:Hp; mred.
  { do 2 eexists. split; [reflexivity|]. repeat split; eauto; discriminate. }
  destruct (tmp_write e) as [werr|] eqn:Hw; mred.
  { do 2 eexists. split; [reflexivity|]. repeat split; eauto; discriminate. }
  rewrite lookup_insert_eq. mred.
  destruct (upload_response e) as [err|r]; mred;
    destruct (unlink_error e) as [uerr|]; mred;
    rewrite ?lookup_insert_eq; mred;
    (do 2 eexists; split; [reflexivity|]; repeat split; eauto;
     try discriminate;
     intros result Hres; injection Hres as <-; exists p; eauto 10).
Qed.

(** A call of [share_file] that gets past its recipient check either fails
    with one error box, the ledger as before, or meets every condition of
    an accepted share. *)
Lemma share_file_outcome (self : SecureShareDialog) (e : env) (w : world) :
  truthy (strip (recipient_input self)) = true ->
  (exists msg,
     fst (share_file self e w) = inr RetFalse /\
     ui (snd (share_file self e w)) = ui w ++ failure_boxes msg /\
     ledger (snd (share_file self e w)) = ledger w /\
     files_table (snd (share_file self e w)) = files_table w /\
     ((uploads (snd (share_file self e w)) = uploads w /\
       http_gets (snd (share_file self e w)) = http_gets w)
      \/ exists up,
           uploads (snd (share_file self e w)) = uploads w ++ [up] /\
           (http_gets (snd (share_file self e w)) = http_gets w \/
            http_gets (snd (share_file self e w))
            = http_gets w ++ ["https://ipapi.co/json/"])))
  \/
  (exists P p result url id,
     fs w !! self_file_path self = Some (RegularFile (inr P)) /\
     cloudinary_config e <> [] /\ cloudinary_configure e = None /\
     tmp_file e = inr p /\ fs w !! p = None /\ tmp_write e = None /\
     upload_response e = inr result /\ result !! "secure_url" = Some url /\
     db e = true /\ db_add e = inr id).
Proof.
  intros Hr. unfold share_file. rewrite Hr. mred.
  unfold share_file_try. mred.
  assert (Hfail : forall (msg : string) (u : list ui_event) (w' : world),
            u = ui w ++ [ProgressShown] ->
            ledger w' = ledger w -> files_table w' = files_table w ->
            (uploads w' = uploads w /\ http_gets w' = http_gets w
             \/ exists up, uploads w' = uploads w ++ [up] /\
                  (http_gets w' = http_gets w \/
                   http_gets w' = http_gets w ++ ["https://ipapi.co/json/"])) ->
            let r := (inr RetFalse : result retval,
                      set_ui ((u ++ [ProgressClosed])
                              ++ [MsgCritical "Error" (share_failure_text msg)])
                        (set_ui (u ++ [ProgressClosed]) w')) in
            exists msg,
              fst r = inr RetFalse /\
              ui (snd r) = ui w ++ failure_boxes msg /\
              ledger (snd r) = ledger w /\
              files_table (snd r) = files_table w /\
              ((uploads (snd r) = uploads w /\ http_gets (snd r) = http_gets w)
               \/ exists up, uploads (snd r) = uploads w ++ [up] /\
                    (http_gets (snd r) = http_gets w \/
                     http_gets (snd r)
                     = http_gets w ++ ["https://ipapi.co/json/"]))).
  { intros msg u w' Hui Hl Hft Hup r. exists msg. subst r. cbn [fst snd]. mred.
    rewrite Hui, <- !app_assoc. auto. }
  destruct (fs w !! self_file_path self) as [[|[err|P]]|] eqn:Hp;
    repeat (mred; rewrite ?Hp).
  - left. eapply Hfail; mred; auto.
  - run_encrypt_unreadable encrypt_pdf_unreadable Hp. mred.
    left. eapply Hfail; mred; auto.
  - run_encrypt_readable encrypt_pdf_readable P Hp. mred.
    destruct (cloudinary_config e) as [|c cs] eqn:Hcfg; mred.
    { left. eapply Hfail; mred; auto. }
    destruct (cloudinary_configure e) as [cerr|] eqn:Hconf; mred.
    { left. eapply Hfail; mred; auto. }
    match goal with
    | |- context [upload_stage ?e ?d ?n ?w0] =>
        destruct (upload_stage_effects e d n w0)
          as (r & w' & Hu & Hl & Hui & He & Hc & Hh & Hft & Hup & Hok);
        rewrite Hu
    end.
    revert Hl Hui He Hc Hh Hft Hup Hok. mred.
    intros Hl Hui He Hc Hh Hft Hup Hok.
    destruct r as [uerr|result]; mred.
    { left. eapply Hfail; mred; auto.
      destruct Hup as [Hup|[up Hup]]; [left|right]; eauto. }
    destruct (Hok result eq_refl) as (p & Ht & Hf & Hw & Hresp & Hup').
    destruct Hup' as [up Hup'].
    destruct (result !! "secure_url") as [url|] eqn:Hurl; mred.
    2:{ left. eapply Hfail; mred; eauto. }
    rewrite resolve_geolocation_run. mred.
    destruct (db e) eqn:Hdb; mred.
    2:{ left. eapply Hfail; mred; auto. right. exists up. rewrite Hh. auto. }
    destruct (db_add e) as [derr|id] eqn:Hadd; mred.
    { left. eapply Hfail; mred; auto. right. exists up. rewrite Hh. auto. }
    right. exists P, p, result, url, id. repeat split; auto; congruence.
  - left. eapply Hfail; mred; auto.
Qed.

(** The call that meets every condition: what it returns and the world it
    leaves. *)
Lemma share_file_run (self : SecureShareDialog) (e : env) (w : world)
    (P : list byte) (p : string) (result : gmap string string)
    (url id : string) :
  truthy (strip (recipient_input self)) = true ->
  fs w !! self_file_path self = Some (RegularFile (inr P)) ->
  cloudinary_config e <> [] -> cloudinary_configure e = None ->
  tmp_file e = inr p -> fs w !! p = None -> tmp_write e = None ->
  upload_response e = inr result -> result !! "secure_url" = Some url ->
  db e = true -> db_add e = inr id ->
  fst (share_file self e w) = inr RetNone /\
  ui (snd (share_file self e w)) = ui w ++ success_boxes self /\
  ledger (snd (share_file self e w))
  = ledger w ++ [(id, record_written self e w url)] /\
  uploads (snd (share_file self e w))
  = uploads w ++ [UploadCall p (encrypted_buffer w P)
                    ("secure_pdfs/" +:+ next_secure_filename self w)] /\
  http_gets (snd (share_file self e w))
  = http_gets w ++ ["https://ipapi.co/json/"] /\
  entropy_used (snd (share_file self e w)) = entropy_used w + 16 + 16 + 8 /\
  clock_reads (snd (share_file self e w)) = 4 + clock_reads w /\
  files_table (snd (share_file self e w)) = files_table w.
Proof.
  intros Hr Hp Hcfg Hconf Ht Hf Hw Hu Hurl Hdb Hadd.
  run_to_upload encrypt_pdf_readable e P Hr Hp Hcfg Hconf.
  match goal with
  | |- context [upload_stage ?e ?d ?n ?w0] =>
      rewrite (upload_stage_staged e d n p w0) by (mred; assumption)
  end.
  rewrite Hu. mred. rewrite Hurl. mred.
  rewrite resolve_geolocation_run. mred. rewrite Hdb. mred. rewrite Hadd. mred.
  cbn [fst snd]. mred.
  unfold success_boxes, record_written, encrypted_buffer, next_secure_filename,
    serialize.
  cbn [er_nonce er_tag er_ciphertext er_key].
  destruct (unlink_error e); mred; rewrite <- !app_assoc;
    repeat split; reflexivity.
Qed.

(** An accepted call met every condition. *)
Lemma share_file_accepted_inv (self : SecureShareDialog) (e : env) (w : world) :
  accepted (snd (share_file self e w)) = true ->
  exists P p result url id,
    truthy (strip (recipient_input self)) = true /\
    fs w !! self_file_path self = Some (RegularFile (inr P)) /\
    cloudinary_config e <> [] /\ cloudinary_configure e = None /\
    tmp_file e = inr p /\ fs w !! p = None /\ tmp_write e = None /\
    upload_response e = inr result /\ result !! "secure_url" = Some url /\
    db e = true /\ db_add e = inr id.
Proof.
  intros Hacc.
  destruct (truthy (strip (recipient_input self))) eqn:Hr.
  - destruct (share_file_outcome self e w Hr)
      as [(msg & _ & Hui & _)|(P & p & result & url & id & H)].
    + exfalso. unfold accepted in Hacc. rewrite Hui in Hacc.
      unfold failure_boxes in Hacc.
      change [ProgressShown; ProgressClosed;
              MsgCritical "Error" (share_failure_text msg)]
        with ([ProgressShown; ProgressClosed]
              ++ [MsgCritical "Error" (share_failure_text msg)]) in Hacc.
      rewrite app_assoc, last_snoc in Hacc. discriminate.
    + exists P, p, result, url, id. split; [reflexivity|exact H].
  - exfalso. revert Hacc. unfold share_file. rewrite Hr. mred. cbn [snd].
    rewrite accepted_snoc. discriminate.
Qed.

(** [bytes.fromhex] undoes [bytes.hex]. *)
Lemma fromhex_hex (bs : list byte) : fromhex (hex bs) = bs.
Proof.
  induction bs as [|b bs IH]; [reflexivity|].
  cbn [hex fromhex]. rewrite IH. f_equal.
  destruct b; vm_compute; reflexivity.
Qed.


(** X2: the blob an accepted share uploads decrypts, under the key its
    record holds in hexadecimal, to the content of the shared file. *)
Theorem accepted_share_key_decrypts_the_upload (self : SecureShareDialog)
    (e : env) (w : world) :
  accepted (snd (share_file self e w)) = true ->
  exists (id : string) (d : doc) (up : upload_call) (P : list byte)
         (key_hex : string),
    ledger (snd (share_file self e w)) = ledger w ++ [(id, d)] /\
    uploads (snd (share_file self e w)) = uploads w ++ [up] /\
    fs w !! self_file_path self = Some (RegularFile (inr P)) /\
    encryption_key d = Some key_hex /\
    decrypt_pdf (up_data up) (fromhex key_hex) = inr P.
Proof.
  intros Hacc.
  destruct (share_file_accepted_inv self e w Hacc)
    as (P & p & result & url & id & Hr & Hp & Hcfg & Hconf & Ht & Hf & Hw
        & Hu & Hurl & Hdb & Hadd).
  destruct (share_file_run self e w P p result url id)
    as (_ & _ & Hl & Hup & _); auto.
  do 5 eexists. split; [exact Hl|]. split; [exact Hup|].
  split; [exact Hp|]. split; [reflexivity|].
  cbn [up_data]. rewrite fromhex_hex. unfold encrypted_buffer.
  apply decrypt_pdf_serialized; unfold fresh_key, fresh_nonce;
    rewrite length_map, length_seq; reflexivity.
Qed.

Lemma accepted_share_key_decrypts_the_upload_witness :
  accepted (snd (share_file Sample.dialog Sample.env_ok Sample.world0)) = true
  /\ exists (id : string) (d : doc) (up : upload_call) (P : list byte)
            (key_hex : string),
       ledger (snd (share_file Sample.dialog Sample.env_ok Sample.world0))
       = ledger Sample.world0 ++ [(id, d)] /\
       uploads (snd (share_file Sample.dialog Sample.env_ok Sample.world0))
       = uploads Sample.world0 ++ [up] /\
       fs Sample.world0 !! self_file_path Sample.dialog
       = Some (RegularFile (inr P)) /\
       encryption_key d = Some key_hex /\
       decrypt_pdf (up_data up) (fromhex key_hex) = inr P.
Proof.
  split; [vm_compute; reflexivity|].
  apply (accepted_share_key_decrypts_the_upload Sample.dialog Sample.env_ok
           Sample.world0).
  vm_compute. reflexivity.
Defined.

(** X3: the record of an accepted share points at what was uploaded: its
    [secure_filename] is the time, an underscore, a token of twelve
    characters, an underscore and the name of the file; the object was
    uploaded as [secure_pdfs/] followed by that name; and its
    [cloudinary_url] is the [secure_url] the uploader answered. *)
Theorem accepted_share_record_points_at_the_upload (self : SecureShareDialog)
    (e : env) (w : world) :
  accepted (snd (share_file self e w)) = true ->
  exists (id : string) (d : doc) (up : upload_call) (token url : string)
         (result : gmap string string),
    ledger (snd (share_file self e w)) = ledger w ++ [(id, d)] /\
    uploads (snd (share_file self e w)) = uploads w ++ [up] /\
    String.length token = 12 /\
    secure_filename d
    = Some (strftime_compact (clock w (clock_reads w)) +:+ "_" +:+ token
            +:+ "_" +:+ self_file_name self) /\
    up_public_id up
    = "secure_pdfs/" +:+ (strftime_compact (clock w (clock_reads w)) +:+ "_"
                          +:+ token +:+ "_" +:+ self_file_name self) /\
    upload_response e = inr result /\
    result !! "secure_url" = Some url /\
    cloudinary_url d = Some url /\
    original_path d = Some (self_file_path self).
Proof.
  intros Hacc.
  destruct (share_file_accepted_inv self e w Hacc)
    as (P & p & result & url & id & Hr & Hp & Hcfg & Hconf & Ht & Hf & Hw
        & Hu & Hurl & Hdb & Hadd).
  destruct (share_file_run self e w P p result url id)
    as (_ & _ & Hl & Hup & _); auto.
  exists id, (record_written self e w url).
  eexists.
  exists (urlsafe_b64encode (map (urandom w) (seq (entropy_used w + 16 + 16) 8))).
  exists url, result.
  split; [exact Hl|]. split; [exact Hup|].
  split; [reflexivity|].
  repeat split; auto.
Qed.

Lemma accepted_share_record_points_at_the_upload_witness :
  accepted (snd (share_file Sample.dialog Sample.env_ok Sample.world0)) = true
  /\ exists (id : string) (d : doc) (up : upload_call) (token url : string)
            (result : gmap string string),
       ledger (snd (share_file Sample.dialog Sample.env_ok Sample.world0))
       = ledger Sample.world0 ++ [(id, d)] /\
       uploads (snd (share_file Sample.dialog Sample.env_ok Sample.world0))
       = uploads Sample.world0 ++ [up] /\
       String.length token = 12 /\
       secure_filename d
       = Some (strftime_compact
                 (clock Sample.world0 (clock_reads Sample.world0))
               +:+ "_" +:+ token +:+ "_" +:+ self_file_name Sample.dialog) /\
       up_public_id up
       = "secure_pdfs/"
         +:+ (strftime_compact
                (clock Sample.world0 (clock_reads Sample.world0))
              +:+ "_" +:+ token +:+ "_" +:+ self_file_name Sample.dialog) /\
       upload_response Sample.env_ok = inr result /\
       result !! "secure_url" = Some url /\
       cloudinary_url d = Some url /\
       original_path d = Some (self_file_path Sample.dialog).
Proof.
  split; [vm_compute; reflexivity|].
  apply (accepted_share_record_points_at_the_upload Sample.dialog
           Sample.env_ok Sample.world0).
  vm_compute. reflexivity.
Defined.

(** X4: one call of [share_file] uploads at most one object, asks for the
    location at most once and adds at most one record; and without an
    upload it neither asks for the location nor adds a record. *)
Theorem share_file_uses_each_service_at_most_once (self : SecureShareDialog)
    (e : env) (w : world) :
  (uploads (snd (share_file self e w)) = uploads w \/
   exists up, uploads (snd (share_file self e w)) = uploads w ++ [up]) /\
  (http_gets (snd (share_file self e w)) = http_gets w \/
   http_gets (snd (share_file self e w))
   = http_gets w ++ ["https://ipapi.co/json/"]) /\
  (ledger (snd (share_file self e w)) = ledger w \/
   exists x, ledger (snd (share_file self e w)) = ledger w ++ [x]) /\
  (uploads (snd (share_file self e w)) = uploads w ->
   http_gets (snd (share_file self e w)) = http_gets w /\
   ledger (snd (share_file self e w)) = ledger w).
Proof.
  assert (Hsnoc : forall (A : Type) (l : list A) (x : A), l ++ [x] <> l).
  { intros A l x H. apply (f_equal length) in H.
    rewrite length_app in H. simpl in H. lia. }
  destruct (truthy (strip (recipient_input self))) eqn:Hr.
  - destruct (share_file_outcome self e w Hr)
      as [(msg & _ & _ & Hl & _ & Hup)|(P & p & result & url & id & H)].
    + destruct Hup as [[Hup Hh]|(up & Hup & Hh)].
      * repeat split; auto.
      * split; [eauto|]. split; [exact Hh|]. split; [auto|].
        rewrite Hup. intros Habs. exfalso. exact (Hsnoc _ _ _ Habs).
    + destruct H as (Hp & Hcfg & Hconf & Ht & Hf & Hw & Hu & Hurl & Hdb & Hadd).
      destruct (share_file_run self e w P p result url id)
        as (_ & _ & Hl & Hup & Hh & _); auto.
      split; [eauto|]. split; [auto|]. split; [eauto|].
      rewrite Hup. intros Habs. exfalso. exact (Hsnoc _ _ _ Habs).
  - unfold share_file. rewrite Hr. mred. cbn [snd]. mred. auto.
Qed.

(** X5: when the record cannot be stored after the upload went through
    ([db] is not at hand, or the [add] raises), [share_file] returns
    [False] with that error in its box; the encrypted file has been
    uploaded and the location asked for, and no record of it exists. *)
Theorem persistence_failure_leaves_upload_without_record
    (self : SecureShareDialog) (e : env) (w : world) (P : list byte)
    (p : string) (result : gmap string string) (url msg : string) :
  truthy (strip (recipient_input self)) = true ->
  fs w !! self_file_path self = Some (RegularFile (inr P)) ->
  cloudinary_config e <> [] -> cloudinary_configure e = None ->
  tmp_file e = inr p -> fs w !! p = None -> tmp_write e = None ->
  upload_response e = inr result -> result !! "secure_url" = Some url ->
  persistence_refusal e = Some msg ->
  fst (share_file self e w) = inr RetFalse /\
  ui (snd (share_file self e w))
  = ui w ++ [ProgressShown; ProgressClosed;
             MsgCritical "Error" (share_failure_text msg)] /\
  uploads (snd (share_file self e w))
  = uploads w ++ [UploadCall p (encrypted_buffer w P)
                    ("secure_pdfs/" +:+ next_secure_filename self w)] /\
  http_gets (snd (share_file self e w))
  = http_gets w ++ ["https://ipapi.co/json/"] /\
  ledger (snd (share_file self e w)) = ledger w.
Proof.
  intros Hr Hp Hcfg Hconf Ht Hf Hw Hu Hurl Href.
  run_to_upload encrypt_pdf_readable e P Hr Hp Hcfg Hconf.
  match goal with
  | |- context [upload_stage ?e ?d ?n ?w0] =>
      rewrite (upload_stage_staged e d n p w0) by (mred; assumption)
  end.
  rewrite Hu. mred. rewrite Hurl. mred.
  rewrite resolve_geolocation_run. mred.
  unfold persistence_refusal in Href.
  unfold encrypted_buffer, next_secure_filename, serialize.
  cbn [er_nonce er_tag er_ciphertext er_key].
  destruct (db e); mred.
  - destruct (db_add e) as [derr|id]; [|discriminate]. injection Href as <-.
    mred. cbn [fst snd]. mred.
    destruct (unlink_error e); mred; rewrite <- !app_assoc;
      repeat split; reflexivity.
  - injection Href as <-. cbn [fst snd]. mred.
    destruct (unlink_error e); mred; rewrite <- !app_assoc;
      repeat split; reflexivity.
Qed.

Lemma persistence_failure_leaves_upload_without_record_witness :
  truthy (strip (recipient_input Sample.dialog)) = true
  /\ persistence_refusal Scenario.env_no_db
     = Some "Database connection not available"
  /\ fst (share_file Sample.dialog Scenario.env_no_db Sample.world0)
     = inr RetFalse
  /\ ledger (snd (share_file Sample.dialog Scenario.env_no_db Sample.world0))
     = ledger Sample.world0.
Proof.
  split; [reflexivity|]. split; [reflexivity|].
  destruct (persistence_failure_leaves_upload_without_record
              Sample.dialog Scenario.env_no_db Sample.world0
              Sample.report_bytes Sample.tmp_path
              (<["secure_url" := "https://res.cloudinary.com/demo/raw/upload/x"]> ∅)
              "https://res.cloudinary.com/demo/raw/upload/x"
              "Database connection not available")
    as (Hret & _ & _ & _ & Hl);
    try reflexivity; try discriminate.
  split; [exact Hret|exact Hl].
Defined.

(** X6: when Cloudinary cannot be configured, [share_file] fails only
    after the file has been read and encrypted: 32 random octets are spent
    on a key and a nonce that are dropped, and nothing is uploaded, asked
    or stored. *)
Theorem unconfigured_cloudinary_fails_after_encryption
    (self : SecureShareDialog) (e : env) (w : world) (P : list byte)
    (msg : string) :
  truthy (strip (recipient_input self)) = true ->
  fs w !! self_file_path self = Some (RegularFile (inr P)) ->
  configuration_refusal e = Some msg ->
  fst (share_file self e w) = inr RetFalse /\
  ui (snd (share_file self e w))
  = ui w ++ [ProgressShown; ProgressClosed;
             MsgCritical "Error" (share_failure_text msg)] /\
  entropy_used (snd (share_file self e w)) = entropy_used w + 16 + 16 /\
  uploads (snd (share_file self e w)) = uploads w /\
  http_gets (snd (share_file self e w)) = http_gets w /\
  ledger (snd (share_file self e w)) = ledger w /\
  fs (snd (share_file self e w)) = fs w /\
  cloudinary_sdk (snd (share_file self e w)) = cloudinary_sdk w.
Proof.
  intros Hr Hp Href.
  unfold share_file. rewrite Hr. mred. unfold share_file_try.
  repeat (mred; rewrite ?Hp).
  run_encrypt_readable encrypt_pdf_readable P Hp. mred.
  unfold configuration_refusal in Href.
  destruct (cloudinary_config e) as [|c cs]; mred.
  - injection Href as <-. cbn [fst snd]. mred. rewrite <- !app_assoc.
    repeat split; reflexivity.
  - destruct (cloudinary_configure e) as [cerr|]; [|discriminate].
    injection Href as <-. mred. cbn [fst snd]. mred. rewrite <- !app_assoc.
    repeat split; reflexivity.
Qed.

Lemma unconfigured_cloudinary_fails_after_encryption_witness :
  truthy (strip (recipient_input Sample.dialog)) = true
  /\ configuration_refusal Scenario.env_no_config
     = Some "Cloudinary configuration not found or invalid"
  /\ fst (share_file Sample.dialog Scenario.env_no_config Sample.world0)
     = inr RetFalse
  /\ entropy_used
       (snd (share_file Sample.dialog Scenario.env_no_config Sample.world0))
     = entropy_used Sample.world0 + 16 + 16.
Proof.
  split; [reflexivity|]. split; [reflexivity|].
  destruct (unconfigured_cloudinary_fails_after_encryption
              Sample.dialog Scenario.env_no_config Sample.world0
              Sample.report_bytes
              "Cloudinary configuration not found or invalid")
    as (Hret & _ & He & _); try reflexivity.
  split; [exact Hret|exact He].
Defined.

(** X7: when the uploader answers without a [secure_url], [share_file]
    returns [False] with ["Failed to get secure URL from Cloudinary"]; the
    object has been uploaded, the location is not asked for, and no record
    is added. *)
Theorem upload_without_secure_url_is_not_recorded
    (self : SecureShareDialog) (e : env) (w : world) (P : list byte)
    (p : string) (result : gmap string string) :
  truthy (strip (recipient_input self)) = true ->
  fs w !! self_file_path self = Some (RegularFile (inr P)) ->
  cloudinary_config e <> [] -> cloudinary_configure e = None ->
  tmp_file e = inr p -> fs w !! p = None -> tmp_write e = None ->
  upload_response e = inr result -> result !! "secure_url" = None ->
  fst (share_file self e w) = inr RetFalse /\
  ui (snd (share_file self e w))
  = ui w ++ [ProgressShown; ProgressClosed;
             MsgCritical "Error"
               (share_failure_text "Failed to get secure URL from Cloudinary")] /\
  uploads (snd (share_file self e w))
  = uploads w ++ [UploadCall p (encrypted_buffer w P)
                    ("secure_pdfs/" +:+ next_secure_filename self w)] /\
  http_gets (snd (share_file self e w)) = http_gets w /\
  ledger (snd (share_file self e w)) = ledger w.
Proof.
  intros Hr Hp Hcfg Hconf Ht Hf Hw Hu Hurl.
  run_to_upload encrypt_pdf_readable e P Hr Hp Hcfg Hconf.
  match goal with
  | |- context [upload_stage ?e ?d ?n ?w0] =>
      rewrite (upload_stage_staged e d n p w0) by (mred; assumption)
  end.
  rewrite Hu. mred. rewrite Hurl. mred. cbn [fst snd]. mred.
  unfold encrypted_buffer, next_secure_filename, serialize.
  cbn [er_nonce er_tag er_ciphertext er_key].
  destruct (unlink_error e); mred; rewrite <- !app_assoc;
    repeat split; reflexivity.
Qed.

Lemma upload_without_secure_url_is_not_recorded_witness :
  fst (share_file Sample.dialog Scenario.env_no_url Sample.world0)
  = inr RetFalse
  /\ ledger (snd (share_file Sample.dialog Scenario.env_no_url Sample.world0))
     = ledger Sample.world0
  /\ http_gets (snd (share_file Sample.dialog Scenario.env_no_url Sample.world0))
     = http_gets Sample.world0.
Proof.
  destruct (upload_without_secure_url_is_not_recorded
              Sample.dialog Scenario.env_no_url Sample.world0
              Sample.report_bytes Sample.tmp_path
              (<["public_id" := "secure_pdfs/x"]> ∅))
    as (Hret & _ & _ & Hh & Hl);
    try reflexivity; try discriminate.
  split; [exact Hret|]. split; [exact Hl|exact Hh].
Defined.

(** [strip] leaves nothing exactly of the strings that hold white space
    only. *)
Lemma lstrip_empty (s : string) :
  lstrip s = EmptyString <-> only_whitespace s = true.
Proof.
  induction s as [|c s IH]; simpl; [tauto|].
  destruct (isspace c); simpl; [exact IH|]. split; discriminate.
Qed.

Lemma rstrip_empty (s : string) :
  rstrip s = EmptyString <-> only_whitespace s = true.
Proof.
  induction s as [|c s IH]; simpl; [tauto|].
  destruct (rstrip s) eqn:Hs.
  - destruct (isspace c); simpl.
    + split; [intros _; apply IH; reflexivity|reflexivity].
    + split; discriminate.
  - split; [discriminate|].
    intros H. apply andb_true_iff in H as [_ H]. apply IH in H. discriminate.
Qed.

Lemma lstrip_head (s : string) :
  lstrip s = EmptyString \/
  exists c rest, lstrip s = String c rest /\ isspace c = false.
Proof.
  induction s as [|c s IH]; simpl; [auto|].
  destruct (isspace c) eqn:Hc; [exact IH|]. right. eauto.
Qed.

Lemma strip_empty (s : string) :
  truthy (strip s) = false <-> only_whitespace s = true.
Proof.
  unfold strip. split.
  - intros H. apply lstrip_empty.
    destruct (rstrip (lstrip s)) eqn:Hr; [|discriminate H].
    apply rstrip_empty in Hr.
    destruct (lstrip_head s) as [Hl|(c & rest & Hl & Hc)]; [exact Hl|].
    rewrite Hl in Hr. simpl in Hr. rewrite Hc in Hr. discriminate.
  - intros H. apply lstrip_empty in H. rewrite H. reflexivity.
Qed.

(** X8: [share_file] stops at its warning box exactly when the recipient
    field holds white space only (or nothing); any visible character lets
    the call go on to the progress box. *)
Theorem share_file_refuses_exactly_blank_recipients
    (self : SecureShareDialog) (e : env) (w : world) :
  only_whitespace (recipient_input self) = true
  <-> ui (snd (share_file self e w))
      = ui w ++ [MsgWarning "Error" "Please enter a recipient email"].
Proof.
  rewrite <- strip_empty. split.
  - intros Hr. unfold share_file. rewrite Hr. mred. reflexivity.
  - intros Hui.
    destruct (truthy (strip (recipient_input self))) eqn:Hr; [|reflexivity].
    exfalso.
    destruct (share_file_outcome self e w Hr)
      as [(msg & _ & Hui' & _)|(P & p & result & url & id & H)].
    + rewrite Hui' in Hui. apply app_inv_head in Hui. discriminate.
    + destruct H as (Hp & Hcfg & Hconf & Ht & Hf & Hw & Hu & Hurl & Hdb & Hadd).
      destruct (share_file_run self e w P p result url id)
        as (_ & Hui' & _); auto.
      rewrite Hui' in Hui. apply app_inv_head in Hui. discriminate.
Qed.

(** ** More on the table of access records *)

(** X9: when the collection cannot be read ([db] is not at hand, or the
    query raises), [load_file_access_records] does not raise: it shows one
    error box and leaves the table empty, the rows it held before being
    lost, and everything else as it was. *)
Theorem load_failure_empties_the_table (user_id : string) (e : env)
    (w : world) (msg : string) :
  load_refusal e = Some msg ->
  load_file_access_records user_id e w
  = (inr tt,
     set_ui (ui w ++ [MsgCritical "Error"
                        ("Failed to load file records: " +:+ msg)])
       (set_files_table [] w)).
Proof.
  intros Href. unfold load_refusal in Href.
  unfold load_file_access_records. mred.
  destruct (db e); mred.
  - destruct (db_get e) as [err|]; [|discriminate]. injection Href as <-.
    mred. reflexivity.
  - injection Href as <-. reflexivity.
Qed.

Lemma load_failure_empties_the_table_witness :
  load_refusal Scenario.env_query_fails
  = Some "Failed to load records from database: 503 backend down"
  /\ files_table Scenario.world2 <> []
  /\ load_file_access_records "alice" Scenario.env_query_fails Scenario.world2
     = (inr tt,
        set_ui (ui Scenario.world2
                ++ [MsgCritical "Error"
                      "Failed to load file records: Failed to load records from database: 503 backend down"])
          (set_files_table [] Scenario.world2)).
Proof.
  split; [reflexivity|]. split; [vm_compute; discriminate|].
  apply (load_failure_empties_the_table "alice" Scenario.env_query_fails
           Scenario.world2
           "Failed to load records from database: 503 backend down").
  reflexivity.
Defined.

(** The table after a load, whatever the database answers. *)
Lemma load_file_access_records_table (user_id : string) (e : env) (w : world) :
  fst (load_file_access_records user_id e w) = inr tt /\
  ledger (snd (load_file_access_records user_id e w)) = ledger w /\
  files_table (snd (load_file_access_records user_id e w))
  = match load_refusal e with
    | Some _ => []
    | None =>
        sort_reverse row_time
          (flat_map flatten_doc (query_by_owner user_id (ledger w)))
    end.
Proof.
  unfold load_refusal, load_file_access_records. mred.
  destruct (db e); mred; [|repeat split].
  destruct (db_get e) as [err|]; mred; repeat split.
Qed.

Lemma query_by_owner_app (user_id : string) (l1 l2 : list (string * doc)) :
  query_by_owner user_id (l1 ++ l2)
  = query_by_owner user_id l1 ++ query_by_owner user_id l2.
Proof. unfold query_by_owner. apply filter_app. Qed.

(** X10: the table of one user holds the rows of the documents that user
    owns and no others: every row carries the id of a document of the
    collection whose [owner_id] is the user, and is one of the rows that
    document flattens to. *)
Theorem loaded_rows_come_from_own_documents (user_id : string) (e : env)
    (w : world) (r : row) :
  r ∈ files_table (snd (load_file_access_records user_id e w)) ->
  exists x : string * doc,
    x ∈ ledger w /\ owner_id (snd x) = Some user_id /\
    r ∈ flatten_doc x /\ row_record_id r = fst x.
Proof.
  destruct (load_file_access_records_table user_id e w) as (_ & _ & Ht).
  rewrite Ht. destruct (load_refusal e) as [msg|].
  - intros H. inversion H.
  - intros H. rewrite (sort_reverse_perm row_time) in H.
    apply list_elem_of_In, in_flat_map in H as (x & Hx & Hr).
    apply list_elem_of_In in Hx, Hr.
    unfold query_by_owner in Hx. apply list_elem_of_filter in Hx as [Ho Hx].
    exists x. repeat split; auto.
    unfold flatten_doc in Hr. apply elem_of_app in Hr as [Hr|Hr];
      apply list_elem_of_fmap in Hr as (ev & -> & _); reflexivity.
Qed.

Lemma loaded_rows_come_from_own_documents_witness :
  exists x : string * doc,
    x ∈ ledger Sample.world1 /\ owner_id (snd x) = Some "alice" /\
    Row "report.pdf" "Shared with: bob" "Hyderabad, India" "View Only"
        "2025-03-14 09:26:03" "doc1" "share" ∈ flatten_doc x /\
    "doc1" = fst x.
Proof.
  apply (loaded_rows_come_from_own_documents "alice" Sample.env_ok
           Sample.world1
           (Row "report.pdf" "Shared with: bob" "Hyderabad, India" "View Only"
                "2025-03-14 09:26:03" "doc1" "share")).
  vm_compute. apply list_elem_of_here.
Defined.

(** X11: what one user shares does not show in the table of another: the
    table a user loads after a call of [share_file] by someone else is the
    table that user would have loaded before it. *)
Theorem share_of_another_owner_is_not_shown (self : SecureShareDialog)
    (e e_load : env) (user_id : string) (w : world) :
  self_user_id self <> user_id ->
  files_table
    (snd (load_file_access_records user_id e_load (snd (share_file self e w))))
  = files_table (snd (load_file_access_records user_id e_load w)).
Proof.
  intros Hother.
  destruct (load_file_access_records_table user_id e_load
              (snd (share_file self e w))) as (_ & _ & ->).
  destruct (load_file_access_records_table user_id e_load w) as (_ & _ & ->).
  destruct (load_refusal e_load); [reflexivity|].
  destruct (share_file_cases self e w)
    as [[_ Hl]|(_ & _ & id & sf & key & result & url & t1 & t2 & t3
                & _ & _ & Hl)];
    rewrite Hl; [reflexivity|].
  rewrite query_by_owner_app.
  unfold query_by_owner at 2. rewrite filter_cons_False.
  - rewrite filter_nil, app_nil_r. reflexivity.
  - cbn [snd share_record owner_id]. congruence.
Qed.

Lemma share_of_another_owner_is_not_shown_witness :
  self_user_id Scenario.dialog_carol <> "alice"
  /\ accepted (snd (share_file Scenario.dialog_carol Scenario.env_carol
                      Sample.world1)) = true
  /\ files_table
       (snd (load_file_access_records "alice" Sample.env_ok
               (snd (share_file Scenario.dialog_carol Scenario.env_carol
                       Sample.world1))))
     = files_table
         (snd (load_file_access_records "alice" Sample.env_ok Sample.world1)).
Proof.
  split; [discriminate|]. split; [vm_compute; reflexivity|].
  apply (share_of_another_owner_is_not_shown Scenario.dialog_carol
           Scenario.env_carol Sample.env_ok "alice" Sample.world1).
  discriminate.
Defined.

(** X12: once a share is accepted, the table its owner loads has two more
    rows than the table loaded before the share: the row of the share and
    the row of the upload, both under the id of the new record. *)
Theorem accepted_share_shows_as_two_rows (self : SecureShareDialog)
    (e e_load : env) (w : world) :
  accepted (snd (share_file self e w)) = true ->
  load_refusal e_load = None ->
  exists (id : string) (shared uploaded : row),
    length (files_table
              (snd (load_file_access_records (self_user_id self) e_load
                      (snd (share_file self e w)))))
    = length (files_table
                (snd (load_file_access_records (self_user_id self) e_load w)))
      + 2 /\
    shared ∈ files_table
               (snd (load_file_access_records (self_user_id self) e_load
                       (snd (share_file self e w)))) /\
    uploaded ∈ files_table
                 (snd (load_file_access_records (self_user_id self) e_load
                         (snd (share_file self e w)))) /\
    db_add e = inr id /\
    row_record_id shared = id /\ row_action shared = "share" /\
    row_user_name shared
    = "Shared with: " +:+ strip (recipient_input self) /\
    row_device shared = access_combo self /\
    row_file_name shared = self_file_name self /\
    row_record_id uploaded = id /\ row_action uploaded = "upload" /\
    row_file_name uploaded = self_file_name self.
Proof.
  intros Hacc Hload.
  destruct (share_file_accepted_inv self e w Hacc)
    as (P & p & result & url & id & Hr & Hp & Hcfg & Hconf & Ht & Hf & Hw
        & Hu & Hurl & Hdb & Hadd).
  destruct (share_file_run self e w P p result url id)
    as (_ & _ & Hl & _); auto.
  destruct (load_file_access_records_table (self_user_id self) e_load
              (snd (share_file self e w))) as (_ & _ & ->).
  destruct (load_file_access_records_table (self_user_id self) e_load w)
    as (_ & _ & ->).
  rewrite Hload, Hl.
  assert (Hrows : flat_map flatten_doc
                    (query_by_owner (self_user_id self)
                       (ledger w ++ [(id, record_written self e w url)]))
                  = flat_map flatten_doc
                      (query_by_owner (self_user_id self) (ledger w))
                    ++ flatten_doc (id, record_written self e w url)).
  { rewrite query_by_owner_app, flat_map_app. f_equal.
    unfold query_by_owner. rewrite filter_cons_True by reflexivity.
    rewrite filter_nil. cbn [flat_map]. apply app_nil_r. }
  rewrite Hrows. clear Hrows.
  cbn [flatten_doc snd fst record_written share_record file_name
       share_chain access_records default map app].
  eexists id, _, _.
  split.
  { rewrite !(Permutation_length (sort_reverse_perm row_time _)).
    rewrite length_app. reflexivity. }
  split.
  { rewrite (sort_reverse_perm row_time). apply elem_of_app. right.
    apply list_elem_of_here. }
  split.
  { rewrite (sort_reverse_perm row_time). apply elem_of_app. right.
    apply list_elem_of_further, list_elem_of_here. }
  split; [exact Hadd|].
  cbn [row_record_id row_action row_user_name row_device row_file_name].
  repeat split; reflexivity.
Qed.

Lemma accepted_share_shows_as_two_rows_witness :
  accepted (snd (share_file Sample.dialog Sample.env_ok Sample.world0)) = true
  /\ load_refusal Sample.env_ok = None
  /\ length (files_table
               (snd (load_file_access_records "alice" Sample.env_ok
                       Sample.world1))) = 2.
Proof.
  split; [vm_compute; reflexivity|]. split; [reflexivity|].
  destruct (accepted_share_shows_as_two_rows Sample.dialog Sample.env_ok
              Sample.env_ok Sample.world0)
    as (id & shared & uploaded & Hlen & _);
    [vm_compute; reflexivity|reflexivity|].
  exact Hlen.
Defined.

(** ** Deleting a row *)

(** What [delete_selected_record] leaves alone: everything but the table
    and the boxes. *)
Lemma delete_selected_record_frame (current_row : Z) (ask : string -> bool)
    (w : world) :
  fst (delete_selected_record current_row ask w) = inr tt /\
  ledger (snd (delete_selected_record current_row ask w)) = ledger w /\
  uploads (snd (delete_selected_record current_row ask w)) = uploads w /\
  fs (snd (delete_selected_record current_row ask w)) = fs w.
Proof.
  unfold delete_selected_record. mred.
  destruct (0 <=? current_row)%Z; mred; [|repeat split].
  destruct (files_table w !! Z.to_nat current_row) as [item|]; mred;
    [|repeat split].
  destruct (ask (confirm_delete_text (row_file_name item))); mred;
    repeat split.
Qed.

(** X13: [delete_selected_record] never raises and deletes nothing from
    the collection: whatever row was selected and whatever the user
    answered, the ledger is as before, and the next load of the table shows
    again every row it showed before the deletion. *)
Theorem deleted_row_returns_on_reload (current_row : Z)
    (ask : string -> bool) (user_id : string) (e : env) (w : world) :
  fst (delete_selected_record current_row ask w) = inr tt /\
  ledger (snd (delete_selected_record current_row ask w)) = ledger w /\
  files_table
    (snd (load_file_access_records user_id e
            (snd (delete_selected_record current_row ask w))))
  = files_table (snd (load_file_access_records user_id e w)).
Proof.
  destruct (delete_selected_record_frame current_row ask w)
    as (Hret & Hl & _).
  split; [exact Hret|]. split; [exact Hl|].
  destruct (load_file_access_records_table user_id e
              (snd (delete_selected_record current_row ask w)))
    as (_ & _ & ->).
  destruct (load_file_access_records_table user_id e w) as (_ & _ & ->).
  rewrite Hl. reflexivity.
Qed.

(** X14: with row [n] selected and the question answered [Yes],
    [delete_selected_record] takes exactly that row out of the table, the
    rows before and after it staying in their order, and reports success;
    nothing else changes. *)
Theorem confirmed_delete_removes_the_selected_row (n : nat)
    (ask : string -> bool) (item : row) (w : world) :
  files_table w !! n = Some item ->
  ask (confirm_delete_text (row_file_name item)) = true ->
  delete_selected_record (Z.of_nat n) ask w
  = (inr tt,
     set_ui (ui w ++ [MsgInformation "Success" "Record deleted successfully"])
       (set_files_table (take n (files_table w) ++ drop (S n) (files_table w))
          w))
  /\ length (take n (files_table w) ++ drop (S n) (files_table w))
     = length (files_table w) - 1.
Proof.
  intros Hitem Hask. split.
  - unfold delete_selected_record. mred.
    assert (Hpos : (0 <=? Z.of_nat n)%Z = true) by (apply Z.leb_le; lia).
    rewrite Hpos, Nat2Z.id, Hitem. mred. rewrite Hask. mred.
    rewrite delete_take_drop. reflexivity.
  - apply lookup_lt_Some in Hitem.
    rewrite length_app, length_take, length_drop. lia.
Qed.

Lemma confirmed_delete_removes_the_selected_row_witness :
  files_table Scenario.world2 !! 1
  = Some (Row "report.pdf" "Unknown" "Hyderabad, India" "Unknown"
              "2025-03-14 09:26:02" "doc1" "upload")
  /\ files_table
       (snd (delete_selected_record 1 (fun _ => true) Scenario.world2))
     = [Row "report.pdf" "Shared with: bob" "Hyderabad, India" "View Only"
            "2025-03-14 09:26:03" "doc1" "share"].
Proof.
  split; [vm_compute; reflexivity|].
  destruct (confirmed_delete_removes_the_selected_row 1 (fun _ => true)
              (Row "report.pdf" "Unknown" "Hyderabad, India" "Unknown"
                   "2025-03-14 09:26:02" "doc1" "upload")
              Scenario.world2) as [Hrun _];
    [vm_compute; reflexivity|reflexivity|].
  change 1%Z with (Z.of_nat 1). rewrite Hrun. vm_compute. reflexivity.
Defined.

(** X15: a deletion that is not confirmed changes nothing at all, and one
    without a selected row only shows a warning. *)
Theorem unconfirmed_delete_changes_nothing (current_row : Z)
    (ask : string -> bool) (w : world) :
  (forall name, ask name = false) ->
  files_table (snd (delete_selected_record current_row ask w))
  = files_table w /\
  ((current_row < 0)%Z ->
   ui (snd (delete_selected_record current_row ask w))
   = ui w ++ [MsgWarning "Warning" "Please select a record to delete"]) /\
  ((0 <= current_row < Z.of_nat (length (files_table w)))%Z ->
   snd (delete_selected_record current_row ask w) = w).
Proof.
  intros Hno. unfold delete_selected_record. mred.
  destruct (0 <=? current_row)%Z eqn:Hrow; mred.
  - apply Z.leb_le in Hrow.
    destruct (files_table w !! Z.to_nat current_row) as [item|] eqn:Hitem; mred.
    + rewrite Hno. mred. split; [reflexivity|]. split; [lia|reflexivity].
    + split; [reflexivity|]. split; [lia|].
      intros Hin. exfalso. apply lookup_ge_None in Hitem. lia.
  - apply Z.leb_gt in Hrow. split; [reflexivity|]. split; [reflexivity|lia].
Qed.

Lemma unconfirmed_delete_changes_nothing_witness :
  snd (delete_selected_record 0 (fun _ => false) Scenario.world2)
  = Scenario.world2.
Proof.
  destruct (unconfirmed_delete_changes_nothing 0 (fun _ => false)
              Scenario.world2) as (_ & _ & H); [reflexivity|].
  apply H. vm_compute. split; [discriminate|reflexivity].
Defined.

(** ** The viewer *)

Lemma load_current_page_in_document (v : Viewer.SecurePDFViewer) :
  (0 <= Viewer.current_page v < Viewer.total_pages v)%Z ->
  Forall (fun page => (0 <= page < Viewer.total_pages v)%Z)
         (Viewer.page_label v) ->
  Viewer.in_document (Viewer.load_current_page v) /\
  Viewer.total_pages (Viewer.load_current_page v) = Viewer.total_pages v /\
  Viewer.current_page (Viewer.load_current_page v) = Viewer.current_page v.
Proof.
  intros Hcp Hall. unfold Viewer.load_current_page.
  assert (Hg : ((0 <=? Viewer.current_page v)%Z
                && (Viewer.current_page v <? Viewer.total_pages v)%Z) = true).
  { apply andb_true_iff. split; [apply Z.leb_le|apply Z.ltb_lt]; lia. }
  rewrite Hg. unfold Viewer.in_document. cbn.
  repeat split; try lia.
  - apply Forall_app. split; [exact Hall|]. apply Forall_singleton. lia.
  - apply last_snoc.
Qed.

Lemma handle_in_document (v : Viewer.SecurePDFViewer)
    (ev : Viewer.viewer_event) :
  Viewer.in_document v ->
  Viewer.in_document (Viewer.handle v ev) /\
  Viewer.total_pages (Viewer.handle v ev) = Viewer.total_pages v.
Proof.
  intros Hv. pose proof Hv as (Hcp & Hall & Hlast & Hprev & Hnext).
  destruct ev; cbn [Viewer.handle].
  - unfold Viewer.previous_page.
    destruct (0 <? Viewer.current_page v)%Z eqn:Hg; [|auto].
    apply Z.ltb_lt in Hg.
    match goal with
    | |- context [Viewer.load_current_page ?v0] =>
        destruct (load_current_page_in_document v0) as (H1 & H2 & _);
        cbn; [lia|exact Hall|]
    end.
    split; [exact H1|exact H2].
  - unfold Viewer.next_page.
    destruct (Viewer.current_page v <? Viewer.total_pages v - 1)%Z eqn:Hg;
      [|auto].
    apply Z.ltb_lt in Hg.
    match goal with
    | |- context [Viewer.load_current_page ?v0] =>
        destruct (load_current_page_in_document v0) as (H1 & H2 & _);
        cbn; [lia|exact Hall|]
    end.
    split; [exact H1|exact H2].
  - unfold Viewer.resizeEvent.
    destruct (load_current_page_in_document v) as (H1 & H2 & _); auto.
Qed.

Lemma exec_in_document (events : list Viewer.viewer_event)
    (v : Viewer.SecurePDFViewer) :
  Viewer.in_document v ->
  Viewer.in_document (Viewer.exec events v) /\
  Viewer.total_pages (Viewer.exec events v) = Viewer.total_pages v.
Proof.
  revert v. induction events as [|ev events IH]; intros v Hv; [auto|].
  cbn [Viewer.exec fold_left].
  destruct (handle_in_document v ev Hv) as [Hv' Ht].
  destruct (IH _ Hv') as [Hv'' Ht'].
  split; [exact Hv''|]. unfold Viewer.exec in Ht'. congruence.
Qed.

(** X16: whatever the user clicks, the viewer stays within the document:
    it renders pages of the document only, the page on its label is the
    current page, and [Previous] and [Next] are enabled exactly when there
    is a page before and a page after it.  On a document without pages
    nothing is ever rendered and both buttons stay enabled. *)
Theorem viewer_stays_within_the_document (pages : nat)
    (events : list Viewer.viewer_event) :
  Viewer.total_pages (Viewer.exec events (Viewer.setup_ui pages))
  = Z.of_nat pages /\
  Forall (fun page => (0 <= page < Z.of_nat pages)%Z)
         (Viewer.page_label (Viewer.exec events (Viewer.setup_ui pages))) /\
  (pages = 0 ->
   Viewer.exec events (Viewer.setup_ui pages)
   = Viewer.MkViewer 0 0 true true []) /\
  (pages <> 0 ->
   (0 <= Viewer.current_page (Viewer.exec events (Viewer.setup_ui pages))
    < Z.of_nat pages)%Z /\
   last (Viewer.page_label (Viewer.exec events (Viewer.setup_ui pages)))
   = Some (Viewer.current_page (Viewer.exec events (Viewer.setup_ui pages))) /\
   Viewer.prev_btn (Viewer.exec events (Viewer.setup_ui pages))
   = (0 <? Viewer.current_page
             (Viewer.exec events (Viewer.setup_ui pages)))%Z /\
   Viewer.next_btn (Viewer.exec events (Viewer.setup_ui pages))
   = (Viewer.current_page (Viewer.exec events (Viewer.setup_ui pages))
      <? Z.of_nat pages - 1)%Z).
Proof.
  destruct pages as [|n].
  - assert (Hfix : Viewer.exec events (Viewer.setup_ui 0)
                   = Viewer.MkViewer 0 0 true true []).
    { change (Viewer.setup_ui 0) with (Viewer.MkViewer 0 0 true true []).
      induction events as [|ev events IH]; [reflexivity|].
      cbn [Viewer.exec fold_left]. destruct ev; exact IH. }
    rewrite Hfix. cbn. split; [reflexivity|]. split; [constructor|].
    split; [reflexivity|]. intros H. contradiction.
  - assert (Hstart : Viewer.in_document (Viewer.setup_ui (S n))
                     /\ Viewer.total_pages (Viewer.setup_ui (S n))
                        = Z.of_nat (S n)).
    { unfold Viewer.setup_ui.
      match goal with
      | |- context [Viewer.load_current_page ?v0] =>
          destruct (load_current_page_in_document v0) as (H1 & H2 & _);
          cbn [Viewer.current_page Viewer.total_pages Viewer.page_label];
          [lia|constructor|]
      end.
      split; [exact H1|exact H2]. }
    destruct Hstart as [Hstart Htotal].
    destruct (exec_in_document events _ Hstart)
      as [(Hcp & Hall & Hlast & Hprev & Hnext) Ht].
    rewrite Ht, Htotal in *.
    split; [reflexivity|]. split; [exact Hall|].
    split; [discriminate|]. intros _. auto.
Qed.

Lemma next_page_current (v : Viewer.SecurePDFViewer) :
  Viewer.in_document v ->
  Viewer.current_page (Viewer.next_page v)
  = Z.min (Viewer.current_page v + 1) (Viewer.total_pages v - 1).
Proof.
  intros (Hcp & Hall & _). unfold Viewer.next_page.
  destruct (Viewer.current_page v <? Viewer.total_pages v - 1)%Z eqn:Hg.
  - apply Z.ltb_lt in Hg.
    match goal with
    | |- context [Viewer.load_current_page ?v0] =>
        destruct (load_current_page_in_document v0) as (_ & _ & ->);
        cbn; [lia|exact Hall|lia]
    end.
  - apply Z.ltb_ge in Hg. lia.
Qed.

Lemma previous_page_current (v : Viewer.SecurePDFViewer) :
  Viewer.in_document v ->
  Viewer.current_page (Viewer.previous_page v)
  = Z.max 0 (Viewer.current_page v - 1).
Proof.
  intros (Hcp & Hall & _). unfold Viewer.previous_page.
  destruct (0 <? Viewer.current_page v)%Z eqn:Hg.
  - apply Z.ltb_lt in Hg.
    match goal with
    | |- context [Viewer.load_current_page ?v0] =>
        destruct (load_current_page_in_document v0) as (_ & _ & ->);
        cbn; [lia|exact Hall|lia]
    end.
  - apply Z.ltb_ge in Hg. lia.
Qed.

Lemma exec_next_current (k : nat) (v : Viewer.SecurePDFViewer) :
  Viewer.in_document v ->
  Viewer.current_page (Viewer.exec (repeat Viewer.ClickNext k) v)
  = Z.min (Viewer.current_page v + Z.of_nat k) (Viewer.total_pages v - 1).
Proof.
  revert v. induction k as [|k IH]; intros v Hv.
  - destruct Hv as (Hcp & _). cbn. lia.
  - cbn [repeat Viewer.exec fold_left Viewer.handle].
    destruct (handle_in_document v Viewer.ClickNext Hv) as [Hv' Ht].
    cbn [Viewer.handle] in Hv', Ht.
    pose proof (IH _ Hv') as H. unfold Viewer.exec in H. rewrite H.
    rewrite Ht, (next_page_current v Hv). lia.
Qed.

Lemma exec_previous_current (j : nat) (v : Viewer.SecurePDFViewer) :
  Viewer.in_document v ->
  Viewer.current_page (Viewer.exec (repeat Viewer.ClickPrevious j) v)
  = Z.max 0 (Viewer.current_page v - Z.of_nat j).
Proof.
  revert v. induction j as [|j IH]; intros v Hv.
  - destruct Hv as (Hcp & _). cbn. lia.
  - cbn [repeat Viewer.exec fold_left Viewer.handle].
    destruct (handle_in_document v Viewer.ClickPrevious Hv) as [Hv' Ht].
    cbn [Viewer.handle] in Hv', Ht.
    pose proof (IH _ Hv') as H. unfold Viewer.exec in H. rewrite H.
    rewrite (previous_page_current v Hv). lia.
Qed.

(** X17: [Next] and [Previous] move by one page and stop at the ends: in
    a document with pages, [k] clicks on [Next] after the opening lead to
    page [min k (pages - 1)], and [j] clicks on [Previous] from there lead
    back to page [max 0 (min k (pages - 1) - j)]. *)
Theorem viewer_navigation_stops_at_the_ends (pages k j : nat) :
  pages <> 0 ->
  Viewer.current_page
    (Viewer.exec (repeat Viewer.ClickNext k ++ repeat Viewer.ClickPrevious j)
       (Viewer.setup_ui pages))
  = Z.max 0 (Z.min (Z.of_nat k) (Z.of_nat pages - 1) - Z.of_nat j).
Proof.
  intros Hpages.
  assert (Hstart : Viewer.in_document (Viewer.setup_ui pages)
                   /\ Viewer.total_pages (Viewer.setup_ui pages)
                      = Z.of_nat pages
                   /\ Viewer.current_page (Viewer.setup_ui pages) = 0%Z).
  { unfold Viewer.setup_ui.
    match goal with
    | |- context [Viewer.load_current_page ?v0] =>
        destruct (load_current_page_in_document v0) as (H1 & H2 & H3);
        cbn [Viewer.current_page Viewer.total_pages Viewer.page_label];
        [lia|constructor|]
    end.
    auto. }
  destruct Hstart as (Hstart & Htotal & Hzero).
  unfold Viewer.exec. rewrite fold_left_app.
  destruct (exec_in_document (repeat Viewer.ClickNext k) _ Hstart)
    as [Hmid _].
  pose proof (exec_previous_current j _ Hmid) as H.
  unfold Viewer.exec in H. rewrite H.
  pose proof (exec_next_current k _ Hstart) as H'.
  unfold Viewer.exec in H'. rewrite H', Htotal, Hzero. lia.
Qed.

(** Five times [Next] in three pages, then once [Previous]: page 1. *)
Lemma viewer_navigation_stops_at_the_ends_witness :
  3 <> 0
  /\ Viewer.current_page
       (Viewer.exec (repeat Viewer.ClickNext 5 ++ repeat Viewer.ClickPrevious 1)
          (Viewer.setup_ui 3))
     = 1%Z.
Proof.
  split; [discriminate|].
  apply (viewer_navigation_stops_at_the_ends 3 5 1). discriminate.
Defined.

(** ** The preview *)


(** ** The share dialog and [upload_file] *)

Lemma share_file_returns (self : SecureShareDialog) (e : env) (w : world) :
  exists r, fst (share_file self e w) = inr r.
Proof.
  destruct (truthy (strip (recipient_input self))) eqn:Hr.
  - destruct (share_file_outcome self e w Hr)
      as [(msg & Hret & _)|(P & p & result & url & id & H)]; [eauto|].
    destruct H as (Hp & Hcfg & Hconf & Ht & Hf & Hw & Hu & Hurl & Hdb & Hadd).
    destruct (share_file_run self e w P p result url id) as (Hret & _); eauto.
  - unfold share_file. rewrite Hr. mred. eauto.
Qed.


(** One click in the dialog: the share, and the next click unless it was
    accepted. *)
Lemma dialog_exec_step (name path user_id : string) (c : click)
    (rest : list click) (w : world) :
  dialog_exec name path user_id (c :: rest) w
  = let w1 := snd (share_file (Dialog name path user_id (click_recipient c)
                                 (click_access c)) (click_env c) w) in
    if accepted w1 then (inr tt, w1)
    else dialog_exec name path user_id rest w1.
Proof.
  cbn [dialog_exec]. mred.
  destruct (share_file_returns
              (Dialog name path user_id (click_recipient c) (click_access c))
              (click_env c) w) as [r Hret].
  destruct (share_file _ (click_env c) w) as [r' w1].
  cbn [fst snd] in *. subst r'.
  destruct (accepted w1); reflexivity.
Qed.



(** X20: when the selected file can be read and the first click on
    [Share] is accepted, [upload_file] is that share followed by the load
    of the table: later clicks do not count, and the table shows the
    records of the user with the new one among them. *)
Theorem upload_file_is_share_then_load (user_id selected : string)
    (c : click) (rest : list click) (e : env) (w : world) (P : list byte) :
  truthy selected = true ->
  fs w !! selected = Some (RegularFile (inr P)) ->
  accepted
    (snd (share_file (Dialog (basename selected) selected user_id
                        (click_recipient c) (click_access c))
            (click_env c) w)) = true ->
  upload_file user_id selected (c :: rest) e w
  = load_file_access_records user_id e
      (snd (share_file (Dialog (basename selected) selected user_id
                          (click_recipient c) (click_access c))
              (click_env c) w)).
Proof.
  intros Hs Hp Hacc. unfold upload_file. rewrite Hs.
  repeat (mred; rewrite ?Hp).
  rewrite dialog_exec_step. cbv zeta. rewrite Hacc.
  match goal with
  | |- context [load_file_access_records ?u ?e0 ?w1] =>
      destruct (load_file_access_records_table u e0 w1) as (Hret & _);
      destruct (load_file_access_records u e0 w1) as [r w2]
  end.
  cbn [fst] in Hret. subst r. reflexivity.
Qed.

Lemma upload_file_is_share_then_load_witness :
  truthy Sample.report_path = true
  /\ upload_file "alice" Sample.report_path
       [Scenario.click_ok; Scenario.click_ok] Sample.env_ok Sample.world0
     = load_file_access_records "alice" Sample.env_ok
         (snd (share_file
                 (Dialog (basename Sample.report_path) Sample.report_path
                    "alice" (click_recipient Scenario.click_ok)
                    (click_access Scenario.click_ok))
                 (click_env Scenario.click_ok) Sample.world0))
  /\ length (ledger (snd (upload_file "alice" Sample.report_path
                            [Scenario.click_ok; Scenario.click_ok]
                            Sample.env_ok Sample.world0))) = 1.
Proof.
  split; [reflexivity|].
  assert (H := upload_file_is_share_then_load "alice" Sample.report_path
                 Scenario.click_ok [Scenario.click_ok] Sample.env_ok
                 Sample.world0 Sample.report_bytes).
  split.
  - apply H; vm_compute; reflexivity.
  - vm_compute. reflexivity.
Defined.

(** ** More on the stored buffer *)

Lemma flip_bit_app_l (a l : list byte) (i j : nat) :
  i < length a -> flip_bit (a ++ l) i j = flip_bit a i j ++ l.
Proof.
  revert i. induction a as [|x a IH]; intros i Hi; simpl in *; [lia|].
  destruct i as [|i]; [reflexivity|]. simpl. rewrite IH by lia. reflexivity.
Qed.

Lemma flip_bit_length (l : list byte) (i j : nat) :
  length (flip_bit l i j) = length l.
Proof.
  revert i. induction l as [|x l IH]; intros [|i]; simpl; auto.
Qed.

(** The tag of EAX tells two nonces apart that differ in one octet. *)
Lemma eax_tag_diff_nonce (k h c pre post : list byte) (b b' : byte) :
  b <> b' ->
  Modes.eax_tag AES.encrypt_block k (pre ++ b :: post) h c
  <> Modes.eax_tag AES.encrypt_block k (pre ++ b' :: post) h c.
Proof.
  intros Hb. unfold Modes.eax_tag. intros H.
  pose proof (omac_length _ encrypt_block_length) as Hlen.
  rewrite !take_ge in H
    by (rewrite !strxor_length, !Hlen; unfold Modes.zero_block;
        rewrite repeat_length; lia).
  apply strxor_inj_l in H;
    [|rewrite !strxor_length, !Hlen; reflexivity
     |rewrite !strxor_length, !Hlen; unfold Modes.zero_block;
      rewrite repeat_length; lia].
  apply strxor_inj_l in H;
    [|rewrite !strxor_length, !Hlen; reflexivity
     |rewrite !strxor_length, !Hlen; unfold Modes.zero_block;
      rewrite repeat_length; lia].
  apply strxor_inj_r in H;
    [|rewrite !Hlen; reflexivity
     |rewrite !Hlen; unfold Modes.zero_block; rewrite repeat_length; lia].
  revert H. apply (omac_diff _ encrypt_block_length encrypt_block_inj).
  exact Hb.
Qed.

(** X21: a single-bit change in the first 32 octets of the stored buffer,
    the nonce and the tag, is rejected as one in the ciphertext is:
    [decrypt_pdf] with the right key raises
    ["Decryption failed: MAC check failed"] and returns no data. *)
Theorem tampered_nonce_or_tag_is_rejected (w : world) (path : string)
    (P : list byte) (i j : nat) :
  fs w !! path = Some (RegularFile (inr P)) ->
  i < 32 ->
  exists r w',
    encrypt_pdf path w = (inr r, w') /\
    decrypt_pdf (flip_bit (serialize r) i j) (er_key r)
    = inl (Exception "Decryption failed: MAC check failed").
Proof.
  intros Hfile Hi. do 2 eexists. split; [apply encrypt_pdf_readable, Hfile|].
  unfold serialize. cbn [er_nonce er_tag er_ciphertext er_key].
  set (key := fresh_key w). set (nonce := fresh_nonce w).
  set (ct := Modes.eax_encrypt AES.encrypt_block key nonce P).
  set (tag := Modes.eax_tag AES.encrypt_block key nonce [] ct).
  assert (Hk : length key = 16)
    by (unfold key, fresh_key; rewrite length_map, length_seq; reflexivity).
  assert (Hn : length nonce = 16)
    by (unfold nonce, fresh_nonce; rewrite length_map, length_seq; reflexivity).
  assert (Ht : length tag = 16) by apply (eax_tag_length _ encrypt_block_length).
  destruct (Nat.lt_ge_cases i 16) as [Hlow|Hhigh].
  - rewrite flip_bit_app_l by lia.
    destruct (flip_bit_split nonce i j) as (pre & b & post & Hnonce & _ & Hflip);
      [lia|].
    assert (Hn' : length (flip_bit nonce i j) = 16)
      by (rewrite flip_bit_length; exact Hn).
    unfold decrypt_pdf.
    rewrite (take_app_length' (flip_bit nonce i j) _ 16) by lia.
    rewrite (drop_app_length' (flip_bit nonce i j) _ 16) by lia.
    rewrite (take_app_length' tag _ 16) by lia.
    replace (drop 32 (flip_bit nonce i j ++ tag ++ ct)) with ct.
    2:{ change 32 with (16 + 16). rewrite <- drop_drop.
        rewrite (drop_app_length' (flip_bit nonce i j) _ 16) by lia.
        rewrite (drop_app_length' tag _ 16) by lia. reflexivity. }
    unfold AES_EAX.new. rewrite Hn', Hk. cbn [Nat.eqb orb].
    unfold AES_EAX.decrypt_and_verify. cbn [AES_EAX.cipher_key AES_EAX.nonce].
    destruct (bytes_eqb _ tag) eqn:Heq; [|reflexivity].
    exfalso. apply bytes_eqb_eq in Heq. unfold tag in Heq.
    rewrite Hflip, Hnonce in Heq. revert Heq.
    apply eax_tag_diff_nonce. apply flip_bit_byte_neq.
  - rewrite flip_bit_app_r by lia. rewrite flip_bit_app_l by lia.
    destruct (flip_bit_split tag (i - length nonce) j)
      as (pre & b & post & Htag & _ & Hflip); [lia|].
    assert (Ht' : length (flip_bit tag (i - length nonce) j) = 16)
      by (rewrite flip_bit_length; exact Ht).
    unfold decrypt_pdf.
    rewrite (take_app_length' nonce _ 16) by lia.
    rewrite (drop_app_length' nonce _ 16) by lia.
    rewrite (take_app_length' (flip_bit tag (i - length nonce) j) _ 16) by lia.
    replace (drop 32 (nonce ++ flip_bit tag (i - length nonce) j ++ ct))
      with ct.
    2:{ change 32 with (16 + 16). rewrite <- drop_drop.
        rewrite (drop_app_length' nonce _ 16) by lia.
        rewrite (drop_app_length' (flip_bit tag (i - length nonce) j) _ 16)
          by lia.
        reflexivity. }
    unfold AES_EAX.new. rewrite Hn, Hk. cbn [Nat.eqb orb].
    unfold AES_EAX.decrypt_and_verify. cbn [AES_EAX.cipher_key AES_EAX.nonce].
    fold ct. fold tag.
    destruct (bytes_eqb tag _) eqn:Heq; [|reflexivity].
    exfalso. apply bytes_eqb_eq in Heq. rewrite Hn in Hflip.
    rewrite Hflip in Heq.
    rewrite Htag in Heq at 1. apply app_inv_head in Heq.
    injection Heq as Heq. symmetry in Heq. revert Heq. apply flip_bit_byte_neq.
Qed.

(** Bit 7 of the third octet of the nonce of [report.pdf] toggled. *)
Lemma tampered_nonce_or_tag_is_rejected_witness :
  fs Sample.world0 !! Sample.report_path
  = Some (RegularFile (inr Sample.report_bytes))
  /\ 2 < 32
  /\ exists r w',
       encrypt_pdf Sample.report_path Sample.world0 = (inr r, w') /\
       decrypt_pdf (flip_bit (serialize r) 2 7) (er_key r)
       = inl (Exception "Decryption failed: MAC check failed").
Proof.
  split; [reflexivity|]. split; [lia|].
  apply (tampered_nonce_or_tag_is_rejected Sample.world0 Sample.report_path
           Sample.report_bytes 2 7).
  - reflexivity.
  - lia.
Defined.

(** X22: a buffer cut short of its 32 octets of nonce and tag is never
    decrypted, under any key: [decrypt_pdf] raises an [Exception] that
    starts with ["Decryption failed: "]. *)
Theorem truncated_buffer_is_rejected (encrypted_data key : list byte) :
  length encrypted_data < 32 ->
  exists msg,
    decrypt_pdf encrypted_data key
    = inl (Exception ("Decryption failed: " +:+ msg)).
Proof.
  intros Hlen. unfold decrypt_pdf.
  destruct (AES_EAX.new key (take 16 encrypted_data)) as [err|cipher];
    [eauto|].
  unfold AES_EAX.decrypt_and_verify.
  destruct (bytes_eqb _ _) eqn:Heq; [|eauto].
  exfalso. apply bytes_eqb_eq in Heq. apply (f_equal length) in Heq.
  rewrite (eax_tag_length _ encrypt_block_length) in Heq.
  rewrite length_take, length_drop in Heq. lia.
Qed.

(** The stored buffer of [report.pdf] without its last eleven octets. *)
Lemma truncated_buffer_is_rejected_witness :
  length (take 31 (serialize Sample.encrypted)) < 32
  /\ decrypt_pdf (take 31 (serialize Sample.encrypted))
       (er_key Sample.encrypted)
     = inl (Exception "Decryption failed: MAC check failed").
Proof.
  split; [vm_compute; lia|].
  destruct (truncated_buffer_is_rejected
              (take 31 (serialize Sample.encrypted)) (er_key Sample.encrypted))
    as [msg Hmsg]; [vm_compute; lia|].
  vm_compute. reflexivity.
Defined.



(** ** The colours of the table *)

Lemma flatten_doc_colors (x : string * doc) :
  made_by_share_file (snd x) ->
  exists shared uploaded,
    flatten_doc x = [shared; uploaded] /\
    row_color shared = Cyan /\ row_color uploaded = LightGray.
Proof.
  destruct x as [id d].
  intros (self & rc & al & sf & key & url & geo & t1 & t2 & t3 & Hd).
  cbn [snd] in Hd. subst d. do 2 eexists. split; [reflexivity|].
  split; reflexivity.
Qed.

Lemma flat_map_flatten_colors (l : list (string * doc)) (c : color) :
  Forall (fun x => made_by_share_file (snd x)) l ->
  Forall (fun r => row_color r <> White) (flat_map flatten_doc l) /\
  (c <> White ->
   length (filter (fun r => row_color r = c) (flat_map flatten_doc l))
   = length l).
Proof.
  induction 1 as [|x l Hx Hl [IH1 IH2]]; [split; [constructor|reflexivity]|].
  destruct (flatten_doc_colors x Hx) as (s & u & Hrows & Hs & Hu).
  cbn [flat_map]. rewrite Hrows. split.
  - repeat constructor; [rewrite Hs|rewrite Hu|exact IH1]; discriminate.
  - intros Hc. cbn [app length]. rewrite <- (IH2 Hc).
    destruct c; [|
                 |contradiction].
    + rewrite filter_cons_False by (rewrite Hs; discriminate).
      rewrite filter_cons_True by exact Hu. reflexivity.
    + rewrite filter_cons_True by exact Hs.
      rewrite filter_cons_False by (rewrite Hu; discriminate). reflexivity.
Qed.

(** X24: in a collection that only [share_file] has written to, and after
    one more call of it, the table a user loads has no white row: each of
    the user's records shows as one cyan row, its share, and one light
    gray row, its upload. *)
Theorem table_of_shares_is_cyan_and_gray (self : SecureShareDialog)
    (e e_load : env) (user_id : string) (w : world) :
  Forall (fun x => made_by_share_file (snd x)) (ledger w) ->
  load_refusal e_load = None ->
  Forall (fun r => row_color r <> White)
    (files_table
       (snd (load_file_access_records user_id e_load
               (snd (share_file self e w))))) /\
  length (filter (fun r => row_color r = Cyan)
            (files_table
               (snd (load_file_access_records user_id e_load
                       (snd (share_file self e w))))))
  = length (query_by_owner user_id (ledger (snd (share_file self e w)))) /\
  length (filter (fun r => row_color r = LightGray)
            (files_table
               (snd (load_file_access_records user_id e_load
                       (snd (share_file self e w))))))
  = length (query_by_owner user_id (ledger (snd (share_file self e w)))).
Proof.
  intros Hmade Hload.
  assert (Hmade' : Forall (fun x => made_by_share_file (snd x))
                     (ledger (snd (share_file self e w)))).
  { destruct (share_file_cases self e w)
      as [[_ Hl]|(_ & _ & id & sf & key & result & url & t1 & t2 & t3
                  & _ & _ & Hl)];
      rewrite Hl; [exact Hmade|].
    apply Forall_app. split; [exact Hmade|]. apply Forall_singleton.
    cbn [snd]. unfold made_by_share_file. eauto 11. }
  destruct (load_file_access_records_table user_id e_load
              (snd (share_file self e w))) as (_ & _ & ->).
  rewrite Hload.
  assert (Hq : Forall (fun x => made_by_share_file (snd x))
                 (query_by_owner user_id (ledger (snd (share_file self e w))))).
  { unfold query_by_owner. apply Forall_forall. intros x Hx.
    apply list_elem_of_filter in Hx as [_ Hx].
    revert x Hx. apply Forall_forall. exact Hmade'. }
  pose proof (sort_reverse_perm row_time
                (flat_map flatten_doc
                   (query_by_owner user_id
                      (ledger (snd (share_file self e w)))))) as Hperm.
  split; [|split].
  - rewrite Hperm. apply (flat_map_flatten_colors _ Cyan Hq).
  - rewrite Hperm. apply (flat_map_flatten_colors _ Cyan Hq). discriminate.
  - rewrite Hperm. apply (flat_map_flatten_colors _ LightGray Hq). discriminate.
Qed.

Lemma table_of_shares_is_cyan_and_gray_witness :
  Forall (fun x => made_by_share_file (snd x)) (ledger Sample.world0)
  /\ load_refusal Sample.env_ok = None
  /\ length (filter (fun r => row_color r = Cyan)
               (files_table
                  (snd (load_file_access_records "alice" Sample.env_ok
                          (snd (share_file Sample.dialog Sample.env_ok
                                  Sample.world0))))))
     = 1.
Proof.
  split; [constructor|]. split; [reflexivity|].
  destruct (table_of_shares_is_cyan_and_gray Sample.dialog Sample.env_ok
              Sample.env_ok "alice" Sample.world0)
    as (_ & Hcyan & _); [constructor|reflexivity|].
  rewrite Hcyan. vm_compute. reflexivity.
Defined.
